(** * A verification development for the bitmask sudoku solver

    The development embeds the three Python modules of the repository,
    [configuration.py], [sudoku.py] and [sudoku_solver.py], as Rocq
    functions and proves properties of them.

    Conventions of the embedding.
    - A Python [int] is a [Z].  A NumPy [uint16] cell is a [Z] whose
      wrap-around is written out ([uint16]).
    - A NumPy 2-d array is a list of rows ([matrix]).
    - A Python exception is a value of [Exception]; a function that can
      raise returns a [result].
    - The program mutates objects in place; the embedding passes the state
      explicitly and returns the new state. *)

From stdpp Require Import list strings pretty.
From Stdlib Require Import ZArith Lia.

Local Open Scope Z_scope.

(** ** Exceptions and results *)

(** What an exception carries in its [args]. [ArgCell] is a cell coordinate;
    it is part of the vocabulary although no [raise] of the program passes
    one. *)
Inductive exc_arg :=
| ArgStr (s : string)
| ArgMaterial (m : list (list Z))
| ArgCell (y x : Z).

Inductive Exception :=
| TypeError (msg : string)
| ValueError (msg : string)
| IndexError
| OverflowError
| AttributeError (args : list exc_arg).

(** [OutOfFuel] is not a Python outcome: it marks that the bound which the
    embedding puts on the [while] loop and on the recursion was reached. *)
Inductive result (A : Type) :=
| Ok (a : A)
| Raise (e : Exception)
| OutOfFuel.
Arguments Ok {A} a.
Arguments Raise {A} e.
Arguments OutOfFuel {A}.

Global Instance result_ret : MRet result := λ A a, Ok a.
Global Instance result_bind : MBind result := λ A B f r,
  match r with
  | Ok a => f a
  | Raise e => Raise e
  | OutOfFuel => OutOfFuel
  end.

(** A [for] loop over a list that threads a state and stops at the first
    exception. *)
Fixpoint for_each {A S : Type} (l : list A) (body : A → S → result S) (s : S)
  : result S :=
  match l with
  | [] => Ok s
  | a :: l' => s' ← body a s; for_each l' body s'
  end.

(** ** Python and NumPy primitives *)

(** [range(a, b)] *)
Definition range (a b : Z) : list Z := seqZ a (b - a).

(** [enumerate(l)] *)
Definition enumerate {A : Type} (l : list A) : list (Z * A) :=
  zip (seqZ 0 (Z.of_nat (length l))) l.

(** An index as Python normalises it: a negative index counts from the end;
    [None] stands for the [IndexError] case. *)
Definition norm_index (len : nat) (i : Z) : option nat :=
  let j := if bool_decide (i < 0) then i + Z.of_nat len else i in
  if bool_decide (0 ≤ j < Z.of_nat len) then Some (Z.to_nat j) else None.

(** [l[i]] *)
Definition getitem {A : Type} (l : list A) (i : Z) : result A :=
  match norm_index (length l) i ≫= (l !!.) with
  | Some a => Ok a
  | None => Raise IndexError
  end.

(** [l[i] = a] *)
Definition setitem {A : Type} (l : list A) (i : Z) (a : A) : result (list A) :=
  match norm_index (length l) i with
  | Some j => Ok (<[j:=a]> l)
  | None => Raise IndexError
  end.

Abbreviation matrix := (list (list Z)).

(** [m[y,x]] *)
Definition getitem2 (m : matrix) (y x : Z) : result Z :=
  row ← getitem m y; getitem row x.

(** [m[y,x] = v] *)
Definition setitem2 (m : matrix) (y x : Z) (v : Z) : result matrix :=
  row ← getitem m y; row' ← setitem row x v; setitem m y row'.

(** [np.zeros((rows, cols), ...)] *)
Definition zeros (rows cols : Z) : matrix :=
  replicate (Z.to_nat rows) (replicate (Z.to_nat cols) 0).

(** The value a 16-bit unsigned cell keeps of an integer. *)
Definition uint16 (v : Z) : Z := v `mod` 2 ^ 16.

(** Storing a Python [int] into a [uint16] array.  The program needs the
    NumPy 1.x conversion rules ([place] computes [uint16 & ~1], which NumPy 2
    rejects): an integer that fits a C [long] is truncated to the cell's 16
    bits, a larger one raises [OverflowError]. *)
Definition uint16_of_pyint (v : Z) : result Z :=
  if bool_decide (- 2 ^ 63 ≤ v < 2 ^ 63) then Ok (uint16 v)
  else Raise OverflowError.

(** [~] on a [uint16] array cell *)
Definition uint16_invert (v : Z) : Z := uint16 (Z.lnot v).

(** [m[sel] = v] for a selection [sel] of cells that lies inside the array:
    a row [m[y,:]], a column [m[:,x]] or a block [m[y0:y1, x0:x1]]. *)
Definition matrix_assign (sel : Z → Z → bool) (v : Z) (m : matrix)
  : result matrix :=
  w ← uint16_of_pyint v;
  Ok (imap (λ r row, imap (λ c old, if sel (Z.of_nat r) (Z.of_nat c)
                                    then w else old) row) m).

(** Element-wise binary operation of two arrays of one shape. *)
Definition matrix_zip (f : Z → Z → Z) (a b : matrix) : matrix :=
  zip_with (zip_with f) a b.

Definition matrix_map (f : Z → Z) (a : matrix) : matrix :=
  fmap (M:=list) (fmap (M:=list) f) a.

(** ** configuration.py *)

Record Configuration := {
  size : Z;
  partition_size : Z;
  number_to_bitmask : list Z;
  cell_free_bit : Z;
  empty_matrix : matrix;
  availability_masks : list (list (list (option matrix)))
}.

(** [(size ** .5)] of a negative [int] is a [complex], which has no
    [is_integer]; the conversion of the [int] to [float] that comes first
    overflows from [2^1024 - 2^970] on. *)
Definition sqrt_is_integer (size : Z) : result bool :=
  if bool_decide (size < 0) then
    if bool_decide (- (2 ^ 1024 - 2 ^ 970) < size)
    then Raise (AttributeError
                  [ArgStr "'complex' object has no attribute 'is_integer'"])
    else Raise OverflowError
  else Ok (bool_decide (Z.sqrt size * Z.sqrt size = size)).

(** [Configuration.validateParameters].  The arguments are typed: [size] is an
    [int] and [partition_size] an [int] or [None], so that the [TypeError] of
    the first test cannot arise. *)
Definition validateParameters (size : Z) (partition_size : option Z)
  : result (Z * Z) :=
  if bool_decide (size > 10 ^ 2) then
    Raise (ValueError ("size can not be greater than 100, not " +:+ pretty size))
  else
    is_square ← sqrt_is_integer size;
    if negb is_square then
      Raise (ValueError ("size must be a square, not " +:+ pretty size))
    else
      let partition_size :=
        match partition_size with
        | None => Z.sqrt size
        | Some p => p
        end in
      if bool_decide (partition_size ≠ Z.sqrt size) then
        Raise (ValueError
                 ("partition_size must he the square root of size (which is "
                  +:+ pretty (Z.sqrt size) +:+ "), not "
                  +:+ pretty partition_size))
      else Ok (size, partition_size).

(** [self.availability_masks[y][x][number] = matrix] *)
Definition masks_set (masks : list (list (list (option matrix))))
    (y x number : Z) (m : matrix)
  : result (list (list (list (option matrix)))) :=
  plane ← getitem masks y;
  line ← getitem plane x;
  line' ← setitem line number (Some m);
  plane' ← setitem plane x line';
  setitem masks y plane'.

(** [self.availability_masks[y][x][number]] *)
Definition masks_get (masks : list (list (list (option matrix))))
    (y x number : Z) : result (option matrix) :=
  plane ← getitem masks y;
  line ← getitem plane x;
  getitem line number.

(** The body of the innermost loop of [setParameters]: the matrix of one cell
    and one number. *)
Definition availability_mask (size partition_size : Z)
    (number_to_bitmask : list Z) (empty_matrix : matrix) (y x number : Z)
  : result matrix :=
  let matrix := empty_matrix in
  let partition_y := (y `div` partition_size) * partition_size in
  let partition_x := (x `div` partition_size) * partition_size in
  v ← getitem number_to_bitmask number;
  matrix ← matrix_assign (λ r _, bool_decide (r = y)) v matrix;
  v ← getitem number_to_bitmask number;
  matrix ← matrix_assign (λ _ c, bool_decide (c = x)) v matrix;
  v ← getitem number_to_bitmask number;
  matrix_assign
    (λ r c, bool_decide (partition_y ≤ r < partition_y + partition_size)
            && bool_decide (partition_x ≤ c < partition_x + partition_size))
    v matrix.

(** [Configuration.setParameters], which is all that [__init__] does. *)
Definition setParameters (size : Z) (partition_size : option Z)
  : result Configuration :=
  '(size, partition_size) ← validateParameters size partition_size;
  let number_to_bitmask := (λ i, 1 ≪ i) <$> range 0 (size + 1) in
  let cell_free_bit := 1 in
  let empty_matrix := zeros size size in
  let n1 := Z.to_nat (size + 1) in
  let masks := replicate n1 (replicate n1 (replicate n1 None)) in
  masks ←
    for_each (range 0 size) (λ y masks,
      for_each (range 0 size) (λ x masks,
        for_each (range 1 (size + 1)) (λ number masks,
          matrix ← availability_mask size partition_size number_to_bitmask
                     empty_matrix y x number;
          masks_set masks y x number matrix) masks) masks) masks;
  Ok {| size := size;
        partition_size := partition_size;
        number_to_bitmask := number_to_bitmask;
        cell_free_bit := cell_free_bit;
        empty_matrix := empty_matrix;
        availability_masks := masks |}.

Definition Configuration_init (size : Z) (partition_size : option Z)
  : result Configuration :=
  setParameters size partition_size.

(** The module-level configurations.  A module-level statement that raised
    would stop the import; [Configuration_9_built] and [Configuration_4_built]
    below show that these two do not. *)
Definition built (r : result Configuration) : Configuration :=
  match r with
  | Ok c => c
  | _ => {| size := 0; partition_size := 0; number_to_bitmask := [];
            cell_free_bit := 0; empty_matrix := [];
            availability_masks := [] |}
  end.

Definition _9x9_configuration : Configuration :=
  built (Configuration_init 9 None).

Definition _4x4_configuration : Configuration :=
  built (Configuration_init 4 None).


(** ** sudoku.py *)

Record Sudoku := {
  config : Configuration;
  placed_numbers : Z;
  placability_board : matrix;
  displayable : matrix
}.

(** [Sudoku.__init__].  [self.placability_board |= n] computes in a type wide
    enough for [n] and casts the outcome back to the array's [uint16]. *)
Definition Sudoku_init (config : Configuration) : Sudoku :=
  {| config := config;
     placed_numbers := 0;
     placability_board :=
       foldl (λ board n, matrix_map (λ w, uint16 (Z.lor w n)) board)
         (empty_matrix config) (number_to_bitmask config);
     displayable := zeros (size config) (size config) |}.

(** [Sudoku.canPlace].  The Python value is an integer that the callers test
    for truth; [and] does not evaluate its right operand when the left one is
    zero. *)
Definition canPlace (self : Sudoku) (y x number : Z) : result bool :=
  w ← getitem2 (placability_board self) y x;
  m ← getitem (number_to_bitmask (config self)) number;
  if bool_decide (Z.land w m = 0) then Ok false
  else
    w ← getitem2 (placability_board self) y x;
    m ← getitem (number_to_bitmask (config self)) 0;
    Ok (bool_decide (Z.land w m ≠ 0)).

(** [Sudoku.place] *)
Definition place (self : Sudoku) (y x number : Z) : result Sudoku :=
  mask ← masks_get (availability_masks (config self)) y x number;
  match mask with
  | None => Raise (TypeError "bad operand type for unary ~: 'NoneType'")
  | Some mask =>
    let board :=
      matrix_zip (λ w k, Z.land w (uint16_invert k))
        (placability_board self) mask in
    w ← getitem2 board y x;
    board ← setitem2 board y x
              (uint16 (Z.land w (Z.lnot (cell_free_bit (config self)))));
    displayable ← setitem2 (displayable self) y x number;
    Ok {| config := config self;
          placed_numbers := placed_numbers self + 1;
          placability_board := board;
          displayable := displayable |}
  end.

(** [Sudoku.unplace].  The test reads [not (board[y,x] & cell_free_bit)]; the
    attribute [availability_matrices] that the next statement reads does not
    exist on a [Configuration] (the table is called [availability_masks]). *)
Definition unplace (self : Sudoku) (y x number : Z) : result Sudoku :=
  w ← getitem2 (placability_board self) y x;
  if bool_decide (Z.land w (cell_free_bit (config self)) = 0) then Ok self
  else
    Raise (AttributeError
             [ArgStr "'Configuration' object has no attribute 'availability_matrices'"]).

(** [Sudoku.copy]: the copy shares nothing with the original, which is what
    a value of the embedding is anyway. *)
Definition copy (self : Sudoku) : Sudoku :=
  let new := Sudoku_init (config self) in
  {| config := config new;
     placed_numbers := placed_numbers self;
     placability_board := placability_board self;
     displayable := displayable self |}.

(** [Sudoku.isSolved] *)
Definition isSolved (self : Sudoku) : bool :=
  bool_decide (placed_numbers self = size (config self) ^ 2).

(** ** sudoku_solver.py *)

(** An entry of the caller's 2-d array: a Python [int], or another scalar
    object ([str], [float], [None], ...), of which only what the builtin
    [int()] makes of it matters here. *)
Inductive pyobj :=
| PyInt (z : Z)
| PyConvertible (repr : string) (z : Z)
| PyInconvertible (repr : string) (e : Exception).

(** [int(o)] *)
Definition int_ (o : pyobj) : result Z :=
  match o with
  | PyInt z => Ok z
  | PyConvertible _ z => Ok z
  | PyInconvertible _ e => Raise e
  end.

(** A guess [(y, x, number)], or the placeholder [None] of the initial
    [best_guesses]. *)
Definition guess := option (Z * Z * Z).

Record SudokuSolver := {
  sudoku : Sudoku;
  trivial_found : bool;
  best_guesses : list guess
}.

(** The class attribute [config]. *)
Definition SudokuSolver_config : Configuration := _9x9_configuration.

(** A solver object that holds a sudoku; [trivial_found] and [best_guesses]
    do not exist before [placeTrivials] assigns them, and are never read
    before. *)
Definition SudokuSolver_of (s : Sudoku) : SudokuSolver :=
  {| sudoku := s; trivial_found := false; best_guesses := [] |}.

(** The cells that [np.where(board & bit)] yields: the cells whose word has the bit, in
    row-major order. *)
Definition np_where (board : matrix) (bit : Z) : list (Z * Z) :=
  '(y, row) ← enumerate board;
  '(x, w) ← enumerate row;
  if bool_decide (Z.land w bit ≠ 0) then [(y, x)] else [].

(** The inner loop of [considerEachCell] over the numbers. *)
Definition numbers_cell_can_hold (s : Sudoku) (y x : Z) (numbers : list Z)
  : result (list (Z * Z * Z)) :=
  for_each numbers (λ number held,
    ok ← canPlace s y x number;
    Ok (if ok : bool then held ++ [(y, x, number)] else held)) [].

(** The loop of [considerEachCell] over the cells that were free when the
    loop began; the result is the returned Boolean and the solver object as
    the loop leaves it. *)
Fixpoint considerEachCell_loop (cells : list (Z * Z)) (self : SudokuSolver)
  : result (bool * SudokuSolver) :=
  match cells with
  | [] => Ok (true, self)
  | (y, x) :: cells =>
    numbers_this_cell_can_hold ←
      numbers_cell_can_hold (sudoku self) y x
        (range 1 (size SudokuSolver_config + 1));
    match numbers_this_cell_can_hold with
    | [] => Ok (false, self)
    | [(y0, x0, number0)] =>
      s ← place (sudoku self) y0 x0 number0;
      considerEachCell_loop cells
        {| sudoku := s; trivial_found := true;
           best_guesses := best_guesses self |}
    | _ =>
      if bool_decide (length numbers_this_cell_can_hold
                      < length (best_guesses self))%nat
      then considerEachCell_loop cells
             {| sudoku := sudoku self; trivial_found := trivial_found self;
                best_guesses := Some <$> numbers_this_cell_can_hold |}
      else considerEachCell_loop cells self
    end
  end.

(** [SudokuSolver.considerEachCell] *)
Definition considerEachCell (self : SudokuSolver)
  : result (bool * SudokuSolver) :=
  considerEachCell_loop
    (np_where (placability_board (sudoku self))
       (cell_free_bit SudokuSolver_config))
    self.

(** The [while] loop of [placeTrivials], bounded by [fuel] passes. *)
Fixpoint placeTrivials_loop (fuel : nat) (self : SudokuSolver)
  : result (bool * SudokuSolver) :=
  if trivial_found self then
    match fuel with
    | O => OutOfFuel
    | S fuel =>
      let self :=
        {| sudoku := sudoku self; trivial_found := false;
           best_guesses :=
             replicate (Z.to_nat (size SudokuSolver_config)) None |} in
      '(solution_valid, self) ← considerEachCell self;
      if negb solution_valid then Ok (false, self)
      else placeTrivials_loop fuel self
    end
  else Ok (true, self).

(** [SudokuSolver.placeTrivials] *)
Definition placeTrivials (fuel : nat) (self : SudokuSolver)
  : result (bool * SudokuSolver) :=
  placeTrivials_loop fuel
    {| sudoku := sudoku self; trivial_found := true;
       best_guesses := best_guesses self |}.

(** [SudokuSolver.makeGuess]; unpacking the placeholder [None] as the
    arguments of [place] raises. *)
Definition makeGuess (self : SudokuSolver) (g : guess) : result Sudoku :=
  let new_sudoku := copy (sudoku self) in
  match g with
  | None =>
    Raise (TypeError
             "place() argument after * must be an iterable, not NoneType")
  | Some (y, x, number) => place new_sudoku y x number
  end.

(** What [solve] returns: [(True, sudoku)] or [(False, message)]. *)
Inductive outcome :=
| Solved (s : Sudoku)
| Unsolvable (msg : string).

(** The loop of [solve] over the guesses; [solve_new] is the recursive
    [SudokuSolver(new_sudoku).solve()]. *)
Fixpoint try_guesses (solve_new : Sudoku → result outcome)
    (self : SudokuSolver) (guesses : list guess) : result outcome :=
  match guesses with
  | [] => Ok (Unsolvable "the sudoku can not be solved")
  | g :: guesses =>
    new_sudoku ← makeGuess self g;
    r ← solve_new new_sudoku;
    match r with
    | Solved s => Ok (Solved s)
    | Unsolvable _ => try_guesses solve_new self guesses
    end
  end.

(** [SudokuSolver.solve]; [fuel] bounds the depth of the recursion and the
    passes of each [placeTrivials]. *)
Fixpoint solve (fuel : nat) (self : SudokuSolver) : result outcome :=
  match fuel with
  | O => OutOfFuel
  | S fuel' =>
    '(solution_valid, self) ← placeTrivials fuel self;
    if negb solution_valid then
      Ok (Unsolvable "the sudoku could not be solved")
    else if isSolved (sudoku self) then Ok (Solved (sudoku self))
    else
      try_guesses (λ new_sudoku, solve fuel' (SudokuSolver_of new_sudoku))
        self (best_guesses self)
  end.

(** The conversion loop of [verifyInput] over one row and over the rows, in
    row-major order.  The left component is the outcome, the right one the
    caller's array as the loop leaves it. *)
Fixpoint verifyInput_row (row : list pyobj) : result (list Z) * list pyobj :=
  match row with
  | [] => (Ok [], [])
  | o :: row' =>
    match int_ o with
    | Ok z =>
      let '(r, row'') := verifyInput_row row' in
      (zs ← r; Ok (z :: zs), PyInt z :: row'')
    | Raise e => (Raise e, o :: row')
    | OutOfFuel => (OutOfFuel, o :: row')
    end
  end.

Fixpoint verifyInput_rows (rows : list (list pyobj))
  : result (list (list Z)) * list (list pyobj) :=
  match rows with
  | [] => (Ok [], [])
  | row :: rows' =>
    match verifyInput_row row with
    | (Ok zs, row') =>
      let '(r, rows'') := verifyInput_rows rows' in
      (zss ← r; Ok (zs :: zss), row' :: rows'')
    | (Raise e, row') => (Raise e, row' :: rows')
    | (OutOfFuel, row') => (OutOfFuel, row' :: rows')
    end
  end.

(** [np.shape] of a list of lists of scalars; a ragged list is an array of
    row objects (NumPy 1.x). *)
Definition np_shape (input_material : list (list pyobj)) : list Z :=
  match input_material with
  | [] => [0]
  | row :: _ =>
    if bool_decide (Forall (λ row', length row' = length row) input_material)
    then [Z.of_nat (length input_material); Z.of_nat (length row)]
    else [Z.of_nat (length input_material)]
  end.

(** How Python prints a tuple of integers. *)
Definition pretty_tuple (t : list Z) : string :=
  match t with
  | [] => "()"
  | [a] => "(" +:+ pretty a +:+ ",)"
  | a :: t =>
    "(" +:+ pretty a +:+ foldr (λ b acc, ", " +:+ pretty b +:+ acc) ")" t
  end.

(** [SudokuSolver.verifyInput] on a list of lists of scalars: the outcome,
    and the caller's array as the method leaves it. *)
Definition verifyInput (input_material : list (list pyobj))
  : result (list (list Z)) * list (list pyobj) :=
  let shape := np_shape input_material in
  let n := size SudokuSolver_config in
  if bool_decide (shape ≠ [n; n]) then
    (Raise (ValueError
              ("the shape of the input material to a "
               +:+ pretty n +:+ "x" +:+ pretty n
               +:+ " sudoku should be " +:+ pretty_tuple [n; n]
               +:+ ", not " +:+ pretty_tuple shape)),
     input_material)
  else verifyInput_rows input_material.

(** The clues of the input material in the order in which [__init__] visits
    them. *)
Definition clues (input_material : list (list Z)) : list (Z * Z * Z) :=
  '(y, row) ← enumerate input_material;
  '(x, number) ← enumerate row;
  [(y, x, number)].

(** The loop of [__init__] that fills the initial sudoku. *)
Definition place_clues (input_material : list (list Z)) (s : Sudoku)
  : result Sudoku :=
  for_each (clues input_material) (λ '(y, x, number) s,
    if bool_decide (number ∉ [1; 2; 3; 4; 5; 6; 7; 8; 9]) then Ok s
    else
      ok ← canPlace s y x number;
      if ok : bool then place s y x number
      else
        Raise (AttributeError
                 [ArgStr "the laws of sudokus does not recognize this input material as valid!";
                  ArgMaterial input_material])) s.

(** What [SudokuSolver(...)] is given. *)
Inductive input :=
| InSudoku (s : Sudoku)
| InMaterial (m : list (list pyobj)).

(** [SudokuSolver.__init__]: the outcome, and the caller's object as the
    constructor leaves it. *)
Definition SudokuSolver_init (input_material : input)
  : result SudokuSolver * input :=
  match input_material with
  | InSudoku s => (Ok (SudokuSolver_of s), InSudoku s)
  | InMaterial m =>
    match verifyInput m with
    | (Ok ints, m') =>
      (s ← place_clues ints (Sudoku_init SudokuSolver_config);
       Ok (SudokuSolver_of s), InMaterial m')
    | (Raise e, m') => (Raise e, InMaterial m')
    | (OutOfFuel, m') => (OutOfFuel, InMaterial m')
    end
  end.

Definition main_material : list (list Z) :=
  [[0;0;0;0;4;3;0;0;2];
   [0;5;0;0;0;0;0;0;0];
   [7;0;4;6;0;0;1;0;0];
   [0;8;0;9;0;0;0;0;0];
   [0;6;0;0;0;0;5;0;0];
   [9;0;5;0;2;0;0;0;1];
   [8;0;0;0;0;0;0;0;0];
   [0;0;0;0;6;0;0;7;0];
   [1;0;9;7;0;0;4;0;0]].


(** * Vocabulary of the specification *)

(** The word of a cell. *)
Definition cell (m : matrix) (r c : Z) : Z :=
  (m !!! Z.to_nat r) !!! Z.to_nat c.

Definition square (n : Z) (m : matrix) : Prop :=
  length m = Z.to_nat n ∧ Forall (λ row, length row = Z.to_nat n) m.

(** Two cells are peers when they share a row, a column or a block of side
    [ps]; a cell is a peer of itself. *)
Definition peer (ps y x r c : Z) : Prop :=
  r = y ∨ c = x ∨ (r `div` ps = y `div` ps ∧ c `div` ps = x `div` ps).

Global Instance peer_dec ps y x r c : Decision (peer ps y x r c).
Proof. unfold peer. apply _. Defined.

(** What the matrix of the cell [(y, x)] and the number [number] holds: the
    stored bitmask of the number at the peers of the cell, zero elsewhere. *)
Definition is_mask (n ps y x number : Z) (M : matrix) : Prop :=
  square n M
  ∧ ∀ r c, 0 ≤ r < n → 0 ≤ c < n →
      cell M r c = if decide (peer ps y x r c) then uint16 (1 ≪ number)
                   else 0.

Definition masks_at (t : list (list (list (option matrix)))) (y x n : Z)
  : option (option matrix) :=
  plane ← t !! Z.to_nat y; line ← plane !! Z.to_nat x; line !! Z.to_nat n.

(** The entries of the table are there, and those of the set [F] hold the
    matrix of their cell and number. *)
Definition filled (n ps : Z) (F : Z → Z → Z → Prop)
    (t : list (list (list (option matrix)))) : Prop :=
  ∀ y x number, 0 ≤ y ≤ n → 0 ≤ x ≤ n → 0 ≤ number ≤ n →
    ∃ e, masks_at t y x number = Some e
         ∧ (F y x number → ∃ M, e = Some M ∧ is_mask n ps y x number M).

(** [size] is the square of a natural number. *)
Definition perfect_square (size : Z) : Prop :=
  0 ≤ size ∧ Z.sqrt size * Z.sqrt size = size.

(** The arguments that [validateParameters] lets pass. *)
Definition valid_parameters (size : Z) (partition_size : option Z) : Prop :=
  size ≤ 100 ∧ perfect_square size
  ∧ (partition_size = None ∨ partition_size = Some (Z.sqrt size)).

(** What holds of a configuration that was built. *)
Record built_for (n : Z) (cfg : Configuration) : Prop := {
  built_size : size cfg = n;
  built_size_range : 0 ≤ n ≤ 49;
  built_partition : partition_size cfg * partition_size cfg = n;
  built_partition_nonneg : 0 ≤ partition_size cfg;
  built_bitmasks : number_to_bitmask cfg = (λ i, 1 ≪ i) <$> range 0 (n + 1);
  built_free_bit : cell_free_bit cfg = 1;
  built_empty : empty_matrix cfg = zeros n n;
  built_masks :
    ∀ y x number, 0 ≤ y < n → 0 ≤ x < n → 1 ≤ number ≤ n →
      ∃ M, masks_get (availability_masks cfg) y x number = Ok (Some M)
           ∧ is_mask n (partition_size cfg) y x number M
}.

(** Bit [i] of the word of a cell. *)
Definition bit (m : matrix) (r c i : Z) : bool := Z.testbit (cell m r c) i.

(** A sudoku of a configuration that was built for the size [n], with its two
    arrays of that size. *)
Record well_shaped (n : Z) (s : Sudoku) : Prop := {
  ws_config : built_for n (config s);
  ws_board : square n (placability_board s);
  ws_displayable : square n (displayable s)
}.

(** The cells of a grid of side [n], in row-major order. *)
Definition all_cells (n : Z) : list (Z * Z) :=
  y ← range 0 n; x ← range 0 n; [(y, x)].

(** The cells of the displayed grid that hold a number. *)
Definition filled_cells (n : Z) (m : matrix) : list (Z * Z) :=
  filter (λ yx, cell m yx.1 yx.2 ≠ 0) (all_cells n).

(** The invariant of a sudoku that is reached by legal placements: the words
    of the board say what the displayed grid holds, and no number is twice in
    a row, a column or a block. *)
Record consistent (n : Z) (s : Sudoku) : Prop := {
  cons_shaped : well_shaped n s;
  cons_small : n < 16;
  cons_free :
    ∀ r c, 0 ≤ r < n → 0 ≤ c < n →
      bit (placability_board s) r c 0 = true ↔ cell (displayable s) r c = 0;
  cons_values :
    ∀ r c, 0 ≤ r < n → 0 ≤ c < n → 0 ≤ cell (displayable s) r c ≤ n;
  cons_avail :
    ∀ r c v, 0 ≤ r < n → 0 ≤ c < n → 1 ≤ v ≤ n →
      bit (placability_board s) r c v = true
      ↔ ∀ r' c', 0 ≤ r' < n → 0 ≤ c' < n →
          peer (partition_size (config s)) r c r' c' →
          cell (displayable s) r' c' ≠ v;
  cons_valid :
    ∀ r c r' c', 0 ≤ r < n → 0 ≤ c < n → 0 ≤ r' < n → 0 ≤ c' < n →
      peer (partition_size (config s)) r c r' c' → (r, c) ≠ (r', c') →
      cell (displayable s) r c ≠ 0 →
      cell (displayable s) r c ≠ cell (displayable s) r' c';
  cons_count :
    placed_numbers s = Z.of_nat (length (filled_cells n (displayable s)))
}.

(** The cells of a row, of a column and of a block. *)
Definition row_cells (n r : Z) : list (Z * Z) :=
  (λ c, (r, c)) <$> range 0 n.

Definition column_cells (n c : Z) : list (Z * Z) :=
  (λ r, (r, c)) <$> range 0 n.

Definition block_cells (ps block_r block_c : Z) : list (Z * Z) :=
  r ← range (block_r * ps) (block_r * ps + ps);
  c ← range (block_c * ps) (block_c * ps + ps);
  [(r, c)].

(** The rows, the columns and the blocks of a grid of side [n] with blocks of
    side [ps]. *)
Definition units (n ps : Z) : list (list (Z * Z)) :=
  (row_cells n <$> range 0 n) ++ (column_cells n <$> range 0 n)
  ++ (block_r ← range 0 ps; block_c ← range 0 ps;
      [block_cells ps block_r block_c]).

(** How often the grid shows the value [v] in the cells [u]. *)
Definition occurrences (m : matrix) (u : list (Z * Z)) (v : Z) : nat :=
  length (filter (λ yx, cell m yx.1 yx.2 = v) u).

(** A solved grid: it is fully filled with values of [1..n], and every row,
    every column and every block contains each value of [1..n] exactly
    once. *)
Definition solution (n ps : Z) (m : matrix) : Prop :=
  square n m
  ∧ (∀ r c, 0 ≤ r < n → 0 ≤ c < n → 1 ≤ cell m r c ≤ n)
  ∧ ∀ u, u ∈ units n ps → ∀ v, 1 ≤ v ≤ n → occurrences m u v = 1%nat.

(** A guess that is either the placeholder or a placement that [canPlace]
    accepts on the sudoku [s]. *)
Definition sound_guess (n : Z) (s : Sudoku) (g : guess) : Prop :=
  match g with
  | None => True
  | Some (y, x, v) =>
    0 ≤ y < n ∧ 0 ≤ x < n ∧ 1 ≤ v ≤ n ∧ canPlace s y x v = Ok true
  end.

(** The cell [(y, x)] of the sudoku is free and no number can be placed on
    it. *)
Definition no_candidate (n : Z) (s : Sudoku) (y x : Z) : Prop :=
  bit (placability_board s) y x 0 = true
  ∧ ∀ v, 1 ≤ v ≤ n → bit (placability_board s) y x v = false.

(** The cell [(y, x)] takes no number: [canPlace] fails for each. *)
Definition dead (s : Sudoku) (y x : Z) : Prop :=
  ∀ v : Z, 1 ≤ v ≤ 9 →
    bit (placability_board s) y x v && bit (placability_board s) y x 0 = false.

(** The inputs for which the solver is specified: every 2-d array, and the
    sudoku objects that are consistent. *)
Definition input_ok (i : input) : Prop :=
  match i with
  | InMaterial _ => True
  | InSudoku s => consistent 9 s
  end.

(** The checks of [solution] over the lists of the cells, of the units and
    of the values, which can be decided by evaluation. *)
Definition solution_check (n ps : Z) (m : matrix) : Prop :=
  (length m = Z.to_nat n ∧ Forall (λ row, length row = Z.to_nat n) m)
  ∧ Forall (λ yx, 1 ≤ cell m yx.1 yx.2 ≤ n) (all_cells n)
  ∧ Forall (λ u, Forall (λ v, occurrences m u v = 1%nat) (seqZ 1 n))
      (units n ps).

Global Instance solution_check_dec n ps m : Decision (solution_check n ps m).
Proof. unfold solution_check. apply _. Defined.

(** The table entry a mask would need to be "the free bit of the cell itself
    and the bit of the value at every peer": bit 0 is the free bit, bit [v]
    the bit of the value [v]. *)
Definition mask_with_free_bit (n ps y x v : Z) (M : matrix) : Prop :=
  ∀ r c i, 0 ≤ r < n → 0 ≤ c < n → 0 ≤ i →
    Z.testbit (cell M r c) i = true
    ↔ (r = y ∧ c = x ∧ i = 0) ∨ (peer ps y x r c ∧ i = v).

(** A word all of whose set bits are set in another word. *)
Definition subword (a b : Z) : Prop := Z.land a b = a.

(** What an exception carries: the arguments of an explicit [raise], the
    message of the others. *)
Definition exception_args (e : Exception) : list exc_arg :=
  match e with
  | AttributeError args => args
  | TypeError msg | ValueError msg => [ArgStr msg]
  | IndexError | OverflowError => []
  end.

(** The exception names the cell [(y, x)]. *)
Definition names_cell (e : Exception) (y x : Z) : Prop :=
  ArgCell y x ∈ exception_args e.

(** The number of a clue is one of those that [__init__] places. *)
Definition is_clue (number : Z) : Prop :=
  number ∈ [1; 2; 3; 4; 5; 6; 7; 8; 9].

(** The sudokus that are reached from a sudoku by the clues of a list, each
    clue applied by [place] after [canPlace] accepted it, the other entries
    skipped. *)
Inductive clue_steps : Sudoku → list (Z * Z * Z) → Sudoku → Prop :=
| clue_steps_nil (s : Sudoku) : clue_steps s [] s
| clue_steps_skip (s s' : Sudoku) (y x number : Z) (l : list (Z * Z * Z)) :
    ¬ is_clue number → clue_steps s l s' →
    clue_steps s ((y, x, number) :: l) s'
| clue_steps_place (s s1 s' : Sudoku) (y x number : Z)
    (l : list (Z * Z * Z)) :
    is_clue number → canPlace s y x number = Ok true →
    place s y x number = Ok s1 → clue_steps s1 l s' →
    clue_steps s ((y, x, number) :: l) s'.

(** The construction from the material [m] fails at the first clue that
    [canPlace] turns down with an exception that names the cell of this
    clue. *)
Definition error_names_offending_cell (m : list (list pyobj)) : Prop :=
  ∀ ints m' pre y x number post s1,
    verifyInput m = (Ok ints, m') →
    clues ints = pre ++ (y, x, number) :: post →
    clue_steps (Sudoku_init SudokuSolver_config) pre s1 →
    is_clue number → canPlace s1 y x number = Ok false →
    ∃ e, (SudokuSolver_init (InMaterial m)).1 = Raise e ∧ names_cell e y x.

(** A grid with the clue 5 in the first two cells of the first row. *)
Definition two_fives : list (list Z) :=
  [[5;5;0;0;0;0;0;0;0];
   [0;0;0;0;0;0;0;0;0];
   [0;0;0;0;0;0;0;0;0];
   [0;0;0;0;0;0;0;0;0];
   [0;0;0;0;0;0;0;0;0];
   [0;0;0;0;0;0;0;0;0];
   [0;0;0;0;0;0;0;0;0];
   [0;0;0;0;0;0;0;0;0];
   [0;0;0;0;0;0;0;0;0]].

(** The 2-d array of Python integers of a grid. *)
Definition material_of (grid : list (list Z)) : list (list pyobj) :=
  fmap (M:=list) (fmap (M:=list) PyInt) grid.

(** The value of a result, or a default. *)
Definition result_value {A : Type} (d : A) (r : result A) : A :=
  match r with
  | Ok a => a
  | _ => d
  end.

(** The solver of the puzzle of the entry point, and the board that [solve]
    returns for it. *)
Definition main_solver : SudokuSolver :=
  result_value (SudokuSolver_of (Sudoku_init SudokuSolver_config))
    (SudokuSolver_init (InMaterial (material_of main_material))).1.

Definition main_board : Sudoku :=
  match solve 82 main_solver with
  | Ok (Solved b) => b
  | _ => Sudoku_init SudokuSolver_config
  end.

(** The solution of the puzzle of the entry point. *)
Definition main_solution : list (list Z) :=
  [[6;1;8;5;4;3;7;9;2];
   [3;5;2;1;7;9;8;6;4];
   [7;9;4;6;8;2;1;3;5];
   [4;8;1;9;5;6;3;2;7];
   [2;6;7;3;1;4;5;8;9];
   [9;3;5;8;2;7;6;4;1];
   [8;7;6;4;9;5;2;1;3];
   [5;4;3;2;6;1;9;7;8];
   [1;2;9;7;3;8;4;5;6]].

(** A grid whose clues do not conflict and leave no number for the last
    cell of the first row. *)
Definition dead_end : list (list Z) :=
  [[1;2;3;4;5;6;7;8;0];
   [0;0;0;0;0;0;0;0;9];
   [0;0;0;0;0;0;0;0;0];
   [0;0;0;0;0;0;0;0;0];
   [0;0;0;0;0;0;0;0;0];
   [0;0;0;0;0;0;0;0;0];
   [0;0;0;0;0;0;0;0;0];
   [0;0;0;0;0;0;0;0;0];
   [0;0;0;0;0;0;0;0;0]].

Definition dead_end_solver : SudokuSolver :=
  result_value (SudokuSolver_of (Sudoku_init SudokuSolver_config))
    (SudokuSolver_init (InMaterial (material_of dead_end))).1.

(** The empty grid. *)
Definition empty_solver : SudokuSolver :=
  result_value (SudokuSolver_of (Sudoku_init SudokuSolver_config))
    (SudokuSolver_init (InMaterial (material_of (zeros 9 9)))).1.

(** The mask of a cell and a value in the table of a configuration, when it
    is there. *)
Definition mask_of (cfg : Configuration) (y x v : Z) : matrix :=
  result_value []
    (m ← masks_get (availability_masks cfg) y x v; Ok (default [] m)).

(** What the sudoku displays for an entry of the input material. *)
Definition shown (v : Z) : Z := if decide (is_clue v) then v else 0.

(** No clue of the grid is repeated in its row, its column or its block. *)
Definition no_conflict (ints : matrix) : Prop :=
  ∀ r c r' c', 0 ≤ r < 9 → 0 ≤ c < 9 → 0 ≤ r' < 9 → 0 ≤ c' < 9 →
    peer 3 r c r' c' → (r, c) ≠ (r', c') → is_clue (cell ints r c) →
    cell ints r c ≠ cell ints r' c'.

(** The grid [m'] shows every number that the grid [m] shows. *)
Definition extends (m m' : matrix) : Prop :=
  ∀ r c, 0 ≤ r < 9 → 0 ≤ c < 9 → cell m r c ≠ 0 → cell m' r c = cell m r c.

Global Instance exc_arg_eq_dec : EqDecision exc_arg.
Proof. solve_decision. Defined.

Global Instance Exception_eq_dec : EqDecision Exception.
Proof. solve_decision. Defined.

Global Instance result_eq_dec {A : Type} `{EqDecision A} :
  EqDecision (result A).
Proof. solve_decision. Defined.

(** The cell [(y, x)] of the sudoku has its free bit set. *)
Definition free (s : Sudoku) (y x : Z) : Prop :=
  bit (placability_board s) y x 0 = true.

(** The numbers that [canPlace] accepts on the cell [(y, x)], in rising
    order, and the guesses that [considerEachCell] makes of them. *)
Definition candidates (s : Sudoku) (y x : Z) : list Z :=
  filter (λ v, canPlace s y x v = Ok true) (range 1 10).

Definition guesses_of (s : Sudoku) (y x : Z) : list guess :=
  (λ v, Some (y, x, v)) <$> candidates s y x.

(** What a pass of [considerEachCell] over the cells [cells] that places
    nothing and returns True has established, [best0] being the guesses
    before the pass and [best] those after it. *)
Definition scanned (cells : list (Z * Z)) (s : Sudoku)
    (best0 best : list guess) : Prop :=
  (∀ y x, (y, x) ∈ cells →
     (2 ≤ length (candidates s y x))%nat
     ∧ (length best ≤ length (candidates s y x))%nat)
  ∧ (length best ≤ length best0)%nat
  ∧ (best = best0
     ∨ ∃ y x, (y, x) ∈ cells ∧ best = guesses_of s y x
              ∧ (length best < length best0)%nat).

(** The state in which [placeTrivials] returns True: every free cell takes
    at least two numbers, and the guesses are those of a free cell that takes
    the fewest numbers, or the nine placeholders when every free cell takes
    all nine. *)
Definition settled (s : Sudoku) (best : list guess) : Prop :=
  (∀ y x, 0 ≤ y < 9 → 0 ≤ x < 9 → free s y x →
     (2 ≤ length (candidates s y x))%nat
     ∧ (length best ≤ length (candidates s y x))%nat)
  ∧ (length best ≤ 9)%nat
  ∧ (best = replicate 9 None
     ∨ ∃ y x, 0 ≤ y < 9 ∧ 0 ≤ x < 9 ∧ free s y x ∧ best = guesses_of s y x
              ∧ (length best < 9)%nat).

(** Every free cell of a sudoku with the property [Inv] takes a number. *)
Definition live (Inv : Sudoku → Prop) : Prop :=
  ∀ s y x, Inv s → 0 ≤ y < 9 → 0 ≤ x < 9 → free s y x →
    candidates s y x ≠ [].

(** The sudoku [s] is consistent and the grid [grid] shows every number
    that [s] shows. *)
Definition completes (grid : matrix) (s : Sudoku) : Prop :=
  consistent 9 s ∧ extends (displayable s) grid.

(** The solver of the example puzzle after [placeTrivials]. *)
Definition main_propagated : SudokuSolver :=
  (result_value (true, main_solver) (placeTrivials 82 main_solver)).2.

(** Material of the right shape whose entry at row 1, column 2 is a text
    that [int] does not read. *)
Definition bad_entry : pyobj :=
  PyInconvertible "x"
    (ValueError "invalid literal for int() with base 10: 'x'").

Definition bad_material_before : list (list pyobj) :=
  [replicate 9 (PyConvertible "0.0" 0)].

Definition bad_material_pre : list pyobj := [PyInt 1; PyConvertible "2.5" 2].

Definition bad_material_post : list pyobj := replicate 6 (PyConvertible "7" 7).

Definition bad_material_after : list (list pyobj) :=
  replicate 7 (replicate 9 (PyConvertible "3" 3)).

(** The 4x4 board of the specification: it is complete, and every row,
    column and 2x2 block holds each of 1..4 once. *)
Definition solved_4x4 : list (list Z) :=
  [[1;2;3;4];
   [3;4;1;2];
   [2;1;4;3];
   [4;3;2;1]].

(** What the specification says of a solved board [grid] that is given to
    the solver: the solver is made of it, and [solve] returns success with a
    board that shows the grid as it was given. *)
Definition returned_unchanged (grid : matrix) : Prop :=
  ∃ solver fuel b,
    (SudokuSolver_init (InMaterial (material_of grid))).1 = Ok solver
    ∧ solve fuel solver = Ok (Solved b)
    ∧ displayable b = grid.

(** * Properties of the embedding *)

(** ** The result monad and the loops *)

Lemma bind_Ok {A B : Type} (r : result A) (k : A → result B) (b : B) :
  r ≫= k = Ok b → ∃ a, r = Ok a ∧ k a = Ok b.
Proof. destruct r as [a| |]; simpl; [eauto | done | done]. Qed.

(** Splits a hypothesis [x ← r; k = Ok b] into its two steps. *)
Ltac inv_bind H :=
  let a := fresh "a" in
  let Ha := fresh "H" a in
  apply bind_Ok in H; destruct H as (a & Ha & H).

(** The rule of a [for] loop none of whose steps raises: an invariant of the
    visited prefix. *)
Lemma for_each_total {A S : Type} (I : list A → S → Prop)
    (l : list A) (body : A → S → result S) (s0 : S) :
  I [] s0 →
  (∀ pre a post s, l = pre ++ a :: post → I pre s →
     ∃ s', body a s = Ok s' ∧ I (pre ++ [a]) s') →
  ∃ s, for_each l body s0 = Ok s ∧ I l s.
Proof.
  revert I s0. induction l as [|a l IH]; intros I s0 H0 Hstep.
  - exists s0. done.
  - destruct (Hstep [] a l s0 eq_refl H0) as (s' & Hb & Hs'). simpl in Hs'.
    destruct (IH (λ pre s, I (a :: pre) s) s') as (s & Hs & HI).
    + done.
    + intros pre b post s -> HI. apply (Hstep (a :: pre) b post s); done.
    + exists s. simpl. rewrite Hb. done.
Qed.

(** The rule of a [for] loop for what holds if it ends without raising. *)
Lemma for_each_partial {A S : Type} (I : list A → S → Prop)
    (l : list A) (body : A → S → result S) (s0 s : S) :
  I [] s0 →
  (∀ pre a post s s', l = pre ++ a :: post → I pre s →
     body a s = Ok s' → I (pre ++ [a]) s') →
  for_each l body s0 = Ok s → I l s.
Proof.
  revert I s0. induction l as [|a l IH]; intros I s0 H0 Hstep Hrun.
  - simpl in Hrun. congruence.
  - simpl in Hrun. inv_bind Hrun.
    apply (IH (λ pre s, I (a :: pre) s) a0); [| |done].
    + apply (Hstep [] a l s0 a0); done.
    + intros pre b post t t' -> HI Hb.
      apply (Hstep (a :: pre) b post t t'); done.
Qed.

(** ** Lists and arrays *)

Section python_lists.
Context {A : Type}.
Implicit Types l : list A.

Lemma norm_index_nonneg (len : nat) (i : Z) :
  0 ≤ i < Z.of_nat len → norm_index len i = Some (Z.to_nat i).
Proof.
  intros Hi. unfold norm_index.
  rewrite (bool_decide_eq_false_2 (i < 0)) by lia.
  rewrite bool_decide_eq_true_2 by lia. done.
Qed.

Lemma getitem_lookup l (i : Z) (a : A) :
  0 ≤ i → l !! Z.to_nat i = Some a → getitem l i = Ok a.
Proof.
  intros Hi Hl. unfold getitem.
  rewrite norm_index_nonneg; [simpl; by rewrite Hl|].
  apply lookup_lt_Some in Hl. lia.
Qed.

Lemma setitem_ok l (i : Z) (a : A) :
  0 ≤ i < Z.of_nat (length l) →
  setitem l i a = Ok (<[Z.to_nat i := a]> l).
Proof. intros Hi. unfold setitem. by rewrite norm_index_nonneg. Qed.
End python_lists.

Lemma elem_of_range (a b i : Z) : i ∈ range a b ↔ a ≤ i < b.
Proof. unfold range. rewrite elem_of_seqZ. lia. Qed.

Lemma lookup_range (a b : Z) (i : nat) :
  Z.of_nat i < b - a → range a b !! i = Some (a + Z.of_nat i).
Proof. intros Hi. unfold range. by apply lookup_seqZ_lt. Qed.

Lemma square_lookup (n : Z) (m : matrix) (r c : Z) :
  square n m → 0 ≤ r < n → 0 ≤ c < n →
  ∃ row, m !! Z.to_nat r = Some row ∧ length row = Z.to_nat n
         ∧ row !! Z.to_nat c = Some (cell m r c).
Proof.
  intros [Hlen Hrows] Hr Hc.
  destruct (lookup_lt_is_Some_2 m (Z.to_nat r)) as [row Hrow]; [lia|].
  assert (Hl : length row = Z.to_nat n).
  { eapply (Forall_lookup_1 _ _ _ _ Hrows Hrow). }
  destruct (lookup_lt_is_Some_2 row (Z.to_nat c)) as [w Hw]; [lia|].
  exists row. split_and!; [done..|].
  unfold cell. rewrite (list_lookup_total_correct _ _ _ Hrow).
  by rewrite (list_lookup_total_correct _ _ _ Hw).
Qed.

Lemma cell_lookup (m : matrix) (r c : Z) (row : list Z) (w : Z) :
  m !! Z.to_nat r = Some row → row !! Z.to_nat c = Some w → cell m r c = w.
Proof.
  intros Hrow Hw. unfold cell.
  rewrite (list_lookup_total_correct _ _ _ Hrow).
  by rewrite (list_lookup_total_correct _ _ _ Hw).
Qed.

(** Two square arrays with the same cells are the same array. *)
Lemma square_ext (n : Z) (a b : matrix) :
  square n a → square n b →
  (∀ r c, 0 ≤ r < n → 0 ≤ c < n → cell a r c = cell b r c) → a = b.
Proof.
  intros Ha Hb Hcells. apply list_eq. intros i.
  destruct (decide (i < Z.to_nat n)%nat) as [Hi|Hi].
  - destruct (square_lookup n a (Z.of_nat i) 0 Ha) as (ra & Hra & Hla & _);
      [lia..| |].
    { destruct (decide (0 < n)); lia. }
    destruct (square_lookup n b (Z.of_nat i) 0 Hb) as (rb & Hrb & Hlb & _);
      [lia..|].
    rewrite Nat2Z.id in Hra, Hrb. rewrite Hra, Hrb. f_equal.
    apply list_eq. intros j.
    destruct (decide (j < Z.to_nat n)%nat) as [Hj|Hj].
    + destruct (lookup_lt_is_Some_2 ra j) as [wa Hwa]; [lia|].
      destruct (lookup_lt_is_Some_2 rb j) as [wb Hwb]; [lia|].
      rewrite Hwa, Hwb. f_equal.
      specialize (Hcells (Z.of_nat i) (Z.of_nat j)).
      rewrite (cell_lookup a _ _ ra wa), (cell_lookup b _ _ rb wb) in Hcells;
        rewrite ?Nat2Z.id; try done.
      apply Hcells; lia.
    + rewrite !lookup_ge_None_2; [done|lia..].
  - destruct Ha as [Ha _], Hb as [Hb _].
    rewrite !lookup_ge_None_2; [done|lia..].
Qed.

Lemma getitem2_ok (n : Z) (m : matrix) (y x : Z) :
  square n m → 0 ≤ y < n → 0 ≤ x < n → getitem2 m y x = Ok (cell m y x).
Proof.
  intros Hm Hy Hx.
  destruct (square_lookup n m y x Hm Hy Hx) as (row & Hrow & Hl & Hw).
  unfold getitem2. rewrite (getitem_lookup m y row) by (done || lia).
  simpl. apply getitem_lookup; [lia|done].
Qed.

Lemma setitem2_ok (n : Z) (m : matrix) (y x v : Z) :
  square n m → 0 ≤ y < n → 0 ≤ x < n →
  ∃ m', setitem2 m y x v = Ok m' ∧ square n m'
        ∧ ∀ r c, 0 ≤ r < n → 0 ≤ c < n →
            cell m' r c = if bool_decide (r = y ∧ c = x) then v
                          else cell m r c.
Proof.
  intros Hm Hy Hx.
  destruct (square_lookup n m y x Hm Hy Hx) as (row & Hrow & Hl & Hw).
  unfold setitem2. rewrite (getitem_lookup m y row) by (done || lia).
  simpl. rewrite setitem_ok by lia. simpl.
  destruct Hm as [Hlen Hrows].
  rewrite setitem_ok by lia.
  eexists. split; [done|]. split.
  - split; [by rewrite length_insert|].
    apply Forall_insert; [done|]. by rewrite length_insert.
  - intros r c Hr Hc.
    destruct (square_lookup n m r c (conj Hlen Hrows) Hr Hc)
      as (row' & Hrow' & Hl' & Hw').
    case_bool_decide as Hyx.
    + destruct Hyx as [-> ->].
      apply (cell_lookup _ _ _ (<[Z.to_nat x:=v]> row)).
      * apply list_lookup_insert_eq. lia.
      * apply list_lookup_insert_eq. lia.
    + destruct (decide (r = y)) as [->|Hne].
      * apply (cell_lookup _ _ _ (<[Z.to_nat x:=v]> row)).
        { apply list_lookup_insert_eq. lia. }
        rewrite list_lookup_insert_ne by (intros ?; apply Hyx; split; lia).
        congruence.
      * apply (cell_lookup _ _ _ row'); [|done].
        rewrite list_lookup_insert_ne by lia. done.
Qed.

Lemma square_zeros (n : Z) : square n (zeros n n).
Proof.
  split; [apply length_replicate|].
  apply Forall_replicate. apply length_replicate.
Qed.

Lemma cell_zeros (n r c : Z) :
  0 ≤ r < n → 0 ≤ c < n → cell (zeros n n) r c = 0.
Proof.
  intros Hr Hc. apply (cell_lookup _ _ _ (replicate (Z.to_nat n) 0)).
  - apply lookup_replicate_2. lia.
  - apply lookup_replicate_2. lia.
Qed.

Lemma matrix_assign_ok (n : Z) (sel : Z → Z → bool) (v : Z) (m : matrix) :
  square n m → - 2 ^ 63 ≤ v < 2 ^ 63 →
  ∃ m', matrix_assign sel v m = Ok m' ∧ square n m'
        ∧ ∀ r c, 0 ≤ r < n → 0 ≤ c < n →
            cell m' r c = if sel r c then uint16 v else cell m r c.
Proof.
  intros Hm Hv. unfold matrix_assign, uint16_of_pyint.
  rewrite bool_decide_eq_true_2 by done. simpl.
  eexists. split; [done|]. split.
  - destruct Hm as [Hlen Hrows]. split; [by rewrite length_imap|].
    apply Forall_lookup. intros i row. rewrite list_lookup_imap.
    destruct (m !! i) as [row0|] eqn:Hi; simpl; [|done].
    intros [= <-]. rewrite length_imap.
    eapply (Forall_lookup_1 _ _ _ _ Hrows Hi).
  - intros r c Hr Hc.
    destruct (square_lookup n m r c Hm Hr Hc) as (row & Hrow & Hl & Hw).
    eapply cell_lookup.
    + rewrite list_lookup_imap, Hrow. done.
    + rewrite list_lookup_imap, Hw. simpl.
      rewrite !Z2Nat.id by lia. done.
Qed.

Lemma matrix_zip_ok (n : Z) (f : Z → Z → Z) (a b : matrix) :
  square n a → square n b →
  square n (matrix_zip f a b)
  ∧ ∀ r c, 0 ≤ r < n → 0 ≤ c < n →
      cell (matrix_zip f a b) r c = f (cell a r c) (cell b r c).
Proof.
  intros Ha Hb. unfold matrix_zip. split.
  - destruct Ha as [Hla Hra], Hb as [Hlb Hrb]. split.
    + rewrite length_zip_with. lia.
    + apply Forall_lookup. intros i row. rewrite lookup_zip_with.
      destruct (a !! i) as [ra|] eqn:Hia; simpl; [|done].
      destruct (b !! i) as [rb|] eqn:Hib; simpl; [|done].
      intros [= <-]. rewrite length_zip_with.
      pose proof (Forall_lookup_1 _ _ _ _ Hra Hia) as H1.
      pose proof (Forall_lookup_1 _ _ _ _ Hrb Hib) as H2.
      simpl in H1, H2. lia.
  - intros r c Hr Hc.
    destruct (square_lookup n a r c Ha Hr Hc) as (ra & Hra & _ & Hwa).
    destruct (square_lookup n b r c Hb Hr Hc) as (rb & Hrb & _ & Hwb).
    eapply cell_lookup.
    + rewrite lookup_zip_with, Hra, Hrb. done.
    + rewrite lookup_zip_with, Hwa, Hwb. done.
Qed.

Lemma matrix_map_ok (n : Z) (f : Z → Z) (a : matrix) :
  square n a →
  square n (matrix_map f a)
  ∧ ∀ r c, 0 ≤ r < n → 0 ≤ c < n →
      cell (matrix_map f a) r c = f (cell a r c).
Proof.
  intros Ha. unfold matrix_map. split.
  - destruct Ha as [Hla Hra]. split; [by rewrite length_fmap|].
    apply Forall_fmap. eapply Forall_impl; [exact Hra|].
    intros row Hrow. simpl. by rewrite length_fmap.
  - intros r c Hr Hc.
    destruct (square_lookup n a r c Ha Hr Hc) as (ra & Hra & _ & Hwa).
    eapply cell_lookup.
    + rewrite list_lookup_fmap, Hra. done.
    + rewrite list_lookup_fmap, Hwa. done.
Qed.

(** ** The tables of a configuration *)

Lemma peer_refl ps y x : peer ps y x y x.
Proof. by left. Qed.

Lemma peer_sym ps y x r c : peer ps y x r c → peer ps r c y x.
Proof.
  intros [->|[->|[Hr Hc]]]; unfold peer; [by left|by right; left|].
  right. right. by rewrite Hr, Hc.
Qed.

(** The slice [p:p+ps] that starts at the block of [y] selects the indices of
    that block. *)
Lemma block_slice (ps y r : Z) :
  0 < ps →
  (y `div` ps * ps ≤ r < y `div` ps * ps + ps) ↔ r `div` ps = y `div` ps.
Proof.
  intros Hps. split.
  - intros Hr. symmetry. apply (Z.div_unique r ps _ (r - y `div` ps * ps)); lia.
  - intros <-. pose proof (Z.mul_div_le r ps Hps).
    pose proof (Z.mul_succ_div_gt r ps Hps). lia.
Qed.

Lemma masks_get_at t (y x n : Z) (e : option matrix) :
  0 ≤ y → 0 ≤ x → 0 ≤ n →
  masks_at t y x n = Some e → masks_get t y x n = Ok e.
Proof.
  intros Hy Hx Hn. unfold masks_at, masks_get.
  destruct (t !! Z.to_nat y) as [plane|] eqn:Hp; simpl; [|done].
  destruct (plane !! Z.to_nat x) as [line|] eqn:Hl; simpl; [|done].
  intros He. rewrite (getitem_lookup t y plane) by done. simpl.
  rewrite (getitem_lookup plane x line) by done. simpl.
  by apply getitem_lookup.
Qed.

Lemma masks_set_at t (y x n : Z) (e : option matrix) (M : matrix) :
  0 ≤ y → 0 ≤ x → 0 ≤ n →
  masks_at t y x n = Some e →
  ∃ t', masks_set t y x n M = Ok t'
        ∧ ∀ y' x' n', 0 ≤ y' → 0 ≤ x' → 0 ≤ n' →
            masks_at t' y' x' n'
            = if decide (y' = y ∧ x' = x ∧ n' = n) then Some (Some M)
              else masks_at t y' x' n'.
Proof.
  intros Hy Hx Hn. unfold masks_at at 1, masks_set.
  destruct (t !! Z.to_nat y) as [plane|] eqn:Hp; simpl; [|done].
  destruct (plane !! Z.to_nat x) as [line|] eqn:Hl; simpl; [|done].
  intros He. rewrite (getitem_lookup t y plane) by done. simpl.
  rewrite (getitem_lookup plane x line) by done. simpl.
  pose proof (lookup_lt_Some _ _ _ Hp) as Hp'.
  pose proof (lookup_lt_Some _ _ _ Hl) as Hl'.
  pose proof (lookup_lt_Some _ _ _ He) as He'.
  repeat (rewrite setitem_ok by lia; simpl).
  eexists. split; [done|]. intros y' x' n' Hy' Hx' Hn'. unfold masks_at.
  destruct (decide (y' = y)) as [->|Hney].
  - rewrite list_lookup_insert_eq by lia. simpl.
    destruct (decide (x' = x)) as [->|Hnex].
    + rewrite list_lookup_insert_eq by lia. simpl.
      destruct (decide (n' = n)) as [->|Hnen].
      * rewrite list_lookup_insert_eq by lia. by rewrite decide_True.
      * rewrite list_lookup_insert_ne by lia.
        rewrite decide_False by (intros (? & ? & ?); congruence). by rewrite Hp; simpl; rewrite Hl.
    + rewrite list_lookup_insert_ne by lia.
      rewrite decide_False by (intros (? & ? & ?); congruence). by rewrite Hp.
  - rewrite list_lookup_insert_ne by lia.
    rewrite decide_False by (intros (? & ? & ?); congruence). done.
Qed.

Section tables.
Variables n ps : Z.
Hypothesis n_small : 0 ≤ n ≤ 62.
Hypothesis ps_pos : 0 < n → 0 < ps.

Let bitmasks : list Z := (λ i, 1 ≪ i) <$> range 0 (n + 1).

Lemma bitmasks_getitem (number : Z) :
  0 ≤ number ≤ n → getitem bitmasks number = Ok (1 ≪ number).
Proof.
  intros Hn. apply getitem_lookup; [lia|]. unfold bitmasks.
  rewrite list_lookup_fmap, lookup_range by lia. simpl.
  do 2 f_equal. lia.
Qed.

Lemma bitmask_fits (number : Z) :
  0 ≤ number ≤ n → - 2 ^ 63 ≤ 1 ≪ number < 2 ^ 63.
Proof.
  intros Hn. rewrite Z.shiftl_1_l. split.
  - pose proof (Z.pow_nonneg 2 number). lia.
  - apply Z.pow_lt_mono_r; lia.
Qed.

Lemma availability_mask_ok (y x number : Z) :
  0 ≤ y < n → 0 ≤ x < n → 1 ≤ number ≤ n →
  ∃ M, availability_mask n ps bitmasks (zeros n n) y x number = Ok M
       ∧ is_mask n ps y x number M.
Proof.
  intros Hy Hx Hnum. unfold availability_mask.
  rewrite bitmasks_getitem by lia. simpl.
  assert (Hfit := bitmask_fits number ltac:(lia)).
  destruct (matrix_assign_ok n (λ r _, bool_decide (r = y)) (1 ≪ number)
              (zeros n n) (square_zeros n) Hfit) as (M1 & -> & Hs1 & Hc1).
  simpl.
  destruct (matrix_assign_ok n (λ _ c, bool_decide (c = x)) (1 ≪ number)
              M1 Hs1 Hfit) as (M2 & -> & Hs2 & Hc2).
  simpl.
  match goal with |- ∃ M, matrix_assign ?sel _ _ = _ ∧ _ =>
    destruct (matrix_assign_ok n sel (1 ≪ number) M2 Hs2 Hfit)
      as (M3 & -> & Hs3 & Hc3)
  end.
  exists M3. split; [done|]. split; [done|].
  intros r c Hr Hc. rewrite Hc3, Hc2, Hc1, cell_zeros by done.
  assert (Hps : 0 < ps) by (apply ps_pos; lia).
  assert (HP : peer ps y x r c ↔
               r = y ∨ c = x
               ∨ (y `div` ps * ps ≤ r < y `div` ps * ps + ps
                  ∧ x `div` ps * ps ≤ c < x `div` ps * ps + ps)).
  { unfold peer. by rewrite !block_slice. }
  destruct (decide (peer ps y x r c)) as [P|P]; rewrite HP in P;
    repeat case_bool_decide; simpl. all: try done. all: try (exfalso; tauto).
Qed.
End tables.

Section fill.
Variables n ps : Z.
Hypothesis n_small : 0 ≤ n ≤ 62.
Hypothesis ps_pos : 0 < n → 0 < ps.

Lemma filled_initial :
  filled n ps (λ _ _ _, False)
    (replicate (Z.to_nat (n + 1))
       (replicate (Z.to_nat (n + 1)) (replicate (Z.to_nat (n + 1)) None))).
Proof.
  intros y x number Hy Hx Hn. exists None. split; [|done].
  unfold masks_at. rewrite lookup_replicate_2 by lia. simpl.
  rewrite lookup_replicate_2 by lia. simpl.
  apply lookup_replicate_2. lia.
Qed.

Lemma filled_weaken (F F' : Z → Z → Z → Prop) t :
  (∀ y x number, F' y x number → F y x number) →
  filled n ps F t → filled n ps F' t.
Proof.
  intros HF Ht y x number Hy Hx Hn.
  destruct (Ht y x number Hy Hx Hn) as (e & He & HM). eauto.
Qed.

Lemma filled_set (F : Z → Z → Z → Prop) t (y x number : Z) (M : matrix) :
  filled n ps F t → 0 ≤ y ≤ n → 0 ≤ x ≤ n → 0 ≤ number ≤ n →
  is_mask n ps y x number M →
  ∃ t', masks_set t y x number M = Ok t'
        ∧ filled n ps (λ y' x' n', F y' x' n' ∨ (y' = y ∧ x' = x ∧ n' = number))
            t'.
Proof.
  intros Ht Hy Hx Hn HM. destruct (Ht y x number Hy Hx Hn) as (e & He & _).
  destruct (masks_set_at t y x number e M) as (t' & Hset & Hat);
    [lia..|done|].
  exists t'. split; [done|]. intros y' x' n' Hy' Hx' Hn'.
  rewrite Hat by lia. destruct (decide _) as [(-> & -> & ->)|Hne].
  - exists (Some M). split; [done|]. eauto.
  - destruct (Ht y' x' n' Hy' Hx' Hn') as (e' & He' & HM').
    exists e'. split; [done|]. intros [HF|Heq]; [auto|done].
Qed.

(** A loop each of whose steps fills the entries [G a] fills the entries of
    all its steps. *)
Lemma filled_loop {A : Type} (G : A → Z → Z → Z → Prop) (l : list A)
    (body : A → list (list (list (option matrix)))
            → result (list (list (list (option matrix)))))
    (F : Z → Z → Z → Prop) t :
  filled n ps F t →
  (∀ a F' t', a ∈ l → filled n ps F' t' →
     ∃ t'', body a t' = Ok t''
            ∧ filled n ps (λ y x number, F' y x number ∨ G a y x number) t'') →
  ∃ t', for_each l body t = Ok t'
        ∧ filled n ps (λ y x number,
                    F y x number ∨ ∃ a, a ∈ l ∧ G a y x number) t'.
Proof.
  intros Ht Hbody.
  apply (for_each_total
           (λ pre t', filled n ps (λ y x number,
                        F y x number ∨ ∃ a, a ∈ pre ∧ G a y x number) t')).
  - eapply filled_weaken; [|exact Ht].
    intros y x number [HF|(a & Ha & _)]; [done|]. by apply elem_of_nil in Ha.
  - intros pre a post s -> Hs.
    edestruct (Hbody a) as (s' & Hs' & Hfill);
      [rewrite elem_of_app, elem_of_cons; auto|exact Hs|].
    exists s'. split; [done|]. eapply filled_weaken; [|exact Hfill].
    intros y x number [HF|(b & Hb & HG)]; [by left; left|].
    apply elem_of_app in Hb as [Hb|Hb]; [left; right; eauto|].
    apply list_elem_of_singleton in Hb as ->. by right.
Qed.

(** The three nested loops of [setParameters]. *)
Lemma fill_loops :
  ∃ t,
    for_each (range 0 n) (λ y masks,
      for_each (range 0 n) (λ x masks,
        for_each (range 1 (n + 1)) (λ number masks,
          matrix ← availability_mask n ps
                     ((λ i, 1 ≪ i) <$> range 0 (n + 1)) (zeros n n)
                     y x number;
          masks_set masks y x number matrix) masks) masks)
      (replicate (Z.to_nat (n + 1))
         (replicate (Z.to_nat (n + 1)) (replicate (Z.to_nat (n + 1)) None)))
    = Ok t
    ∧ ∀ y x number, 0 ≤ y < n → 0 ≤ x < n → 1 ≤ number ≤ n →
        ∃ M, masks_get t y x number = Ok (Some M)
             ∧ is_mask n ps y x number M.
Proof.
  edestruct (filled_loop
    (λ y y' x' n', y' = y ∧ x' ∈ range 0 n ∧ n' ∈ range 1 (n + 1)))
    as (t & Ht & Hfill); [apply filled_initial| |].
  2:{ exists t. split; [exact Ht|]. intros y x number Hy Hx Hn.
      destruct (Hfill y x number) as (e & He & HM); [lia..|].
      destruct HM as (M & -> & HM).
      { right. exists y. rewrite !elem_of_range. lia. }
      exists M. split; [|done]. apply masks_get_at; [lia..|done]. }
  intros y F t Hy Ht. apply elem_of_range in Hy.
  edestruct (filled_loop
    (λ x y' x' n', y' = y ∧ x' = x ∧ n' ∈ range 1 (n + 1)))
    as (t' & Ht' & Hfill'); [exact Ht| |].
  2:{ exists t'. split; [exact Ht'|].
      eapply filled_weaken; [|exact Hfill'].
      intros y' x' n' [HF|(-> & Hx & Hn)]; [by left|].
      right. exists x'. done. }
  intros x F' t' Hx Ht'. apply elem_of_range in Hx.
  edestruct (filled_loop (λ number y' x' n', y' = y ∧ x' = x ∧ n' = number))
    as (t'' & Ht'' & Hfill''); [exact Ht'| |].
  2:{ exists t''. split; [exact Ht''|].
      eapply filled_weaken; [|exact Hfill''].
      intros y' x' n' [HF|(-> & -> & Hn)]; [by left|].
      right. exists n'. done. }
  intros number F'' t'' Hn Ht''. apply elem_of_range in Hn.
  destruct (availability_mask_ok n ps n_small ps_pos y x number)
    as (M & -> & HM); [lia..|].
  simpl. apply filled_set; (done || lia).
Qed.
End fill.

(** ** Construction of a configuration *)

Lemma perfect_square_alt (size : Z) :
  perfect_square size ↔ ∃ k, 0 ≤ k ∧ k * k = size.
Proof.
  split.
  - intros [H0 Hs]. exists (Z.sqrt size). split; [apply Z.sqrt_nonneg|done].
  - intros (k & Hk & <-). split; [nia|].
    rewrite Z.sqrt_square by done. done.
Qed.

Lemma validateParameters_valid (size : Z) (partition_size : option Z) :
  valid_parameters size partition_size →
  validateParameters size partition_size = Ok (size, Z.sqrt size).
Proof.
  intros (H100 & [H0 Hsq] & Hps). unfold validateParameters, sqrt_is_integer.
  rewrite (bool_decide_eq_false_2 (size > 10 ^ 2)) by lia.
  rewrite (bool_decide_eq_false_2 (size < 0)) by lia. simpl.
  rewrite (bool_decide_eq_true_2 _ Hsq). simpl.
  destruct Hps as [-> | ->]; by rewrite bool_decide_eq_false_2 by auto.
Qed.

Lemma validateParameters_invalid (size : Z) (partition_size : option Z) :
  ¬ valid_parameters size partition_size →
  ∃ e, validateParameters size partition_size = Raise e.
Proof.
  intros Hinv. unfold validateParameters, sqrt_is_integer.
  destruct (bool_decide (size > 10 ^ 2)) eqn:H100; [by eexists|].
  apply bool_decide_eq_false in H100.
  destruct (bool_decide (size < 0)) eqn:H0;
    [destruct (bool_decide (_ < size)); simpl; by eexists|].
  apply bool_decide_eq_false in H0. simpl.
  destruct (bool_decide (_ = size)) eqn:Hsq; simpl; [|by eexists].
  apply bool_decide_eq_true in Hsq.
  destruct (bool_decide (_ ≠ _)) eqn:Hps; [by eexists|].
  apply bool_decide_eq_false in Hps.
  exfalso. apply Hinv. split; [lia|]. split; [split; [lia|done]|].
  destruct partition_size as [p|]; [right|by left].
  f_equal. by apply dec_stable.
Qed.

(** A negative size is turned down by an exception of the arithmetic on
    [size ** .5], all other invalid arguments by a [ValueError]. *)
Lemma validateParameters_invalid_ValueError (size : Z)
    (partition_size : option Z) :
  0 ≤ size → ¬ valid_parameters size partition_size →
  ∃ msg, validateParameters size partition_size = Raise (ValueError msg).
Proof.
  intros Hpos Hinv. unfold validateParameters, sqrt_is_integer.
  destruct (bool_decide (size > 10 ^ 2)) eqn:H100; [by eexists|].
  apply bool_decide_eq_false in H100.
  rewrite (bool_decide_eq_false_2 (size < 0)) by lia. simpl.
  destruct (bool_decide (_ = size)) eqn:Hsq; simpl; [|by eexists].
  apply bool_decide_eq_true in Hsq.
  destruct (bool_decide (_ ≠ _)) eqn:Hps; [by eexists|].
  apply bool_decide_eq_false in Hps.
  exfalso. apply Hinv. split; [lia|]. split; [split; [lia|done]|].
  destruct partition_size as [p|]; [right|by left].
  f_equal. by apply dec_stable.
Qed.

(** Valid arguments with a size of at most 49 build a configuration. *)
Lemma setParameters_small (size0 : Z) (partition_size0 : option Z) :
  valid_parameters size0 partition_size0 → size0 ≤ 49 →
  ∃ cfg, setParameters size0 partition_size0 = Ok cfg ∧ built_for size0 cfg.
Proof.
  intros Hvalid H49. unfold setParameters.
  rewrite (validateParameters_valid _ _ Hvalid). simpl.
  destruct Hvalid as (_ & [H0 Hsq] & _).
  pose proof (Z.sqrt_nonneg size0) as Hsqrt.
  destruct (fill_loops size0 (Z.sqrt size0)) as (t & -> & Ht); [lia|nia|].
  simpl. eexists. split; [done|]. split; simpl; done.
Qed.

(** Perfect squares between 50 and 100. *)
Lemma large_squares (size0 : Z) :
  perfect_square size0 → 49 < size0 ≤ 100 →
  size0 = 64 ∨ size0 = 81 ∨ size0 = 100.
Proof.
  intros [H0 Hsq] Hrange. pose proof (Z.sqrt_nonneg size0).
  assert (Z.sqrt size0 = 8 ∨ Z.sqrt size0 = 9 ∨ Z.sqrt size0 = 10) by nia.
  lia.
Qed.

Lemma setParameters_partition_size (size0 : Z) (partition_size0 : option Z) :
  valid_parameters size0 partition_size0 →
  setParameters size0 partition_size0 = setParameters size0 None.
Proof.
  intros Hvalid. unfold setParameters.
  rewrite (validateParameters_valid _ _ Hvalid).
  rewrite (validateParameters_valid size0 None); [done|].
  destruct Hvalid as (? & ? & ?). split_and!; auto.
Qed.

(** The bitmask of the number 63 does not fit the conversion to a [uint16]
    cell: the sizes 64, 81 and 100 pass the validation and then fail. *)
Lemma setParameters_64 : setParameters 64 None = Raise OverflowError.
Proof. vm_cast_no_check (eq_refl (Raise (A:=Configuration) OverflowError)). Qed.

Lemma setParameters_81 : setParameters 81 None = Raise OverflowError.
Proof. vm_cast_no_check (eq_refl (Raise (A:=Configuration) OverflowError)). Qed.

Lemma setParameters_100 : setParameters 100 None = Raise OverflowError.
Proof. vm_cast_no_check (eq_refl (Raise (A:=Configuration) OverflowError)). Qed.

Lemma setParameters_large (size0 : Z) (partition_size0 : option Z) :
  valid_parameters size0 partition_size0 → 49 < size0 →
  setParameters size0 partition_size0 = Raise OverflowError.
Proof.
  intros Hvalid H49. rewrite (setParameters_partition_size _ _ Hvalid).
  destruct Hvalid as (H100 & Hsq & _).
  destruct (large_squares size0 Hsq) as [-> | [-> | ->]]; [lia|..].
  - apply setParameters_64.
  - apply setParameters_81.
  - apply setParameters_100.
Qed.

Lemma setParameters_invalid (size0 : Z) (partition_size0 : option Z) :
  ¬ valid_parameters size0 partition_size0 →
  ∃ e, setParameters size0 partition_size0 = Raise e.
Proof.
  intros Hinv. unfold setParameters.
  destruct (validateParameters_invalid _ _ Hinv) as (e & ->). simpl.
  by eexists.
Qed.

(** A configuration is built exactly for valid arguments with a size of at
    most 49, and a configuration that was built has the tables described by
    [built_for]. *)
Lemma Configuration_init_Ok (size0 : Z) (partition_size0 : option Z)
    (cfg : Configuration) :
  Configuration_init size0 partition_size0 = Ok cfg →
  valid_parameters size0 partition_size0 ∧ built_for size0 cfg.
Proof.
  unfold Configuration_init. intros Hcfg.
  destruct (decide (valid_parameters size0 partition_size0)) as [Hv|Hv].
  - split; [done|]. destruct (decide (size0 ≤ 49)) as [H49|H49].
    + destruct (setParameters_small _ _ Hv H49) as (cfg' & Hcfg' & Hb).
      congruence.
    + rewrite setParameters_large in Hcfg by (done || lia). done.
  - destruct (setParameters_invalid _ _ Hv) as (e & He). congruence.
Qed.

Lemma Configuration_9_built :
  Configuration_init 9 None = Ok _9x9_configuration
  ∧ built_for 9 _9x9_configuration.
Proof.
  destruct (setParameters_small 9 None) as (cfg & Hcfg & Hb).
  - split; [lia|]. split; [by split|by left].
  - lia.
  - unfold _9x9_configuration, Configuration_init. rewrite Hcfg.
    split; [reflexivity|exact Hb].
Qed.

Lemma Configuration_4_built :
  Configuration_init 4 None = Ok _4x4_configuration
  ∧ built_for 4 _4x4_configuration.
Proof.
  destruct (setParameters_small 4 None) as (cfg & Hcfg & Hb).
  - split; [lia|]. split; [by split|by left].
  - lia.
  - unfold _4x4_configuration, Configuration_init. rewrite Hcfg.
    split; [reflexivity|exact Hb].
Qed.

(** From here on the two configurations are used through [built_for] only;
    their tables are not unfolded by simplification. *)
Global Opaque _9x9_configuration _4x4_configuration.

(** Runs the binds of the result monad whose left operand is a value. *)
Ltac run := cbn [mbind result_bind mret result_ret].

(** ** Words and bits *)

Lemma testbit_uint16 (v i : Z) :
  Z.testbit (uint16 v) i = (i <? 16) && Z.testbit v i.
Proof. unfold uint16. by apply Z.testbit_mod_pow2. Qed.

Lemma testbit_bitmask (n i : Z) :
  0 ≤ n → Z.testbit (1 ≪ n) i = bool_decide (i = n).
Proof.
  intros Hn. rewrite Z.shiftl_1_l, Z.pow2_bits_eqb by done.
  case_bool_decide; lia.
Qed.

Lemma land_bitmask_zero (w n : Z) :
  0 ≤ n → Z.land w (1 ≪ n) = 0 ↔ Z.testbit w n = false.
Proof.
  intros Hn. split.
  - intros Hz. apply (f_equal (λ v, Z.testbit v n)) in Hz.
    rewrite Z.land_spec, testbit_bitmask, Z.bits_0 in Hz by done.
    rewrite bool_decide_eq_true_2 in Hz by done.
    by rewrite andb_true_r in Hz.
  - intros Hw. apply Z.bits_inj'. intros i Hi.
    rewrite Z.land_spec, testbit_bitmask, Z.bits_0 by done.
    case_bool_decide as Hin; [subst; by rewrite Hw|by rewrite andb_false_r].
Qed.

(** ** The operations of a sudoku *)

Section sudoku.
Variable n : Z.
Variable s : Sudoku.
Hypothesis shaped : well_shaped n s.

Lemma number_to_bitmask_getitem (number : Z) :
  0 ≤ number ≤ n →
  getitem (number_to_bitmask (config s)) number = Ok (1 ≪ number).
Proof.
  intros Hn. rewrite (built_bitmasks _ _ (ws_config _ _ shaped)).
  apply getitem_lookup; [lia|].
  rewrite list_lookup_fmap, lookup_range by lia. simpl.
  do 2 f_equal. lia.
Qed.

Lemma canPlace_ok (y x number : Z) :
  0 ≤ y < n → 0 ≤ x < n → 0 ≤ number ≤ n →
  canPlace s y x number
  = Ok (bit (placability_board s) y x number && bit (placability_board s) y x 0).
Proof.
  intros Hy Hx Hn. unfold canPlace, bit.
  rewrite (getitem2_ok n) by (done || apply shaped). run.
  rewrite (number_to_bitmask_getitem number) by done. run.
  case_bool_decide as Hz.
  - apply land_bitmask_zero in Hz; [|lia]. by rewrite Hz.
  - rewrite land_bitmask_zero in Hz by lia.
    apply not_false_is_true in Hz. rewrite Hz. run.
    rewrite (number_to_bitmask_getitem 0) by lia. run. f_equal.
    case_bool_decide as Hz0.
    + rewrite land_bitmask_zero in Hz0 by lia.
      symmetry. by apply not_false_is_true.
    + apply land_bitmask_zero in Hz0; [|lia]. by rewrite Hz0.
Qed.

Lemma place_ok (y x number : Z) :
  0 ≤ y < n → 0 ≤ x < n → 1 ≤ number ≤ n →
  ∃ s', place s y x number = Ok s'
    ∧ well_shaped n s'
    ∧ config s' = config s
    ∧ placed_numbers s' = placed_numbers s + 1
    ∧ (∀ r c, 0 ≤ r < n → 0 ≤ c < n →
         cell (displayable s') r c
         = if bool_decide (r = y ∧ c = x) then number
           else cell (displayable s) r c)
    ∧ (∀ r c i, 0 ≤ r < n → 0 ≤ c < n → 0 ≤ i →
         bit (placability_board s') r c i
         = bit (placability_board s) r c i && (i <? 16)
           && negb (bool_decide
                      (peer (partition_size (config s)) y x r c ∧ i = number))
           && negb (bool_decide (r = y ∧ c = x ∧ i = 0))).
Proof.
  intros Hy Hx Hn. destruct shaped as [Hcfg Hboard Hdisp]. unfold place.
  destruct (built_masks _ _ Hcfg y x number Hy Hx Hn) as (M & -> & HsM & HM).
  simpl.
  destruct (matrix_zip_ok n (λ w k, Z.land w (uint16_invert k))
              (placability_board s) M Hboard HsM) as [Hs1 Hc1].
  rewrite (getitem2_ok n) by done. simpl.
  match goal with |- context [setitem2 ?m y x ?v] =>
    destruct (setitem2_ok n m y x v Hs1 Hy Hx) as (b2 & -> & Hs2 & Hc2)
  end.
  simpl.
  destruct (setitem2_ok n (displayable s) y x number Hdisp Hy Hx)
    as (d2 & -> & Hsd & Hcd).
  simpl. eexists. split; [done|]. split; [by split|].
  split; [done|]. split; [done|]. split; [done|]. simpl.
  intros r c i Hr Hc Hi. unfold bit. rewrite Hc2 by done.
  assert (Hw1 : Z.testbit (cell (matrix_zip (λ w k, Z.land w (uint16_invert k))
                                   (placability_board s) M) r c) i
                = Z.testbit (cell (placability_board s) r c) i && (i <? 16)
                  && negb (bool_decide
                      (peer (partition_size (config s)) y x r c ∧ i = number))).
  { rewrite Hc1, HM by done. rewrite Z.land_spec. unfold uint16_invert.
    rewrite testbit_uint16, Z.lnot_spec by done.
    destruct (decide (peer _ y x r c)) as [Hp|Hp].
    - rewrite testbit_uint16, testbit_bitmask by lia.
      destruct (Z.testbit _ i), (i <? 16) eqn:H16; simpl; try done;
        repeat case_bool_decide; try done; exfalso; tauto.
    - rewrite Z.bits_0. rewrite bool_decide_eq_false_2 by tauto.
      by destruct (Z.testbit _ i), (i <? 16). }
  destruct (decide (r = y ∧ c = x)) as [[Hry Hcx]|Hyx].
  - subst r c. rewrite (bool_decide_eq_true_2 (y = y ∧ x = x)) by done.
    rewrite testbit_uint16, Z.land_spec.
    rewrite (built_free_bit _ _ Hcfg), Z.lnot_spec by done.
    replace 1 with (1 ≪ 0) by done. rewrite testbit_bitmask by done.
    rewrite Hw1.
    destruct (Z.testbit (cell (placability_board s) y x) i), (i <? 16);
      simpl; try done;
      repeat case_bool_decide; try done; exfalso; intuition lia.
  - rewrite (bool_decide_eq_false_2 (r = y ∧ c = x)) by done.
    rewrite Hw1.
    rewrite (bool_decide_eq_false_2 (r = y ∧ c = x ∧ i = 0)) by tauto.
    by rewrite andb_true_r.
Qed.
End sudoku.

(** ** Cells and counting *)

Lemma elem_of_all_cells (n y x : Z) :
  (y, x) ∈ all_cells n ↔ 0 ≤ y < n ∧ 0 ≤ x < n.
Proof.
  unfold all_cells. rewrite list_elem_of_bind. split.
  - intros (y' & Hx & Hy). apply list_elem_of_bind in Hx as (x' & Hx' & Hx).
    apply list_elem_of_singleton in Hx' as [= -> ->].
    apply elem_of_range in Hx, Hy. lia.
  - intros [Hy Hx]. exists y. rewrite elem_of_range. split; [|lia].
    apply list_elem_of_bind. exists x. rewrite elem_of_range.
    split; [apply list_elem_of_singleton; done|lia].
Qed.

Lemma NoDup_all_cells (n : Z) : NoDup (all_cells n).
Proof.
  unfold all_cells. apply NoDup_bind.
  - intros y1 y2 [y x] _ _ H1 H2.
    apply list_elem_of_bind in H1 as (x1 & H1 & _).
    apply list_elem_of_bind in H2 as (x2 & H2 & _).
    apply list_elem_of_singleton in H1, H2. congruence.
  - intros y _. apply NoDup_bind.
    + intros x1 x2 [y' x] _ _ H1 H2.
      apply list_elem_of_singleton in H1, H2. congruence.
    + intros x _. apply NoDup_singleton.
    + apply NoDup_seqZ.
  - apply NoDup_seqZ.
Qed.

Lemma filter_ext_in {A : Type} (P Q : A → Prop)
    `{!∀ x, Decision (P x), !∀ x, Decision (Q x)} (l : list A) :
  (∀ b, b ∈ l → P b ↔ Q b) → filter P l = filter Q l.
Proof.
  induction l as [|c l IH]; intros HPQ; [done|].
  rewrite !filter_cons. pose proof (HPQ c ltac:(left)) as Hc.
  rewrite IH by (intros d Hd; apply HPQ; by right).
  destruct (decide (P c)), (decide (Q c)); tauto.
Qed.

(** Turning the predicate on at one element of a duplicate-free list adds
    one to what the filter keeps. *)
Lemma length_filter_flip {A : Type} (P Q : A → Prop)
    `{!∀ x, Decision (P x), !∀ x, Decision (Q x)} (l : list A) (a : A) :
  NoDup l → a ∈ l → ¬ P a → Q a → (∀ b, b ∈ l → b ≠ a → P b ↔ Q b) →
  length (filter Q l) = S (length (filter P l)).
Proof.
  intros Hnd Ha HPa HQa HPQ. induction Hnd as [|b l Hb Hnd IH].
  - by apply elem_of_nil in Ha.
  - apply elem_of_cons in Ha as [<-|Ha].
    + rewrite filter_cons_True, filter_cons_False by done. simpl. f_equal.
      f_equal. symmetry. apply filter_ext_in. intros c Hc.
      apply HPQ; [by right|]. intros ->. done.
    + assert (b ≠ a) as Hne by (intros ->; done).
      rewrite !filter_cons. pose proof (HPQ b ltac:(left) Hne) as Hb'.
      specialize (IH Ha ltac:(intros d Hd; apply HPQ; by right)).
      destruct (decide (Q b)), (decide (P b)); simpl; try tauto; lia.
Qed.

Lemma filter_none {A : Type} (P : A → Prop) `{!∀ x, Decision (P x)}
    (l : list A) :
  (∀ a, a ∈ l → ¬ P a) → filter P l = [].
Proof.
  induction l as [|a l IH]; intros Hl; [done|].
  rewrite filter_cons_False by (apply Hl; left).
  apply IH. intros b Hb. apply Hl. by right.
Qed.

Lemma filter_all {A : Type} (P : A → Prop) `{!∀ x, Decision (P x)}
    (l : list A) :
  length (filter P l) = length l → ∀ a, a ∈ l → P a.
Proof.
  intros Hlen a Ha. destruct (decide (P a)) as [|Hn]; [done|].
  pose proof (length_filter_lt P l a Ha Hn). lia.
Qed.

Lemma length_all_cells (n : Z) : 0 ≤ n → length (all_cells n) = Z.to_nat (n * n).
Proof.
  intros Hn. unfold all_cells, range. rewrite !Z.sub_0_r.
  assert (Hrow : ∀ y : Z, length (seqZ 0 n ≫= λ x, [(y, x)]) = Z.to_nat n).
  { intros y. generalize (seqZ 0 n) (length_seqZ 0 n).
    intros l <-. induction l as [|a l IH]; [done|]. csimpl. by rewrite IH. }
  assert (Hall : ∀ l : list Z,
    length (l ≫= λ y, seqZ 0 n ≫= λ x, [(y, x)])
    = (length l * Z.to_nat n)%nat).
  { induction l as [|a l IH]; [done|]. csimpl.
    rewrite length_app, Hrow, IH. done. }
  rewrite Hall, length_seqZ. lia.
Qed.

(** ** The empty sudoku *)

Lemma foldl_or_bits (n : Z) (l : list Z) (m : matrix) :
  square n m →
  square n (foldl (λ board k, matrix_map (λ w, uint16 (Z.lor w k)) board) m l)
  ∧ ∀ r c i, 0 ≤ r < n → 0 ≤ c < n → 0 ≤ i < 16 →
      bit m r c i = true ∨ (∃ k, k ∈ l ∧ Z.testbit k i = true) →
      bit (foldl (λ board k, matrix_map (λ w, uint16 (Z.lor w k)) board) m l)
        r c i = true.
Proof.
  revert m. induction l as [|k l IH]; intros m Hm.
  - split; [done|]. intros r c i _ _ _ [H|(k & Hk & _)]; [done|].
    by apply elem_of_nil in Hk.
  - simpl.
    destruct (matrix_map_ok n (λ w, uint16 (Z.lor w k)) m Hm) as [Hs Hc].
    destruct (IH _ Hs) as [Hs' Hb']. split; [done|].
    intros r c i Hr Hc' Hi Hor. apply Hb'; [done..|].
    destruct Hor as [Hbit|(k' & Hk' & Hbit)].
    + left. unfold bit in *. rewrite Hc, testbit_uint16, Z.lor_spec by done.
      rewrite Hbit. simpl. rewrite andb_true_r. apply Z.ltb_lt. lia.
    + apply elem_of_cons in Hk' as [->|Hk']; [|right; eauto].
      left. unfold bit. rewrite Hc, testbit_uint16, Z.lor_spec by done.
      rewrite Hbit, orb_true_r, andb_true_r. apply Z.ltb_lt. lia.
Qed.

Lemma Sudoku_init_consistent (n : Z) (cfg : Configuration) :
  built_for n cfg → n < 16 → consistent n (Sudoku_init cfg).
Proof.
  intros Hcfg H16.
  destruct (foldl_or_bits n (number_to_bitmask cfg) (empty_matrix cfg))
    as [Hsq Hbits].
  { rewrite (built_empty _ _ Hcfg). apply square_zeros. }
  pose proof (built_size _ _ Hcfg) as Hsize.
  assert (Hset : ∀ r c i, 0 ≤ r < n → 0 ≤ c < n → 0 ≤ i ≤ n →
            bit (placability_board (Sudoku_init cfg)) r c i = true).
  { intros r c i Hr Hc Hi. apply Hbits; [done|done|lia|]. right.
    exists (1 ≪ i). split.
    - rewrite (built_bitmasks _ _ Hcfg). apply list_elem_of_fmap.
      exists i. split; [done|]. apply elem_of_range. lia.
    - rewrite testbit_bitmask by lia. by apply bool_decide_eq_true_2. }
  assert (Hzero : ∀ r c, 0 ≤ r < n → 0 ≤ c < n →
            cell (displayable (Sudoku_init cfg)) r c = 0).
  { intros r c Hr Hc. simpl. rewrite Hsize. by apply cell_zeros. }
  split.
  - split; [done|done|]. simpl. rewrite Hsize. apply square_zeros.
  - done.
  - intros r c Hr Hc. rewrite Hset, Hzero by (done || lia). done.
  - intros r c Hr Hc. rewrite Hzero by done. lia.
  - intros r c v Hr Hc Hv. rewrite Hset by (done || lia). split; [|done].
    intros _ r' c' Hr' Hc' _. rewrite Hzero by done. lia.
  - intros r c r' c' Hr Hc _ _ _ _ Hne. by rewrite Hzero in Hne.
  - unfold filled_cells. rewrite filter_none; [done|].
    intros [r c] Hrc%elem_of_all_cells. simpl. rewrite Hzero by lia. tauto.
Qed.

(** ** A legal placement keeps the invariant *)

Lemma place_consistent (n : Z) (s : Sudoku) (y x number : Z) :
  consistent n s → 0 ≤ y < n → 0 ≤ x < n → 1 ≤ number ≤ n →
  canPlace s y x number = Ok true →
  ∃ s', place s y x number = Ok s' ∧ consistent n s'
        ∧ config s' = config s
        ∧ placed_numbers s' = placed_numbers s + 1
        ∧ ∀ r c, 0 ≤ r < n → 0 ≤ c < n →
            cell (displayable s') r c
            = if bool_decide (r = y ∧ c = x) then number
              else cell (displayable s) r c.
Proof.
  intros Hs Hy Hx Hn Hcan.
  destruct Hs as [Hshaped H16 Hfree Hvalues Havail Hvalid Hcount].
  rewrite (canPlace_ok n s Hshaped) in Hcan by (done || lia).
  injection Hcan as Hcan. apply andb_true_iff in Hcan as [Hbitv Hbit0].
  pose proof (proj1 (Hfree y x Hy Hx) Hbit0) as Hempty.
  pose proof (proj1 (Havail y x number Hy Hx Hn) Hbitv) as Hnopeer.
  destruct (place_ok n s Hshaped y x number Hy Hx Hn)
    as (s' & Hplace & Hshaped' & Hconfig & Hplaced & Hdisp & Hbits).
  exists s'. split; [done|]. split; [|done].
  split; [done|done|..].
  - intros r c Hr Hc. rewrite Hbits, Hdisp by (done || lia).
    rewrite (bool_decide_eq_false_2 (_ ∧ 0 = number)) by lia.
    rewrite <- Z.ltb_lt in H16.
    destruct (decide (r = y ∧ c = x)) as [[-> ->]|Hne].
    + rewrite !bool_decide_eq_true_2 by done.
      rewrite andb_false_r. split; [done|lia].
    + rewrite (bool_decide_eq_false_2 (r = y ∧ c = x)) by done.
      rewrite (bool_decide_eq_false_2 (r = y ∧ c = x ∧ 0 = 0)) by tauto.
      simpl. rewrite !andb_true_r. by apply Hfree.
  - intros r c Hr Hc. rewrite Hdisp by done.
    case_bool_decide; [lia|by apply Hvalues].
  - intros r c v Hr Hc Hv. rewrite Hbits, Hconfig by (done || lia).
    rewrite (bool_decide_eq_false_2 (r = y ∧ c = x ∧ v = 0)) by lia.
    assert ((v <? 16) = true) as -> by (apply Z.ltb_lt; lia).
    simpl. rewrite !andb_true_r, andb_true_iff, negb_true_iff.
    rewrite bool_decide_eq_false, (Havail r c v) by done. split.
    + intros [Hold Hnew] r' c' Hr' Hc' Hpeer. rewrite Hdisp by done.
      case_bool_decide as Hyx; [|by apply Hold].
      destruct Hyx as [-> ->]. intros ->. apply Hnew.
      split; [by apply peer_sym|done].
    + intros Hnew. split.
      * intros r' c' Hr' Hc' Hpeer.
        specialize (Hnew r' c' Hr' Hc' Hpeer). rewrite Hdisp in Hnew by done.
        case_bool_decide as Hyx; [|done].
        destruct Hyx as [-> ->]. lia.
      * intros [Hpeer ->].
        specialize (Hnew y x Hy Hx (peer_sym _ _ _ _ _ Hpeer)).
        rewrite Hdisp, bool_decide_eq_true_2 in Hnew by done. done.
  - intros r c r' c' Hr Hc Hr' Hc'. rewrite Hconfig, !Hdisp by done.
    intros Hpeer Hne.
    destruct (decide (r = y ∧ c = x)) as [[-> ->]|Hne1];
      destruct (decide (r' = y ∧ c' = x)) as [[-> ->]|Hne2].
    + done.
    + rewrite (bool_decide_eq_true_2 (y = y ∧ x = x)) by done.
      rewrite (bool_decide_eq_false_2 (r' = y ∧ c' = x)) by done.
      intros _ Heq. by apply (Hnopeer r' c' Hr' Hc' Hpeer).
    + rewrite (bool_decide_eq_true_2 (y = y ∧ x = x)) by done.
      rewrite (bool_decide_eq_false_2 (r = y ∧ c = x)) by done.
      intros _ Heq.
      by apply (Hnopeer r c Hr Hc (peer_sym _ _ _ _ _ Hpeer)).
    + rewrite !bool_decide_eq_false_2 by done. by apply Hvalid.
  - rewrite Hplaced, Hcount. unfold filled_cells.
    rewrite (length_filter_flip
               (λ yx, cell (displayable s) yx.1 yx.2 ≠ 0)
               (λ yx, cell (displayable s') yx.1 yx.2 ≠ 0)
               (all_cells n) (y, x)).
    + lia.
    + apply NoDup_all_cells.
    + by apply elem_of_all_cells.
    + simpl. tauto.
    + simpl. rewrite Hdisp, bool_decide_eq_true_2 by done. lia.
    + intros [r c] [Hr Hc]%elem_of_all_cells Hne. simpl.
      rewrite Hdisp, bool_decide_eq_false_2
        by (done || (intros [-> ->]; done)). done.
Qed.

(** ** Rows, columns and blocks *)

(** What is used of a row, a column or a block: its cells are [n] different
    cells of the grid, and any two of them are peers. *)
Record unit_of (n ps : Z) (u : list (Z * Z)) : Prop := {
  unit_NoDup : NoDup u;
  unit_length : length u = Z.to_nat n;
  unit_range : ∀ r c, (r, c) ∈ u → 0 ≤ r < n ∧ 0 ≤ c < n;
  unit_peers : ∀ r c r' c', (r, c) ∈ u → (r', c') ∈ u → peer ps r c r' c'
}.

Lemma elem_of_block_cells (ps br bc r c : Z) :
  (r, c) ∈ block_cells ps br bc
  ↔ br * ps ≤ r < br * ps + ps ∧ bc * ps ≤ c < bc * ps + ps.
Proof.
  unfold block_cells. rewrite list_elem_of_bind. split.
  - intros (r' & Hc & Hr). apply list_elem_of_bind in Hc as (c' & Hc' & Hc).
    apply list_elem_of_singleton in Hc' as [= -> ->].
    apply elem_of_range in Hc, Hr. lia.
  - intros [Hr Hc]. exists r. rewrite elem_of_range. split; [|lia].
    apply list_elem_of_bind. exists c. rewrite elem_of_range.
    split; [apply list_elem_of_singleton; done|lia].
Qed.

Lemma length_bind_const {A B : Type} (f : A → list B) (k : nat) (l : list A) :
  (∀ a, length (f a) = k) → length (l ≫= f) = (length l * k)%nat.
Proof.
  intros Hf. induction l as [|a l IH]; [done|]. csimpl.
  rewrite length_app, Hf, IH. done.
Qed.

Lemma length_range (a b : Z) : length (range a b) = Z.to_nat (b - a).
Proof. apply length_seqZ. Qed.

Lemma units_unit_of (n ps : Z) (u : list (Z * Z)) :
  0 ≤ ps → ps * ps = n → u ∈ units n ps → unit_of n ps u.
Proof.
  intros Hps Hn Hu. unfold units in Hu.
  apply elem_of_app in Hu as [Hu|Hu]; [|apply elem_of_app in Hu as [Hu|Hu]].
  - apply list_elem_of_fmap in Hu as (r & -> & Hr%elem_of_range).
    unfold row_cells. split.
    + apply NoDup_fmap_2_strong; [congruence|apply NoDup_seqZ].
    + rewrite length_fmap, length_range. f_equal. lia.
    + intros r' c (c' & [= -> ->] & Hc%elem_of_range)%list_elem_of_fmap. lia.
    + intros r1 c1 r2 c2 (? & [= -> ->] & _)%list_elem_of_fmap
        (? & [= -> ->] & _)%list_elem_of_fmap. by left.
  - apply list_elem_of_fmap in Hu as (c & -> & Hc%elem_of_range).
    unfold column_cells. split.
    + apply NoDup_fmap_2_strong; [congruence|apply NoDup_seqZ].
    + rewrite length_fmap, length_range. f_equal. lia.
    + intros r c' (r' & [= -> ->] & Hr%elem_of_range)%list_elem_of_fmap. lia.
    + intros r1 c1 r2 c2 (? & [= -> ->] & _)%list_elem_of_fmap
        (? & [= -> ->] & _)%list_elem_of_fmap. right. by left.
  - apply list_elem_of_bind in Hu as (br & Hu & Hbr%elem_of_range).
    apply list_elem_of_bind in Hu as (bc & Hu & Hbc%elem_of_range).
    apply list_elem_of_singleton in Hu as ->. split.
    + unfold block_cells. apply NoDup_bind.
      * intros r1 r2 [r c] _ _ H1 H2.
        apply list_elem_of_bind in H1 as (? & H1 & _).
        apply list_elem_of_bind in H2 as (? & H2 & _).
        apply list_elem_of_singleton in H1, H2. congruence.
      * intros r _. apply NoDup_bind.
        -- intros c1 c2 [r' c] _ _ H1 H2.
           apply list_elem_of_singleton in H1, H2. congruence.
        -- intros c _. apply NoDup_singleton.
        -- apply NoDup_seqZ.
      * apply NoDup_seqZ.
    + unfold block_cells.
      rewrite (length_bind_const _ (Z.to_nat ps)).
      * rewrite length_range. nia.
      * intros r. rewrite (length_bind_const _ 1%nat) by done.
        rewrite length_range. lia.
    + intros r c [Hr Hc]%elem_of_block_cells. nia.
    + intros r c r' c' [Hr Hc]%elem_of_block_cells
        [Hr' Hc']%elem_of_block_cells.
      right. right.
      assert (0 < ps) by lia.
      rewrite <- (Z.div_unique r ps br (r - br * ps)) by lia.
      rewrite <- (Z.div_unique r' ps br (r' - br * ps)) by lia.
      rewrite <- (Z.div_unique c ps bc (c - bc * ps)) by lia.
      rewrite <- (Z.div_unique c' ps bc (c' - bc * ps)) by lia.
      done.
Qed.

(** Two peers lie in one row, column or block. *)
Lemma peers_share_unit (n ps r c r' c' : Z) :
  0 < ps → ps * ps = n →
  0 ≤ r < n → 0 ≤ c < n → 0 ≤ r' < n → 0 ≤ c' < n →
  peer ps r c r' c' →
  ∃ u, u ∈ units n ps ∧ (r, c) ∈ u ∧ (r', c') ∈ u.
Proof.
  intros Hps Hn Hr Hc Hr' Hc' [->|[->|[Hbr Hbc]]].
  - exists (row_cells n r). unfold units, row_cells. split_and!.
    + apply elem_of_app. left. apply list_elem_of_fmap.
      exists r. by rewrite elem_of_range.
    + apply list_elem_of_fmap. exists c. by rewrite elem_of_range.
    + apply list_elem_of_fmap. exists c'. by rewrite elem_of_range.
  - exists (column_cells n c). unfold units, column_cells. split_and!.
    + apply elem_of_app. right. apply elem_of_app. left.
      apply list_elem_of_fmap. exists c. by rewrite elem_of_range.
    + apply list_elem_of_fmap. exists r. by rewrite elem_of_range.
    + apply list_elem_of_fmap. exists r'. by rewrite elem_of_range.
  - exists (block_cells ps (r `div` ps) (c `div` ps)). split_and!.
    + unfold units. apply elem_of_app. right. apply elem_of_app. right.
      apply list_elem_of_bind. exists (r `div` ps). split.
      * apply list_elem_of_bind. exists (c `div` ps). split.
        -- by apply list_elem_of_singleton.
        -- apply elem_of_range. split; [apply Z.div_pos; lia|].
           apply Z.div_lt_upper_bound; lia.
      * apply elem_of_range. split; [apply Z.div_pos; lia|].
        apply Z.div_lt_upper_bound; lia.
    + apply elem_of_block_cells. by rewrite !block_slice.
    + apply elem_of_block_cells. by rewrite !block_slice.
Qed.

(** ** Solved grids *)

(** A filled grid in which peers show different values is a solution. *)
Lemma solution_of_distinct_peers (n ps : Z) (m : matrix) :
  0 ≤ ps → ps * ps = n → square n m →
  (∀ r c, 0 ≤ r < n → 0 ≤ c < n → 1 ≤ cell m r c ≤ n) →
  (∀ r c r' c', 0 ≤ r < n → 0 ≤ c < n → 0 ≤ r' < n → 0 ≤ c' < n →
     peer ps r c r' c' → (r, c) ≠ (r', c') → cell m r c ≠ cell m r' c') →
  solution n ps m.
Proof.
  intros Hps Hn Hm Hfilled Hdistinct. split; [done|]. split; [done|].
  intros u Hu v Hv.
  destruct (units_unit_of n ps u Hps Hn Hu) as [Hnd Hlen Hrange Hpeers].
  set (f := λ yx : Z * Z, cell m yx.1 yx.2).
  assert (Hinj : ∀ a b, a ∈ u → b ∈ u → f a = f b → a = b).
  { intros [r c] [r' c'] Ha Hb Hab.
    destruct (decide ((r, c) = (r', c'))) as [|Hne]; [done|].
    destruct (Hrange r c Ha), (Hrange r' c' Hb).
    exfalso. apply (Hdistinct r c r' c'); try done. by apply Hpeers. }
  assert (Hperm : f <$> u ≡ₚ seqZ 1 n).
  { apply submseteq_length_Permutation.
    - apply NoDup_submseteq.
      + by apply NoDup_fmap_2_strong.
      + intros w ([r c] & -> & Ha)%list_elem_of_fmap.
        destruct (Hrange r c Ha). apply elem_of_seqZ.
        specialize (Hfilled r c). unfold f. simpl. lia.
    - rewrite length_fmap, length_seqZ. lia. }
  assert (Hv' : v ∈ f <$> u) by (rewrite Hperm; apply elem_of_seqZ; lia).
  apply list_elem_of_fmap in Hv' as (a & Hva & Ha).
  unfold occurrences.
  rewrite (length_filter_flip (λ _, False) (λ yx, cell m yx.1 yx.2 = v) u a);
    try done.
  - by rewrite filter_none by tauto.
  - tauto.
  - intros b Hb Hne. split; [done|]. intros Hbv. apply Hne.
    apply Hinj; [done..|]. unfold f in *. simpl in *. congruence.
Qed.

(** In a solution peers show different values. *)
Lemma solution_distinct_peers (n ps : Z) (m : matrix) (r c r' c' : Z) :
  0 < ps → ps * ps = n → solution n ps m →
  0 ≤ r < n → 0 ≤ c < n → 0 ≤ r' < n → 0 ≤ c' < n →
  peer ps r c r' c' → (r, c) ≠ (r', c') → cell m r c ≠ cell m r' c'.
Proof.
  intros Hps Hn (Hm & Hfilled & Honce) Hr Hc Hr' Hc' Hpeer Hne Heq.
  destruct (peers_share_unit n ps r c r' c') as (u & Hu & Ha & Hb);
    [done..|].
  destruct (units_unit_of n ps u ltac:(lia) Hn Hu) as [Hnd _ _ _].
  specialize (Honce u Hu (cell m r c) (Hfilled r c Hr Hc)).
  unfold occurrences in Honce.
  set (P := λ yx : Z * Z, cell m yx.1 yx.2 = cell m r c) in *.
  assert (Ha' : (r, c) ∈ filter P u) by (by apply list_elem_of_filter).
  assert (Hb' : (r', c') ∈ filter P u) by (by apply list_elem_of_filter).
  destruct (filter P u) as [|a [|b l]]; simpl in Honce; [done| |done].
  apply list_elem_of_singleton in Ha', Hb'. congruence.
Qed.

(** A consistent sudoku on which [isSolved] holds displays a solution. *)
Lemma consistent_solved (n : Z) (s : Sudoku) :
  consistent n s → isSolved s = true →
  solution n (partition_size (config s)) (displayable s).
Proof.
  intros [Hshaped H16 Hfree Hvalues Havail Hvalid Hcount] Hsolved.
  destruct Hshaped as [Hcfg Hboard Hdisp].
  pose proof (built_size_range _ _ Hcfg) as Hn.
  unfold isSolved in Hsolved. apply bool_decide_eq_true in Hsolved.
  rewrite (built_size _ _ Hcfg) in Hsolved.
  assert (Hnonzero : ∀ r c, 0 ≤ r < n → 0 ≤ c < n →
            cell (displayable s) r c ≠ 0).
  { intros r c Hr Hc.
    apply (filter_all (λ yx, cell (displayable s) yx.1 yx.2 ≠ 0)
             (all_cells n) ) with (a := (r, c)).
    - fold (filled_cells n (displayable s)). rewrite length_all_cells by lia.
      lia.
    - by apply elem_of_all_cells. }
  apply solution_of_distinct_peers.
  - apply (built_partition_nonneg _ _ Hcfg).
  - apply (built_partition _ _ Hcfg).
  - done.
  - intros r c Hr Hc. specialize (Hvalues r c Hr Hc).
    specialize (Hnonzero r c Hr Hc). lia.
  - intros r c r' c' Hr Hc Hr' Hc' Hpeer Hne.
    apply Hvalid; try done. by apply Hnonzero.
Qed.

(** ** The scan of the cells *)

Lemma elem_of_enumerate {A : Type} (l : list A) (i : Z) (a : A) :
  (i, a) ∈ enumerate l ↔ 0 ≤ i ∧ l !! Z.to_nat i = Some a.
Proof.
  unfold enumerate. split.
  - intros (k & i' & a' & [= <- <-] & Hi & Ha)%elem_of_lookup_zip_with.
    apply lookup_seqZ in Hi as [-> Hk]. split; [lia|].
    by rewrite Z.add_0_l, Nat2Z.id.
  - intros [Hi Ha]. apply elem_of_lookup_zip_with.
    exists (Z.to_nat i), i, a. split_and!; [done| |done].
    apply lookup_seqZ. apply lookup_lt_Some in Ha. lia.
Qed.

Lemma elem_of_np_where (n : Z) (m : matrix) (b y x : Z) :
  square n m →
  (y, x) ∈ np_where m b
  ↔ 0 ≤ y < n ∧ 0 ≤ x < n ∧ Z.land (cell m y x) b ≠ 0.
Proof.
  intros Hm. unfold np_where. rewrite list_elem_of_bind. split.
  - intros ([y' row] & Hx & [Hy Hrow]%elem_of_enumerate).
    apply list_elem_of_bind in Hx as ([x' w] & Hw & [Hx Hw']%elem_of_enumerate).
    case_bool_decide as Hbit; [|by apply elem_of_nil in Hw].
    apply list_elem_of_singleton in Hw as [= Hyy Hxx]. subst y' x'.
    pose proof (lookup_lt_Some _ _ _ Hrow) as Hlt.
    pose proof (lookup_lt_Some _ _ _ Hw') as Hlt'.
    destruct Hm as [Hlen Hrows].
    pose proof (Forall_lookup_1 _ _ _ _ Hrows Hrow) as Hlrow. simpl in Hlrow.
    rewrite (cell_lookup m y x row w) by done. lia.
  - intros (Hy & Hx & Hbit).
    destruct (square_lookup n m y x Hm Hy Hx) as (row & Hrow & Hl & Hw).
    exists (y, row). split; [|apply elem_of_enumerate; split; [lia|done]].
    apply list_elem_of_bind. exists (x, cell m y x).
    split; [|apply elem_of_enumerate; split; [lia|done]].
    rewrite bool_decide_eq_true_2 by done. by apply list_elem_of_singleton.
Qed.

Lemma numbers_cell_can_hold_ok (n : Z) (s : Sudoku) (y x : Z)
    (numbers : list Z) :
  well_shaped n s → 0 ≤ y < n → 0 ≤ x < n →
  (∀ v, v ∈ numbers → 0 ≤ v ≤ n) →
  ∃ held, numbers_cell_can_hold s y x numbers = Ok held
    ∧ ∀ e, e ∈ held ↔ ∃ v, v ∈ numbers ∧ e = (y, x, v)
                            ∧ canPlace s y x v = Ok true.
Proof.
  intros Hs Hy Hx Hnumbers. unfold numbers_cell_can_hold.
  apply (for_each_total
           (λ pre held, ∀ e, e ∈ held ↔ ∃ v, v ∈ pre ∧ e = (y, x, v)
                                           ∧ canPlace s y x v = Ok true)).
  - intros e. split; [by intros ?%elem_of_nil|].
    by intros (v & ?%elem_of_nil & _).
  - intros pre v post held -> Hheld.
    assert (Hv : 0 ≤ v ≤ n).
    { apply Hnumbers. rewrite elem_of_app, elem_of_cons. auto. }
    rewrite (canPlace_ok n s Hs y x v) by done. run.
    eexists. split; [done|]. intros e.
    destruct (bit _ y x v && bit _ y x 0) eqn:Hcan.
    + rewrite !elem_of_app, list_elem_of_singleton, Hheld. split.
      * intros [(w & Hw & -> & Hcw)| ->].
        -- exists w. rewrite elem_of_app. auto.
        -- exists v. rewrite elem_of_app, list_elem_of_singleton.
           rewrite (canPlace_ok n s Hs y x v), Hcan by done. auto.
      * intros (w & [Hw| ->%list_elem_of_singleton]%elem_of_app & -> & Hcw);
          [left; eauto|by right].
    + rewrite Hheld. split.
      * intros (w & Hw & -> & Hcw). exists w. rewrite elem_of_app. auto.
      * intros (w & [Hw| ->%list_elem_of_singleton]%elem_of_app & -> & Hcw);
          [eauto|].
        rewrite (canPlace_ok n s Hs y x v), Hcan in Hcw by done. done.
Qed.

Lemma solver_config_built : built_for 9 SudokuSolver_config.
Proof. apply Configuration_9_built. Qed.

Lemma solver_config_size : size SudokuSolver_config = 9.
Proof. apply (built_size _ _ solver_config_built). Qed.

Lemma solver_config_free_bit : cell_free_bit SudokuSolver_config = 1.
Proof. apply (built_free_bit _ _ solver_config_built). Qed.

Lemma land_1_testbit (w : Z) : Z.land w 1 ≠ 0 ↔ Z.testbit w 0 = true.
Proof.
  replace 1 with (1 ≪ 0) by done. rewrite land_bitmask_zero by done.
  by destruct (Z.testbit w 0).
Qed.

Section scan.
(** The scan is verified once for every property [Inv] of sudokus of the
    side 9 that legal placements keep. *)
Variable Inv : Sudoku → Prop.
Hypothesis Inv_shaped : ∀ s, Inv s → well_shaped 9 s.
Hypothesis Inv_place :
  ∀ s y x v s', Inv s → 0 ≤ y < 9 → 0 ≤ x < 9 → 1 ≤ v ≤ 9 →
    canPlace s y x v = Ok true → place s y x v = Ok s' → Inv s'.

Lemma considerEachCell_loop_ok (cells : list (Z * Z)) (self : SudokuSolver) :
  Inv (sudoku self) →
  (∀ y x, (y, x) ∈ cells → 0 ≤ y < 9 ∧ 0 ≤ x < 9) →
  ∃ valid self',
    considerEachCell_loop cells self = Ok (valid, self')
    ∧ Inv (sudoku self')
    ∧ (trivial_found self' = false →
         trivial_found self = false ∧ sudoku self' = sudoku self
         ∧ ∀ g, g ∈ best_guesses self' →
             g ∈ best_guesses self ∨ sound_guess 9 (sudoku self) g)
    ∧ ((∃ y x, (y, x) ∈ cells ∧ dead (sudoku self) y x) → valid = false).
Proof.
  revert self. induction cells as [|[y x] cells IH]; intros self HInv Hcells.
  { exists true, self. split_and!; [done|done|by auto|].
    by intros (y & x & ?%elem_of_nil & _). }
  destruct (Hcells y x ltac:(left)) as [Hy Hx].
  assert (Hcells' : ∀ y x, (y, x) ∈ cells → 0 ≤ y < 9 ∧ 0 ≤ x < 9).
  { intros y' x' H. apply Hcells. by right. }
  pose proof (Inv_shaped _ HInv) as Hshaped.
  destruct (numbers_cell_can_hold_ok 9 (sudoku self) y x (range 1 10))
    as (held & Hheld & Hspec); [done..| |].
  { intros v Hv%elem_of_range. lia. }
  cbn [considerEachCell_loop]. rewrite solver_config_size.
  replace (9 + 1) with 10 by done. rewrite Hheld. run.
  assert (Hlive : ∀ e, e ∈ held →
            ¬ ∃ y1 x1, (y1, x1) ∈ (y, x) :: cells ∧ (y1, x1) = (y, x)
                       ∧ dead (sudoku self) y1 x1).
  { intros e He (y1 & x1 & _ & [= -> ->] & Hdead).
    apply Hspec in He as (v & Hv%elem_of_range & -> & Hcan).
    rewrite (canPlace_ok 9 _ Hshaped) in Hcan by (done || lia).
    rewrite Hdead in Hcan by lia. done. }
  assert (Hdead_split : ∀ e, e ∈ held →
            (∃ y1 x1, (y1, x1) ∈ (y, x) :: cells ∧ dead (sudoku self) y1 x1) →
            ∃ y1 x1, (y1, x1) ∈ cells ∧ dead (sudoku self) y1 x1).
  { intros e He (y1 & x1 & [[= -> ->]|Hin]%elem_of_cons & Hdead).
    - exfalso. apply (Hlive e He). exists y, x. split_and!; [left|done..].
    - eauto. }
  destruct held as [|[[y0 x0] v0] [|e2 rest]].
  - exists false, self. split_and!; auto.
  - destruct (proj1 (Hspec (y0, x0, v0)) ltac:(left))
      as (v & Hv%elem_of_range & [= -> -> ->] & Hcan).
    destruct (place_ok 9 (sudoku self) Hshaped y x v)
      as (s' & Hplace & _ & _ & _ & _ & Hbits); [done|done|lia|].
    rewrite Hplace. run.
    match goal with |- context [considerEachCell_loop cells ?self1] =>
      destruct (IH self1) as (valid & self' & Hloop & HInv' & Hsame & Hdead)
    end.
    { cbn [sudoku]. eapply Inv_place; [exact HInv|..|exact Hplace];
        (done || lia). }
    { done. }
    exists valid, self'. split_and!; [done|done| |].
    + intros Hfalse. apply Hsame in Hfalse as [Hfalse _]. done.
    + intros Hex. apply Hdead. cbn [sudoku].
      destruct (Hdead_split _ ltac:(left) Hex) as (y1 & x1 & Hin & Hd).
      exists y1, x1. split; [done|]. intros w Hw.
      destruct (Hcells' y1 x1 Hin).
      specialize (Hd w Hw). apply andb_false_iff in Hd.
      rewrite !Hbits by (done || lia).
      destruct Hd as [-> | ->]; by rewrite ?andb_false_r.
  - set (held := _ :: e2 :: rest) in *.
    assert (Hsound : ∀ g, g ∈ Some <$> held → sound_guess 9 (sudoku self) g).
    { intros g (e & -> & He)%list_elem_of_fmap.
      apply Hspec in He as (v & Hv%elem_of_range & -> & Hcan).
      simpl. split_and!; (done || lia). }
    case_bool_decide as Hshorter.
    + match goal with |- context [considerEachCell_loop cells ?self1] =>
        destruct (IH self1) as (valid & self' & Hloop & HInv' & Hsame & Hdead)
      end; [done..|].
      exists valid, self'. split_and!; [done|done| |].
      * intros Hfalse.
        apply Hsame in Hfalse as (Hfalse & Hsudoku & Hguesses).
        split_and!; [done..|]. intros g Hg.
        destruct (Hguesses g Hg) as [Hg'|Hg']; [|by right].
        right. by apply Hsound.
      * intros Hex. apply Hdead. apply (Hdead_split (y0, x0, v0)); [left|done].
    + destruct (IH self) as (valid & self' & Hloop & HInv' & Hsame & Hdead);
        [done..|].
      exists valid, self'. split_and!; [done|done|done|].
      intros Hex. apply Hdead. apply (Hdead_split (y0, x0, v0)); [left|done].
Qed.

Lemma considerEachCell_ok (self : SudokuSolver) :
  Inv (sudoku self) →
  ∃ valid self',
    considerEachCell self = Ok (valid, self')
    ∧ Inv (sudoku self')
    ∧ (trivial_found self' = false →
         trivial_found self = false ∧ sudoku self' = sudoku self
         ∧ ∀ g, g ∈ best_guesses self' →
             g ∈ best_guesses self ∨ sound_guess 9 (sudoku self) g)
    ∧ ((∃ y x, 0 ≤ y < 9 ∧ 0 ≤ x < 9 ∧ no_candidate 9 (sudoku self) y x) →
       valid = false).
Proof.
  intros HInv. pose proof (Inv_shaped _ HInv) as Hshaped.
  unfold considerEachCell. rewrite solver_config_free_bit.
  destruct (considerEachCell_loop_ok
              (np_where (placability_board (sudoku self)) 1) self HInv)
    as (valid & self' & Hloop & HInv' & Hsame & Hdead).
  { intros y x Hin.
    apply (elem_of_np_where 9) in Hin; [tauto|apply Hshaped]. }
  exists valid, self'. split_and!; [done..|].
  intros (y & x & Hy & Hx & Hfree & Hnone). apply Hdead.
  exists y, x. split.
  - apply (elem_of_np_where 9); [apply Hshaped|].
    split; [done|]. split; [done|]. by apply land_1_testbit.
  - intros v Hv. by rewrite Hnone.
Qed.

Lemma placeTrivials_loop_sound (fuel : nat) (self self' : SudokuSolver)
    (valid : bool) :
  Inv (sudoku self) →
  (trivial_found self = false →
   ∀ g, g ∈ best_guesses self → sound_guess 9 (sudoku self) g) →
  placeTrivials_loop fuel self = Ok (valid, self') →
  Inv (sudoku self')
  ∧ (valid = true →
     ∀ g, g ∈ best_guesses self' → sound_guess 9 (sudoku self') g).
Proof.
  revert self. induction fuel as [|fuel IH]; intros self HInv Hguesses.
  - simpl. destruct (trivial_found self) eqn:Hfound; [done|].
    intros [= <- <-]. auto.
  - cbn [placeTrivials_loop]. destruct (trivial_found self) eqn:Hfound.
    + match goal with |- context [considerEachCell ?self1] =>
        destruct (considerEachCell_ok self1)
          as (valid1 & self2 & -> & HInv2 & Hsame & _)
      end; [done|]. run.
      destruct valid1; simpl.
      * apply IH; [done|]. intros Hfalse g Hg.
        destruct (Hsame Hfalse) as (_ & Hsudoku & Hgs).
        rewrite Hsudoku. destruct (Hgs g Hg) as [Hg'|Hg']; [|done].
        cbn [best_guesses] in Hg'. apply elem_of_replicate in Hg' as [-> _].
        done.
      * intros [= <- <-]. split; [done|]. done.
    + intros [= <- <-]. auto.
Qed.

Lemma try_guesses_sound (P : Sudoku → Prop)
    (solve_new : Sudoku → result outcome) (self : SudokuSolver)
    (guesses : list guess) (b : Sudoku) :
  Inv (sudoku self) →
  (∀ g, g ∈ guesses → sound_guess 9 (sudoku self) g) →
  (∀ new, Inv new → solve_new new = Ok (Solved b) → P b) →
  try_guesses solve_new self guesses = Ok (Solved b) → P b.
Proof.
  intros HInv Hguesses Hrec. induction guesses as [|g guesses IH]; [done|].
  cbn [try_guesses]. intros Htry. inv_bind Htry. inv_bind Htry.
  assert (Hnew : Inv a).
  { specialize (Hguesses g ltac:(left)). unfold makeGuess in Ha.
    destruct g as [[[y x] v]|]; [|done].
    destruct Hguesses as (Hy & Hx & Hv & Hcan).
    eapply (Inv_place (copy (sudoku self))); [..|exact Ha]; try done.
    all: by destruct (sudoku self). }
  destruct a0 as [b'|msg].
  - injection Htry as ->. by apply (Hrec a).
  - apply IH; [|done]. intros g' Hg'. apply Hguesses. by right.
Qed.
End scan.

(** ** Soundness of [solve] *)

Lemma consistent_shaped (s : Sudoku) : consistent 9 s → well_shaped 9 s.
Proof. apply cons_shaped. Qed.

Lemma consistent_place (s : Sudoku) (y x v : Z) (s' : Sudoku) :
  consistent 9 s → 0 ≤ y < 9 → 0 ≤ x < 9 → 1 ≤ v ≤ 9 →
  canPlace s y x v = Ok true → place s y x v = Ok s' → consistent 9 s'.
Proof.
  intros Hs Hy Hx Hv Hcan Hplace.
  destruct (place_consistent 9 s y x v Hs Hy Hx Hv Hcan)
    as (s'' & Hplace' & Hs'' & _).
  congruence.
Qed.

Lemma shaped_place (s : Sudoku) (y x v : Z) (s' : Sudoku) :
  well_shaped 9 s → 0 ≤ y < 9 → 0 ≤ x < 9 → 1 ≤ v ≤ 9 →
  canPlace s y x v = Ok true → place s y x v = Ok s' → well_shaped 9 s'.
Proof.
  intros Hs Hy Hx Hv _ Hplace.
  destruct (place_ok 9 s Hs y x v Hy Hx Hv) as (s'' & Hplace' & Hs'' & _).
  congruence.
Qed.

Lemma solve_sound (fuel : nat) (self : SudokuSolver) (b : Sudoku) :
  consistent 9 (sudoku self) → solve fuel self = Ok (Solved b) →
  consistent 9 b ∧ isSolved b = true.
Proof.
  revert self. induction fuel as [|fuel IH]; intros self Hself; [done|].
  cbn [solve]. intros Hsolve. inv_bind Hsolve. destruct a as [valid self1].
  unfold placeTrivials in Ha.
  apply (placeTrivials_loop_sound (consistent 9) consistent_shaped
           consistent_place) in Ha as [Hself1 Hguesses]; [|done..].
  destruct valid; simpl in Hsolve; [|done].
  destruct (isSolved (sudoku self1)) eqn:Hsolved.
  - injection Hsolve as <-. done.
  - eapply (try_guesses_sound (consistent 9) consistent_place);
      [exact Hself1|by apply Hguesses| |exact Hsolve].
    intros new Hnew Hrec. by apply (IH (SudokuSolver_of new)).
Qed.

(** ** Construction from the input material *)

Lemma enumerate_fmap {A : Type} `{!Inhabited A} (l : list A) :
  enumerate l
  = (λ i, (i, l !!! Z.to_nat i)) <$> range 0 (Z.of_nat (length l)).
Proof.
  unfold enumerate, range. rewrite Z.sub_0_r.
  apply list_eq. intros k. rewrite lookup_zip_with, list_lookup_fmap.
  destruct (decide (k < length l)%nat) as [Hk|Hk].
  - rewrite lookup_seqZ_lt by lia. simpl.
    destruct (lookup_lt_is_Some_2 l k Hk) as [a Ha]. rewrite Ha. simpl.
    rewrite Z.add_0_l, Nat2Z.id.
    by rewrite (list_lookup_total_correct _ _ _ Ha).
  - rewrite lookup_seqZ_ge by lia. done.
Qed.

Lemma fmap_bind_list {A B C : Type} (f : B → C) (g : A → list B)
    (l : list A) :
  f <$> (l ≫= g) = l ≫= (λ a, f <$> g a).
Proof.
  induction l as [|a l IH]; [done|]. csimpl. by rewrite fmap_app, IH.
Qed.

Lemma clues_all_cells (n : Z) (m : matrix) :
  square n m →
  clues m = (λ yx, (yx.1, yx.2, cell m yx.1 yx.2)) <$> all_cells n.
Proof.
  intros Hm. unfold clues, all_cells.
  rewrite enumerate_fmap, list_fmap_bind, fmap_bind_list.
  destruct Hm as [Hlen Hrows]. rewrite Hlen.
  destruct (decide (0 ≤ n)) as [Hn|Hn].
  2:{ unfold range. rewrite !seqZ_nil by lia. done. }
  rewrite Z2Nat.id by done.
  apply Forall_bind_ext, Forall_forall. intros y Hy%elem_of_range. simpl.
  destruct (lookup_lt_is_Some_2 m (Z.to_nat y)) as [row Hrow]; [lia|].
  rewrite (list_lookup_total_correct _ _ _ Hrow).
  pose proof (Forall_lookup_1 _ _ _ _ Hrows Hrow) as Hlrow. simpl in Hlrow.
  rewrite enumerate_fmap, list_fmap_bind, fmap_bind_list, Hlrow.
  rewrite Z2Nat.id by done.
  apply Forall_bind_ext, Forall_forall. intros x Hx%elem_of_range. simpl.
  unfold cell. by rewrite (list_lookup_total_correct _ _ _ Hrow).
Qed.

Lemma elem_of_clues (n : Z) (m : matrix) (y x v : Z) :
  square n m →
  (y, x, v) ∈ clues m ↔ 0 ≤ y < n ∧ 0 ≤ x < n ∧ v = cell m y x.
Proof.
  intros Hm. rewrite (clues_all_cells n m Hm), list_elem_of_fmap. split.
  - intros ([y' x'] & [= -> -> ->] & Hin%elem_of_all_cells). simpl. tauto.
  - intros (Hy & Hx & ->). exists (y, x). split; [done|].
    by apply elem_of_all_cells.
Qed.

Lemma place_clues_consistent (ints : matrix) (s0 s : Sudoku) :
  square 9 ints → consistent 9 s0 → place_clues ints s0 = Ok s →
  consistent 9 s.
Proof.
  intros Hints Hs0. unfold place_clues.
  apply (for_each_partial (λ _ s, consistent 9 s)); [done|].
  intros pre [[y x] v] post s1 s2 Hsplit Hs1.
  assert (Hin : (y, x, v) ∈ clues ints).
  { rewrite Hsplit, elem_of_app, elem_of_cons. auto. }
  apply (elem_of_clues 9) in Hin as (Hy & Hx & Hv); [|done].
  case_bool_decide as Hnum; [congruence|].
  assert (1 ≤ v ≤ 9).
  { change (v ∈ seqZ 1 9) in Hnum. apply elem_of_seqZ in Hnum. lia. }
  intros Hstep. inv_bind Hstep. destruct a; [|done].
  by apply (consistent_place s1 y x v).
Qed.

(** ** The conversion of the input material *)

Lemma verifyInput_row_Ok (row : list pyobj) (zs : list Z) (row' : list pyobj) :
  verifyInput_row row = (Ok zs, row')
  ↔ Forall2 (λ o z, int_ o = Ok z) row zs ∧ row' = PyInt <$> zs.
Proof.
  revert zs row'. induction row as [|o row IH]; intros zs row'; simpl.
  - split.
    + intros [= <- <-]. split; [constructor|done].
    + intros [->%Forall2_nil_inv_l ->]. done.
  - destruct (int_ o) as [z|e|] eqn:Ho.
    + destruct (verifyInput_row row) as [r row''] eqn:Hrow. split.
      * intros [= Hr <-]. destruct r as [zs'| |]; simpl in Hr; [|done..].
        injection Hr as <-. destruct (proj1 (IH zs' row'') eq_refl) as [H ->].
        split; [by constructor|done].
      * intros [Hall ->]. apply Forall2_cons_inv_l in Hall
          as (z' & zs' & Hz & Hall & ->).
        assert (z' = z) as -> by congruence.
        pose proof (proj2 (IH zs' (PyInt <$> zs')) (conj Hall eq_refl))
          as [= -> ->]. done.
    + split; [done|]. intros [Hall _].
      apply Forall2_cons_inv_l in Hall as (z' & zs' & Hz & _). congruence.
    + split; [done|]. intros [Hall _].
      apply Forall2_cons_inv_l in Hall as (z' & zs' & Hz & _). congruence.
Qed.

Lemma verifyInput_rows_Ok (rows : list (list pyobj)) (ints : matrix)
    (rows' : list (list pyobj)) :
  verifyInput_rows rows = (Ok ints, rows')
  ↔ Forall2 (Forall2 (λ o z, int_ o = Ok z)) rows ints
    ∧ rows' = fmap (M:=list) (fmap (M:=list) PyInt) ints.
Proof.
  revert ints rows'. induction rows as [|row rows IH]; intros ints rows'; simpl.
  - split.
    + intros [= <- <-]. split; [constructor|done].
    + intros [->%Forall2_nil_inv_l ->]. done.
  - destruct (verifyInput_row row) as [[zs|e|] row'] eqn:Hrow.
    + apply verifyInput_row_Ok in Hrow as [Hzs ->].
      destruct (verifyInput_rows rows) as [r rows''] eqn:Hrows. split.
      * intros [= Hr <-]. destruct r as [zss| |]; simpl in Hr; [|done..].
        injection Hr as <-. destruct (proj1 (IH zss rows'') eq_refl) as [H ->].
        split; [by constructor|done].
      * intros [Hall ->]. apply Forall2_cons_inv_l in Hall
          as (zs' & zss & Hzs' & Hall & ->).
        assert (zs' = zs) as ->.
        { clear -Hzs Hzs'. revert zs' Hzs'.
          induction Hzs as [|o z row zs Hz _ IHzs]; intros zs' Hzs'.
          - by apply Forall2_nil_inv_l in Hzs'.
          - apply Forall2_cons_inv_l in Hzs' as (z' & zs'' & Hz' & Hzs' & ->).
            f_equal; [congruence|by apply IHzs]. }
        pose proof (proj2 (IH zss _) (conj Hall eq_refl)) as [= -> ->]. done.
    + split; [done|]. intros [Hall _].
      apply Forall2_cons_inv_l in Hall as (zs' & zss & Hzs' & _).
      pose proof (proj2 (verifyInput_row_Ok row zs' _) (conj Hzs' eq_refl)).
      congruence.
    + split; [done|]. intros [Hall _].
      apply Forall2_cons_inv_l in Hall as (zs' & zss & Hzs' & _).
      pose proof (proj2 (verifyInput_row_Ok row zs' _) (conj Hzs' eq_refl)).
      congruence.
Qed.

Lemma np_shape_square (m : list (list pyobj)) (n : Z) :
  0 < n →
  np_shape m = [n; n]
  ↔ length m = Z.to_nat n ∧ Forall (λ row, length row = Z.to_nat n) m.
Proof.
  intros Hn. unfold np_shape. destruct m as [|row m].
  { split; [intros [=]|intros [Hl _]; simpl in Hl; lia]. }
  case_bool_decide as Hrect.
  - split.
    + intros Heq.
      assert (Hl : Z.of_nat (length (row :: m)) = n) by congruence.
      assert (Hrow : Z.of_nat (length row) = n) by congruence.
      split; [lia|].
      eapply Forall_impl; [exact Hrect|]. intros row' Hrow'. simpl in *. lia.
    + intros [Hl Hrows]. apply Forall_cons in Hrows as [Hrow _].
      simpl in *. f_equal; [lia|f_equal; lia].
  - split; [intros [=]|]. intros [Hl Hrows]. exfalso. apply Hrect.
    pose proof Hrows as [Hrow _]%Forall_cons.
    eapply Forall_impl; [exact Hrows|]. intros row' Hrow'. simpl in *. lia.
Qed.

Lemma verifyInput_Ok (m : list (list pyobj)) (ints : matrix)
    (m' : list (list pyobj)) :
  verifyInput m = (Ok ints, m')
  ↔ np_shape m = [9; 9]
    ∧ Forall2 (Forall2 (λ o z, int_ o = Ok z)) m ints
    ∧ m' = fmap (M:=list) (fmap (M:=list) PyInt) ints.
Proof.
  unfold verifyInput. rewrite solver_config_size.
  case_bool_decide as Hshape.
  - split; [done|]. intros [? _]. done.
  - rewrite verifyInput_rows_Ok. tauto.
Qed.

Lemma converted_square (m : list (list pyobj)) (ints : matrix) :
  np_shape m = [9; 9] →
  Forall2 (Forall2 (λ o z, int_ o = Ok z)) m ints → square 9 ints.
Proof.
  intros [Hl Hrows]%np_shape_square Hall; [|done]. split.
  - by rewrite <- (Forall2_length _ _ _ Hall).
  - apply Forall_lookup. intros i zs Hzs.
    destruct (Forall2_lookup_r _ _ _ _ _ Hall Hzs) as (row & Hrow & Hrz).
    rewrite <- (Forall2_length _ _ _ Hrz).
    apply (Forall_lookup_1 _ _ _ _ Hrows Hrow).
Qed.

Lemma SudokuSolver_init_consistent (i : input) (solver : SudokuSolver) :
  input_ok i → (SudokuSolver_init i).1 = Ok solver →
  consistent 9 (sudoku solver).
Proof.
  destruct i as [s|m]; simpl.
  - intros Hs [= <-]. done.
  - intros _. destruct (verifyInput m) as [[ints|e|] m'] eqn:Hverify;
      [|done..].
    apply verifyInput_Ok in Hverify as (Hshape & Hall & _).
    simpl. intros Hinit. inv_bind Hinit. injection Hinit as <-. simpl.
    eapply place_clues_consistent; [|..|exact Ha].
    + by eapply converted_square.
    + apply Sudoku_init_consistent; [apply solver_config_built|lia].
Qed.

Lemma consistent_partition_size (s : Sudoku) :
  consistent 9 s → partition_size (config s) = 3.
Proof.
  intros [[Hcfg _ _] _ _ _ _ _ _].
  pose proof (built_partition _ _ Hcfg). pose proof (built_partition_nonneg _ _ Hcfg).
  nia.
Qed.

(** C1: for every input puzzle, a board that [solve] returns with success is
    fully filled, and each of its rows, columns and blocks contains each
    value of 1..9 exactly once. *)
Theorem solve_returns_solution (i : input) (solver : SudokuSolver)
    (fuel : nat) (board : Sudoku) :
  input_ok i →
  (SudokuSolver_init i).1 = Ok solver →
  solve fuel solver = Ok (Solved board) →
  solution 9 3 (displayable board).
Proof.
  intros Hi Hinit Hsolve.
  apply SudokuSolver_init_consistent in Hinit; [|done].
  destruct (solve_sound fuel solver board Hinit Hsolve) as [Hboard Hsolved].
  rewrite <- (consistent_partition_size board Hboard).
  by apply consistent_solved.
Qed.

(** ** Contradictory boards *)

(** C2: when a free cell of the board has no candidate, [solve] returns the
    failure outcome as a value: it neither raises nor exhausts any bound on
    its loops. *)
Theorem solve_contradictory (self : SudokuSolver) (fuel : nat) :
  well_shaped 9 (sudoku self) →
  (∃ y x, 0 ≤ y < 9 ∧ 0 ≤ x < 9 ∧ no_candidate 9 (sudoku self) y x) →
  solve (S fuel) self = Ok (Unsolvable "the sudoku could not be solved").
Proof.
  intros Hshaped Hdead. cbn [solve]. unfold placeTrivials.
  cbn [placeTrivials_loop trivial_found sudoku].
  match goal with |- context [considerEachCell ?self1] =>
    destruct (considerEachCell_ok (well_shaped 9) (λ s H, H) shaped_place self1)
      as (valid & self' & -> & _ & _ & Hvalid); [done|]
  end.
  rewrite Hvalid by done. done.
Qed.

(** ** Boards that are solved already *)

Lemma np_where_nil (n : Z) (m : matrix) (b : Z) :
  square n m →
  (∀ r c, 0 ≤ r < n → 0 ≤ c < n → Z.land (cell m r c) b = 0) →
  np_where m b = [].
Proof.
  intros Hm Hzero. destruct (np_where m b) as [|[y x] l] eqn:Hw; [done|].
  assert (Hin : (y, x) ∈ np_where m b) by (rewrite Hw; left).
  apply (elem_of_np_where n) in Hin as (Hy & Hx & Hbit); [|done].
  by rewrite Hzero in Hbit.
Qed.

(** A sudoku none of whose cells is free and on which [isSolved] holds is
    returned as it is. *)
Lemma solve_filled (s : Sudoku) (fuel : nat) :
  square 9 (placability_board s) →
  (∀ r c, 0 ≤ r < 9 → 0 ≤ c < 9 → bit (placability_board s) r c 0 = false) →
  isSolved s = true →
  solve (S fuel) (SudokuSolver_of s) = Ok (Solved s).
Proof.
  intros Hboard Hfilled Hsolved. cbn [solve]. unfold placeTrivials.
  cbn [placeTrivials_loop trivial_found sudoku SudokuSolver_of].
  unfold considerEachCell. cbn [sudoku]. rewrite solver_config_free_bit.
  rewrite (np_where_nil 9) by
    (done || (intros r c Hr Hc; replace 1 with (1 ≪ 0) by done;
              apply land_bitmask_zero; [done|by apply Hfilled])).
  cbn [considerEachCell_loop]. run. cbn [negb].
  destruct fuel; cbn [placeTrivials_loop trivial_found]; run;
    cbn [negb sudoku]; by rewrite Hsolved.
Qed.

Lemma solution_cells (n ps : Z) (m : matrix) (r c : Z) :
  solution n ps m → 0 ≤ r < n → 0 ≤ c < n → 1 ≤ cell m r c ≤ n.
Proof. intros (_ & Hfilled & _). apply Hfilled. Qed.

(** The clues of a solution are all placed, one after the other. *)
Lemma place_clues_solution (grid : matrix) :
  solution 9 3 grid →
  ∃ s, place_clues grid (Sudoku_init SudokuSolver_config) = Ok s
       ∧ consistent 9 s ∧ displayable s = grid.
Proof.
  intros Hgrid. pose proof Hgrid as (Hsquare & Hfilled & _).
  unfold place_clues.
  destruct (for_each_total
    (λ pre s, consistent 9 s
              ∧ ∀ r c, 0 ≤ r < 9 → 0 ≤ c < 9 →
                  cell (displayable s) r c
                  = if decide ((r, c, cell grid r c) ∈ pre) then cell grid r c
                    else 0)
    (clues grid)
    (λ '(y, x, number) s,
       if bool_decide (number ∉ [1; 2; 3; 4; 5; 6; 7; 8; 9]) then Ok s
       else
         ok ← canPlace s y x number;
         if ok : bool then place s y x number
         else
           Raise (AttributeError
                    [ArgStr "the laws of sudokus does not recognize this input material as valid!";
                     ArgMaterial grid]))
    (Sudoku_init SudokuSolver_config)) as (s & Hs & Hcons & Hcells).
  - pose proof (Sudoku_init_consistent 9 SudokuSolver_config
                  solver_config_built ltac:(lia)) as Hinit.
    split; [done|]. intros r c Hr Hc.
    rewrite decide_False by (by intros ?%elem_of_nil).
    cbn [displayable Sudoku_init]. rewrite solver_config_size.
    by apply cell_zeros.
  - intros pre [[y x] v] post s Hsplit [Hcons Hcells].
    assert (Hin : (y, x, v) ∈ clues grid).
    { rewrite Hsplit, elem_of_app, elem_of_cons. auto. }
    apply (elem_of_clues 9) in Hin as (Hy & Hx & ->); [|done].
    pose proof (Hfilled y x Hy Hx) as Hv.
    assert (Hfresh : (y, x, cell grid y x) ∉ pre).
    { pose proof (NoDup_all_cells 9) as Hnd.
      apply (NoDup_fmap_2_strong
               (λ yx, (yx.1, yx.2, cell grid yx.1 yx.2))) in Hnd.
      - rewrite <- (clues_all_cells 9 grid Hsquare), Hsplit in Hnd.
        apply NoDup_app in Hnd as (_ & Hnd & _). intros Hpre.
        apply (Hnd _ Hpre). left.
      - intros [r c] [r' c'] _ _ [= -> -> _]. done. }
    rewrite bool_decide_eq_false_2.
    2:{ intros Hnot. apply Hnot. change (cell grid y x ∈ seqZ 1 9).
        apply elem_of_seqZ. lia. }
    pose proof (cons_shaped _ _ Hcons) as Hshaped.
    assert (Hcan : canPlace s y x (cell grid y x) = Ok true).
    { rewrite (canPlace_ok 9 s Hshaped) by (done || lia). f_equal.
      apply andb_true_iff. split.
      - apply (cons_avail _ _ Hcons); [done..|].
        intros r' c' Hr' Hc' Hpeer. rewrite Hcells by done.
        destruct (decide _) as [Hpre|_]; [|lia].
        rewrite (consistent_partition_size s Hcons) in Hpeer.
        intros Heq. symmetry in Heq. revert Heq.
        apply (solution_distinct_peers 9 3 grid y x r' c'); try done.
        intros [= -> ->]. done.
      - apply (cons_free _ _ Hcons); [done..|]. rewrite Hcells by done.
        by rewrite decide_False. }
    rewrite Hcan. run.
    destruct (place_consistent 9 s y x (cell grid y x) Hcons Hy Hx Hv Hcan)
      as (s' & Hplace & Hcons' & _ & _ & Hdisp).
    exists s'. split; [done|]. split; [done|]. intros r c Hr Hc.
    rewrite Hdisp, Hcells by done.
    destruct (decide (r = y ∧ c = x)) as [[-> ->]|Hne].
    + rewrite bool_decide_eq_true_2 by done.
      rewrite decide_True; [done|]. rewrite elem_of_app, elem_of_cons.
      right. by left.
    + rewrite bool_decide_eq_false_2 by done.
      destruct (decide (_ ∈ pre)) as [Hpre|Hpre].
      * rewrite decide_True; [done|]. rewrite elem_of_app. by left.
      * rewrite decide_False; [done|]. rewrite elem_of_app, elem_of_cons.
        intros [?|[[= -> ->]|?%elem_of_nil]]; tauto.
  - exists s. split; [done|]. split; [done|].
    apply (square_ext 9); [apply Hcons|done|].
    intros r c Hr Hc. rewrite Hcells by done.
    rewrite decide_True; [done|]. by apply (elem_of_clues 9).
Qed.

(** ** Deciding whether a grid is a solution *)

Lemma solution_check_correct (n ps : Z) (m : matrix) :
  solution_check n ps m ↔ solution n ps m.
Proof.
  unfold solution_check, solution, square.
  rewrite !Forall_forall. split.
  - intros (Hsq & Hcells & Hunits). split; [done|]. split.
    + intros r c Hr Hc. apply (Hcells (r, c)). by apply elem_of_all_cells.
    + intros u Hu v Hv. specialize (Hunits u Hu).
      rewrite Forall_forall in Hunits. apply Hunits. apply elem_of_seqZ. lia.
  - intros (Hsq & Hcells & Hunits). split; [done|]. split.
    + intros [r c] [Hr Hc]%elem_of_all_cells. by apply Hcells.
    + intros u Hu. apply Forall_forall. intros v Hv%elem_of_seqZ.
      apply Hunits; [done|lia].
Qed.

Lemma solution_by_check (n ps : Z) (m : matrix) :
  bool_decide (solution_check n ps m) = true → solution n ps m.
Proof. intros H%bool_decide_eq_true. by apply solution_check_correct. Qed.

(** ** Solved boards, continued *)

Lemma filter_id {A : Type} (P : A → Prop) `{!∀ x, Decision (P x)}
    (l : list A) :
  (∀ a, a ∈ l → P a) → filter P l = l.
Proof.
  induction l as [|a l IH]; intros Hl; [done|].
  rewrite filter_cons_True by (apply Hl; left). f_equal.
  apply IH. intros b Hb. apply Hl. by right.
Qed.

Lemma verifyInput_ints (grid : matrix) :
  square 9 grid →
  verifyInput (fmap (M:=list) (fmap (M:=list) PyInt) grid)
  = (Ok grid, fmap (M:=list) (fmap (M:=list) PyInt) grid).
Proof.
  intros [Hlen Hrows]. apply verifyInput_Ok. split_and!; [| |done].
  - apply np_shape_square; [done|]. split; [by rewrite length_fmap|].
    apply Forall_fmap. eapply Forall_impl; [exact Hrows|].
    intros row Hrow. simpl. by rewrite length_fmap.
  - apply Forall2_fmap_l, Forall_Forall2_diag, Forall_forall.
    intros row _. apply Forall2_fmap_l, Forall_Forall2_diag, Forall_forall.
    done.
Qed.

(** C8, as the code has it: a 9x9 board that is a solution already passes
    the construction, and [solve] returns it with success and with every cell
    as it was given. *)
Theorem solve_solved_board (grid : matrix) (fuel : nat) :
  solution 9 3 grid →
  ∃ s, (SudokuSolver_init
          (InMaterial (fmap (M:=list) (fmap (M:=list) PyInt) grid))).1
       = Ok (SudokuSolver_of s)
       ∧ displayable s = grid
       ∧ solve (S fuel) (SudokuSolver_of s) = Ok (Solved s).
Proof.
  intros Hgrid. pose proof Hgrid as (Hsquare & Hfilled & _).
  destruct (place_clues_solution grid Hgrid) as (s & Hplace & Hcons & Hdisp).
  exists s. split_and!; [|done|].
  - simpl. rewrite (verifyInput_ints grid Hsquare). simpl.
    by rewrite Hplace.
  - assert (Hnonzero : ∀ r c, 0 ≤ r < 9 → 0 ≤ c < 9 →
              cell (displayable s) r c ≠ 0).
    { intros r c Hr Hc. rewrite Hdisp. specialize (Hfilled r c Hr Hc). lia. }
    apply solve_filled.
    + apply Hcons.
    + intros r c Hr Hc. apply not_true_is_false. intros Hfree.
      apply (cons_free _ _ Hcons) in Hfree; [|done..].
      by apply (Hnonzero r c).
    + unfold isSolved. apply bool_decide_eq_true_2.
      rewrite (cons_count _ _ Hcons).
      rewrite (built_size _ _ (ws_config _ _ (cons_shaped _ _ Hcons))).
      unfold filled_cells. rewrite filter_id.
      * by rewrite length_all_cells.
      * intros [r c] [Hr Hc]%elem_of_all_cells. by apply Hnonzero.
Qed.

(** C8, where the claim fails: the solved 4x4 board of the specification is
    a valid solved board, but the solver is made for the 9x9 configuration
    only; the construction turns the board down with a [ValueError] for its
    shape, and [solve] is never reached. *)
Lemma solved_4x4_is_rejected :
  solution 4 2 solved_4x4
  ∧ (SudokuSolver_init (InMaterial (material_of solved_4x4))).1
    = Raise (ValueError
               "the shape of the input material to a 9x9 sudoku should be (9, 9), not (4, 4)")
  ∧ ¬ returned_unchanged solved_4x4.
Proof.
  assert (Hinit : (SudokuSolver_init (InMaterial (material_of solved_4x4))).1
                  = Raise (ValueError
                             "the shape of the input material to a 9x9 sudoku should be (9, 9), not (4, 4)"))
    by (vm_compute; reflexivity).
  split; [apply solution_by_check; vm_compute; reflexivity|].
  split; [exact Hinit|].
  intros (solver & fuel & b & Hsolver & _). rewrite Hinit in Hsolver.
  discriminate Hsolver.
Qed.

(** ** The masks of a configuration *)

(** C3, as the code has it: the set bits of the mask of a cell and a value
    [v] (of at most 15, the width of the word) are the bit of [v] at every
    cell that shares the row, the column or the block of the cell, the cell
    itself included; the free bit is not in the mask. *)
Theorem availability_mask_bits (size0 : Z) (partition_size0 : option Z)
    (cfg : Configuration) (y x v : Z) :
  Configuration_init size0 partition_size0 = Ok cfg →
  0 ≤ y < size0 → 0 ≤ x < size0 → 1 ≤ v ≤ size0 → v ≤ 15 →
  ∃ M, masks_get (availability_masks cfg) y x v = Ok (Some M)
       ∧ ∀ r c i, 0 ≤ r < size0 → 0 ≤ c < size0 → 0 ≤ i →
           Z.testbit (cell M r c) i = true
           ↔ peer (partition_size cfg) y x r c ∧ i = v.
Proof.
  intros Hcfg Hy Hx Hv H15.
  apply Configuration_init_Ok in Hcfg as [_ Hbuilt].
  destruct (built_masks _ _ Hbuilt y x v Hy Hx Hv) as (M & HM & _ & Hcells).
  exists M. split; [done|]. intros r c i Hr Hc Hi. rewrite Hcells by done.
  destruct (decide (peer _ y x r c)) as [Hpeer|Hpeer].
  - rewrite testbit_uint16, testbit_bitmask by lia.
    rewrite andb_true_iff, Z.ltb_lt, bool_decide_eq_true. split.
    + intros [_ ->]. done.
    + intros [_ ->]. split; [lia|done].
  - rewrite Z.bits_0. split; [done|tauto].
Qed.

(** The mask of the first cell and the value 1 of the 9x9 configuration has
    no free bit at the cell. *)
Lemma availability_mask_without_free_bit :
  ∃ M, masks_get (availability_masks _9x9_configuration) 0 0 1 = Ok (Some M)
       ∧ ¬ mask_with_free_bit 9 3 0 0 1 M.
Proof.
  eexists. split; [vm_compute; reflexivity|].
  intros Hclaim.
  assert (H : Z.testbit 2 0 = true).
  { apply (Hclaim 0 0 0); [lia..|]. left. done. }
  done.
Qed.

(** ** [place] and [unplace] *)

Lemma subword_bits (a b : Z) :
  subword a b ↔ ∀ i, 0 ≤ i → Z.testbit a i = true → Z.testbit b i = true.
Proof.
  unfold subword. split.
  - intros Hab i Hi Ha. rewrite <- Hab, Z.land_spec in Ha.
    by apply andb_true_iff in Ha as [_ ?].
  - intros Hbits. apply Z.bits_inj'. intros i Hi. rewrite Z.land_spec.
    destruct (Z.testbit a i) eqn:Ha; [|done]. by rewrite (Hbits i Hi Ha).
Qed.

(** C9: a call of [place] on a cell and a value of the grid returns, adds one
    to [placed_numbers], and leaves in every cell a word whose set bits were
    set before: no candidate is re-enabled. *)
Theorem place_only_clears (n : Z) (s : Sudoku) (y x number : Z) :
  well_shaped n s → 0 ≤ y < n → 0 ≤ x < n → 1 ≤ number ≤ n →
  ∃ s', place s y x number = Ok s'
        ∧ placed_numbers s' = placed_numbers s + 1
        ∧ ∀ r c, 0 ≤ r < n → 0 ≤ c < n →
            subword (cell (placability_board s') r c)
              (cell (placability_board s) r c).
Proof.
  intros Hs Hy Hx Hn.
  destruct (place_ok n s Hs y x number Hy Hx Hn)
    as (s' & Hplace & _ & _ & Hplaced & _ & Hbits).
  exists s'. split; [done|]. split; [done|]. intros r c Hr Hc.
  apply subword_bits. intros i Hi Hset.
  specialize (Hbits r c i Hr Hc Hi). unfold bit in Hbits.
  rewrite Hbits in Hset. by destruct (Z.testbit (cell (placability_board s) r c) i).
Qed.

(** [unplace] as the code has it: on a cell that holds a number it returns
    without a change, on a free cell it raises. *)
Lemma unplace_behaviour (n : Z) (s : Sudoku) (y x number : Z) :
  well_shaped n s → 0 ≤ y < n → 0 ≤ x < n →
  unplace s y x number
  = if bit (placability_board s) y x 0
    then Raise (AttributeError
                  [ArgStr "'Configuration' object has no attribute 'availability_matrices'"])
    else Ok s.
Proof.
  intros Hs Hy Hx. unfold unplace, bit.
  rewrite (getitem2_ok n) by (done || apply Hs). run.
  rewrite (built_free_bit _ _ (ws_config _ _ Hs)).
  replace 1 with (1 ≪ 0) by done.
  case_bool_decide as Hz.
  - apply land_bitmask_zero in Hz; [|done]. by rewrite Hz.
  - rewrite land_bitmask_zero in Hz by done.
    apply not_false_is_true in Hz. by rewrite Hz.
Qed.

(** C5, at a cell that holds a number: [unplace] leaves the sudoku as it is,
    with the number displayed, the cell occupied and [placed_numbers]
    unchanged; at a free cell it raises. *)
Theorem unplace_occupied_is_noop :
  ∃ s, place (Sudoku_init _9x9_configuration) 0 0 5 = Ok s
       ∧ unplace s 0 0 5 = Ok s
       ∧ cell (displayable s) 0 0 = 5
       ∧ placed_numbers s = 1
       ∧ unplace (Sudoku_init _9x9_configuration) 0 0 5
         = Raise (AttributeError
                    [ArgStr "'Configuration' object has no attribute 'availability_matrices'"]).
Proof.
  eexists. split; [vm_compute; reflexivity|].
  split; [vm_compute; reflexivity|]. split; [vm_compute; reflexivity|].
  split; vm_compute; reflexivity.
Qed.

(** ** Sizes that pass the validation *)

(** The rejections: a size above 100, a size that is not a perfect
    square and a partition size that is not the square root of the size are
    turned down: no configuration is built. *)
Lemma Configuration_init_rejects (size0 : Z) (partition_size0 : option Z) :
  size0 > 100 ∨ ¬ perfect_square size0
  ∨ (∃ p, partition_size0 = Some p ∧ p ≠ Z.sqrt size0) →
  ∃ e, Configuration_init size0 partition_size0 = Raise e.
Proof.
  intros Hbad. apply setParameters_invalid. intros (H100 & Hsq & Hps).
  destruct Hbad as [Hbad|[Hbad|(p & -> & Hp)]]; [lia|done|].
  destruct Hps as [|[= ->]]; done.
Qed.

(** The sizes for which construction succeeds: the valid ones up to 49. *)
Lemma Configuration_init_succeeds (size0 : Z) (partition_size0 : option Z) :
  (∃ cfg, Configuration_init size0 partition_size0 = Ok cfg)
  ↔ valid_parameters size0 partition_size0 ∧ size0 ≤ 49.
Proof.
  split.
  - intros (cfg & Hcfg). apply Configuration_init_Ok in Hcfg as [Hv Hb].
    split; [done|]. apply (built_size_range _ _ Hb).
  - intros [Hv H49]. destruct (setParameters_small _ _ Hv H49) as (cfg & ? & _).
    by exists cfg.
Qed.

(** C6, where the code fails: the size 64 with the partition size 8 passes
    the three tests of the validation, and the construction raises. *)
Theorem Configuration_64_fails :
  validateParameters 64 (Some 8) = Ok (64, 8)
  ∧ Configuration_init 64 (Some 8) = Raise OverflowError
  ∧ Configuration_init 64 None = Raise OverflowError.
Proof.
  split; [done|]. unfold Configuration_init.
  rewrite (setParameters_partition_size 64 (Some 8)).
  - split; apply setParameters_64.
  - split; [lia|]. split; [by split|by right].
Qed.

(** ** The clues of the input material *)

Section clue_loop.
Variable material : list (list Z).

Let body : Z * Z * Z → Sudoku → result Sudoku :=
  λ '(y, x, number) s,
    if bool_decide (number ∉ [1; 2; 3; 4; 5; 6; 7; 8; 9]) then Ok s
    else
      ok ← canPlace s y x number;
      if ok : bool then place s y x number
      else
        Raise (AttributeError
                 [ArgStr "the laws of sudokus does not recognize this input material as valid!";
                  ArgMaterial material]).

Lemma clue_loop_body (y x number : Z) (s : Sudoku) :
  body (y, x, number) s
  = if bool_decide (number ∉ [1; 2; 3; 4; 5; 6; 7; 8; 9]) then Ok s
    else
      ok ← canPlace s y x number;
      if ok : bool then place s y x number
      else
        Raise (AttributeError
                 [ArgStr "the laws of sudokus does not recognize this input material as valid!";
                  ArgMaterial material]).
Proof. done. Qed.

Lemma clue_loop_steps (l : list (Z * Z * Z)) (s0 s : Sudoku) :
  for_each l body s0 = Ok s → clue_steps s0 l s.
Proof.
  revert s0. induction l as [|[[y x] number] l IH]; intros s0 Hrun.
  - injection Hrun as ->. constructor.
  - cbn [for_each] in Hrun. inv_bind Hrun. rewrite clue_loop_body in Ha.
    case_bool_decide as Hnum.
    + injection Ha as ->. apply clue_steps_skip; [done|by apply IH].
    + inv_bind Ha. destruct a0; [|done].
      eapply clue_steps_place; [done|done|exact Ha|by apply IH].
Qed.

Lemma clue_loop_conflict (pre post : list (Z * Z * Z)) (y x number : Z)
    (s0 s1 : Sudoku) :
  clue_steps s0 pre s1 → is_clue number →
  canPlace s1 y x number = Ok false →
  for_each (pre ++ (y, x, number) :: post) body s0
  = Raise (AttributeError
             [ArgStr "the laws of sudokus does not recognize this input material as valid!";
              ArgMaterial material]).
Proof.
  intros Hsteps Hclue Hcan.
  induction Hsteps as [s|s s' y' x' n' l Hn' _ IH
                        |s s1' s' y' x' n' l Hn' Hcan' Hplace _ IH].
  - cbn [app for_each]. rewrite clue_loop_body.
    rewrite bool_decide_eq_false_2 by (intros Hnot; by apply Hnot).
    rewrite Hcan. done.
  - cbn [app for_each]. rewrite clue_loop_body.
    rewrite bool_decide_eq_true_2 by done. run. by apply IH.
  - cbn [app for_each]. rewrite clue_loop_body.
    rewrite bool_decide_eq_false_2 by (intros Hnot; by apply Hnot).
    rewrite Hcan'. run. rewrite Hplace. run. by apply IH.
Qed.
End clue_loop.

(** C7, as the code has it: the clues are applied by [place], each after
    [canPlace] accepted it; at the first clue that [canPlace] turns down the
    construction raises an [AttributeError] that carries a fixed message and
    the whole converted input material. *)
Theorem construction_guards_clues (m : list (list pyobj)) (ints : matrix)
    (m' : list (list pyobj)) :
  verifyInput m = (Ok ints, m') →
  (∀ solver, (SudokuSolver_init (InMaterial m)).1 = Ok solver →
     clue_steps (Sudoku_init SudokuSolver_config) (clues ints) (sudoku solver))
  ∧ (∀ pre y x number post s1,
       clues ints = pre ++ (y, x, number) :: post →
       clue_steps (Sudoku_init SudokuSolver_config) pre s1 →
       is_clue number → canPlace s1 y x number = Ok false →
       (SudokuSolver_init (InMaterial m)).1
       = Raise (AttributeError
                  [ArgStr "the laws of sudokus does not recognize this input material as valid!";
                   ArgMaterial ints])).
Proof.
  intros Hverify. cbn [SudokuSolver_init]. rewrite Hverify. cbn [fst].
  unfold place_clues. split.
  - intros solver Hinit. inv_bind Hinit. injection Hinit as <-.
    cbn [sudoku]. by apply (clue_loop_steps ints).
  - intros pre y x number post s1 -> Hsteps Hclue Hcan.
    by rewrite (clue_loop_conflict ints pre post y x number _ s1).
Qed.

(** ** The error of a conflicting clue *)

Lemma is_clue_range (number : Z) : is_clue number ↔ 1 ≤ number ≤ 9.
Proof.
  unfold is_clue. change [1; 2; 3; 4; 5; 6; 7; 8; 9] with (seqZ 1 9).
  rewrite elem_of_seqZ. lia.
Qed.

(** C7, where the claim fails: the second 5 of the first row is turned down,
    and the exception that the construction raises names no cell. *)
Lemma two_fives_error_names_no_cell :
  ¬ error_names_offending_cell (material_of two_fives).
Proof.
  intros Hclaim.
  edestruct (Hclaim two_fives (material_of two_fives) [(0, 0, 5)] 0 1 5)
    as (e & Hinit & Hnames).
  - vm_compute. reflexivity.
  - vm_compute. reflexivity.
  - eapply clue_steps_place.
    + apply is_clue_range. lia.
    + vm_compute. reflexivity.
    + vm_compute. reflexivity.
    + apply clue_steps_nil.
  - apply is_clue_range. lia.
  - vm_compute. reflexivity.
  - vm_compute in Hinit. injection Hinit as <-.
    unfold names_cell, exception_args in Hnames.
    apply elem_of_cons in Hnames as [Hnames|Hnames]; [discriminate|].
    apply elem_of_cons in Hnames as [Hnames|Hnames]; [discriminate|].
    by apply elem_of_nil in Hnames.
Qed.

(** ** The conversion of the entries *)

Lemma verifyInput_row_cases (row : list pyobj) :
  (∃ zs row', verifyInput_row row = (Ok zs, row'))
  ∨ (∃ e row', verifyInput_row row = (Raise e, row')).
Proof.
  induction row as [|o row IH]; simpl; [left; by eexists _, _|].
  destruct o as [z|repr z|repr e]; simpl; [| |right; by eexists _, _].
  - destruct (verifyInput_row row) as [r row''].
    destruct IH as [(zs & ? & [= -> _])|(e & ? & [= -> _])]; simpl;
      [left|right]; by eexists _, _.
  - destruct (verifyInput_row row) as [r row''].
    destruct IH as [(zs & ? & [= -> _])|(e & ? & [= -> _])]; simpl;
      [left|right]; by eexists _, _.
Qed.

Lemma verifyInput_rows_cases (rows : list (list pyobj)) :
  (∃ ints rows', verifyInput_rows rows = (Ok ints, rows'))
  ∨ (∃ e rows', verifyInput_rows rows = (Raise e, rows')).
Proof.
  induction rows as [|row rows IH]; simpl; [left; by eexists _, _|].
  destruct (verifyInput_row_cases row) as [(zs & row' & ->)|(e & row' & ->)];
    [|right; by eexists _, _].
  destruct (verifyInput_rows rows) as [r rows''].
  destruct IH as [(zss & ? & [= -> _])|(e & ? & [= -> _])]; simpl;
    [left|right]; by eexists _, _.
Qed.

(** C10: the construction from a list of lists of the right shape leaves in
    the caller's array the integer [int(entry)] in the place of every entry
    and applies the clues of the converted array; it fails when an entry
    cannot be converted. *)
Theorem construction_converts_in_place (m : list (list pyobj)) :
  np_shape m = [9; 9] →
  (∀ ints, Forall2 (Forall2 (λ o z, int_ o = Ok z)) m ints →
     SudokuSolver_init (InMaterial m)
     = (s ← place_clues ints (Sudoku_init SudokuSolver_config);
        Ok (SudokuSolver_of s),
        InMaterial (material_of ints)))
  ∧ (Exists (Exists (λ o, ∀ z, int_ o ≠ Ok z)) m →
     ∃ e m', SudokuSolver_init (InMaterial m) = (Raise e, InMaterial m')).
Proof.
  intros Hshape. split.
  - intros ints Hints. cbn [SudokuSolver_init].
    by rewrite (proj2 (verifyInput_Ok m ints (material_of ints))).
  - intros Hbad. cbn [SudokuSolver_init]. unfold verifyInput.
    rewrite solver_config_size, bool_decide_eq_false_2 by auto.
    destruct (verifyInput_rows_cases m) as [(ints & m' & Hm)|(e & m' & Hm)].
    + exfalso. apply verifyInput_rows_Ok in Hm as [Hall _].
      apply Exists_exists in Hbad as (row & Hrow & Hbad).
      apply list_elem_of_lookup in Hrow as [i Hi].
      destruct (Forall2_lookup_l _ _ _ _ _ Hall Hi) as (zs & _ & Hzs).
      apply Exists_exists in Hbad as (o & Ho & Hbad).
      apply list_elem_of_lookup in Ho as [j Hj].
      destruct (Forall2_lookup_l _ _ _ _ _ Hzs Hj) as (z & _ & Hz).
      by apply (Hbad z).
    + rewrite Hm. by eexists _, _.
Qed.

(** ** More fuel does not change an outcome *)

Lemma placeTrivials_loop_mono (fuel fuel' : nat) (self : SudokuSolver) :
  (fuel ≤ fuel')%nat → placeTrivials_loop fuel self ≠ OutOfFuel →
  placeTrivials_loop fuel' self = placeTrivials_loop fuel self.
Proof.
  revert fuel' self. induction fuel as [|fuel IH]; intros fuel' self Hle.
  - simpl. destruct fuel'; simpl; by destruct (trivial_found self).
  - destruct fuel' as [|fuel']; [lia|]. cbn [placeTrivials_loop].
    destruct (trivial_found self); [|done].
    destruct (considerEachCell _) as [[valid self2]| |]; cbn; [|done..].
    destruct valid; cbn; [|done]. apply IH. lia.
Qed.

Lemma try_guesses_mono (f g : Sudoku → result outcome) (self : SudokuSolver)
    (guesses : list guess) :
  (∀ new, f new ≠ OutOfFuel → g new = f new) →
  try_guesses f self guesses ≠ OutOfFuel →
  try_guesses g self guesses = try_guesses f self guesses.
Proof.
  intros Hfg. induction guesses as [|guess guesses IH]; [done|].
  cbn [try_guesses]. destruct (makeGuess self guess) as [new| |]; cbn; [|done..].
  destruct (f new) as [r| |] eqn:Hf; cbn.
  - rewrite Hfg, Hf by (by rewrite Hf). cbn. destruct r; [done|]. apply IH.
  - rewrite Hfg, Hf by (by rewrite Hf). done.
  - done.
Qed.

Lemma solve_mono (fuel fuel' : nat) (self : SudokuSolver) :
  (fuel ≤ fuel')%nat → solve fuel self ≠ OutOfFuel →
  solve fuel' self = solve fuel self.
Proof.
  revert fuel' self. induction fuel as [|fuel IH]; intros fuel' self Hle;
    [done|].
  destruct fuel' as [|fuel']; [lia|]. cbn [solve]. unfold placeTrivials.
  set (self0 := {| sudoku := sudoku self; trivial_found := true;
                   best_guesses := best_guesses self |}).
  intros Hfin.
  rewrite (placeTrivials_loop_mono (S fuel) (S fuel') self0); [|lia|].
  2:{ intros Hout. by rewrite Hout in Hfin. }
  destruct (placeTrivials_loop (S fuel) self0) as [[valid self1]| |];
    [|done..].
  revert Hfin. run. destruct valid; cbn [negb]; [|done].
  destruct (isSolved (sudoku self1)); [done|].
  apply try_guesses_mono. intros new. apply IH. lia.
Qed.

(** ** The guesses on the empty board *)

Lemma empty_solver_solve_1 :
  solve 1 empty_solver
  = Raise (TypeError
             "place() argument after * must be an iterable, not NoneType").
Proof. vm_compute. reflexivity. Qed.

(** C4, where the code fails: on the empty board the propagation ends
    without a contradiction and without a solution, [best_guesses] is still
    the list of nine placeholders, and the first guess raises. *)
Theorem empty_board_guesses_are_placeholders :
  ∃ self,
    (SudokuSolver_init (InMaterial (material_of (zeros 9 9)))).1
    = Ok empty_solver
    ∧ placeTrivials 1 empty_solver = Ok (true, self)
    ∧ isSolved (sudoku self) = false
    ∧ best_guesses self = replicate 9 None
    ∧ ∀ fuel, solve (S fuel) empty_solver
        = Raise (TypeError
                   "place() argument after * must be an iterable, not NoneType").
Proof.
  eexists. split; [vm_compute; reflexivity|].
  split; [vm_compute; reflexivity|].
  split; [vm_compute; reflexivity|].
  split; [vm_compute; reflexivity|].
  intros fuel. rewrite (solve_mono 1 (S fuel)); [|lia|].
  - apply empty_solver_solve_1.
  - rewrite empty_solver_solve_1. discriminate.
Qed.

(** ** The theorems at concrete inputs *)

Lemma main_solver_init :
  (SudokuSolver_init (InMaterial (material_of main_material))).1
  = Ok main_solver.
Proof. vm_compute. reflexivity. Qed.

Lemma main_solver_solve : solve 82 main_solver = Ok (Solved main_board).
Proof. vm_compute. reflexivity. Qed.

Lemma solve_returns_solution_witness :
  input_ok (InMaterial (material_of main_material))
  ∧ (SudokuSolver_init (InMaterial (material_of main_material))).1
    = Ok main_solver
  ∧ solve 82 main_solver = Ok (Solved main_board)
  ∧ solution 9 3 (displayable main_board).
Proof.
  split; [exact I|]. split; [exact main_solver_init|].
  split; [exact main_solver_solve|].
  exact (solve_returns_solution (InMaterial (material_of main_material))
           main_solver 82 main_board I main_solver_init main_solver_solve).
Defined.

Lemma dead_end_solver_init :
  (SudokuSolver_init (InMaterial (material_of dead_end))).1
  = Ok dead_end_solver.
Proof. vm_compute. reflexivity. Qed.

Lemma dead_end_shaped : well_shaped 9 (sudoku dead_end_solver).
Proof.
  apply cons_shaped.
  exact (SudokuSolver_init_consistent (InMaterial (material_of dead_end))
           dead_end_solver I dead_end_solver_init).
Qed.

Lemma dead_end_no_candidate :
  ∃ y x, 0 ≤ y < 9 ∧ 0 ≤ x < 9
         ∧ no_candidate 9 (sudoku dead_end_solver) y x.
Proof.
  exists 0, 8. split; [lia|]. split; [lia|]. split.
  - vm_compute. reflexivity.
  - intros v Hv.
    assert (v = 1 ∨ v = 2 ∨ v = 3 ∨ v = 4 ∨ v = 5 ∨ v = 6 ∨ v = 7
            ∨ v = 8 ∨ v = 9) as Hcases by lia.
    repeat (destruct Hcases as [->|Hcases]; [vm_compute; reflexivity|]).
    subst v. vm_compute. reflexivity.
Qed.

Lemma solve_contradictory_witness :
  well_shaped 9 (sudoku dead_end_solver)
  ∧ (∃ y x, 0 ≤ y < 9 ∧ 0 ≤ x < 9
            ∧ no_candidate 9 (sudoku dead_end_solver) y x)
  ∧ solve 1 dead_end_solver
    = Ok (Unsolvable "the sudoku could not be solved").
Proof.
  split; [exact dead_end_shaped|]. split; [exact dead_end_no_candidate|].
  exact (solve_contradictory dead_end_solver 0 dead_end_shaped
           dead_end_no_candidate).
Defined.

Lemma main_solution_solution : solution 9 3 main_solution.
Proof. apply solution_by_check. vm_compute. reflexivity. Qed.

Lemma solve_solved_board_witness :
  solution 9 3 main_solution
  ∧ ∃ s, (SudokuSolver_init (InMaterial (material_of main_solution))).1
         = Ok (SudokuSolver_of s)
         ∧ displayable s = main_solution
         ∧ solve 1 (SudokuSolver_of s) = Ok (Solved s).
Proof.
  split; [exact main_solution_solution|].
  exact (solve_solved_board main_solution 0 main_solution_solution).
Defined.

Lemma Configuration_9_init : Configuration_init 9 None = Ok _9x9_configuration.
Proof. apply Configuration_9_built. Qed.

Lemma availability_mask_bits_witness :
  Configuration_init 9 None = Ok _9x9_configuration
  ∧ ∃ M, masks_get (availability_masks _9x9_configuration) 1 2 6
         = Ok (Some M)
         ∧ ∀ r c i, 0 ≤ r < 9 → 0 ≤ c < 9 → 0 ≤ i →
             Z.testbit (cell M r c) i = true
             ↔ peer (partition_size _9x9_configuration) 1 2 r c ∧ i = 6.
Proof.
  split; [exact Configuration_9_init|].
  apply (availability_mask_bits 9 None _9x9_configuration 1 2 6
           Configuration_9_init); lia.
Defined.

Lemma empty_sudoku_shaped : well_shaped 9 (Sudoku_init _9x9_configuration).
Proof.
  apply cons_shaped, Sudoku_init_consistent; [apply Configuration_9_built|lia].
Qed.

Lemma place_only_clears_witness :
  well_shaped 9 (Sudoku_init _9x9_configuration)
  ∧ ∃ s', place (Sudoku_init _9x9_configuration) 0 0 5 = Ok s'
          ∧ placed_numbers s'
            = placed_numbers (Sudoku_init _9x9_configuration) + 1
          ∧ ∀ r c, 0 ≤ r < 9 → 0 ≤ c < 9 →
              subword (cell (placability_board s') r c)
                (cell (placability_board (Sudoku_init _9x9_configuration))
                   r c).
Proof.
  split; [exact empty_sudoku_shaped|].
  apply (place_only_clears 9 (Sudoku_init _9x9_configuration) 0 0 5
           empty_sudoku_shaped); lia.
Defined.

Lemma two_fives_verified :
  verifyInput (material_of two_fives) = (Ok two_fives, material_of two_fives).
Proof. vm_compute. reflexivity. Qed.

Lemma construction_guards_clues_witness :
  verifyInput (material_of two_fives) = (Ok two_fives, material_of two_fives)
  ∧ (∀ solver,
       (SudokuSolver_init (InMaterial (material_of two_fives))).1 = Ok solver →
       clue_steps (Sudoku_init SudokuSolver_config) (clues two_fives)
         (sudoku solver))
  ∧ (∀ pre y x number post s1,
       clues two_fives = pre ++ (y, x, number) :: post →
       clue_steps (Sudoku_init SudokuSolver_config) pre s1 →
       is_clue number → canPlace s1 y x number = Ok false →
       (SudokuSolver_init (InMaterial (material_of two_fives))).1
       = Raise (AttributeError
                  [ArgStr "the laws of sudokus does not recognize this input material as valid!";
                   ArgMaterial two_fives])).
Proof.
  split; [exact two_fives_verified|].
  exact (construction_guards_clues (material_of two_fives) two_fives
           (material_of two_fives) two_fives_verified).
Defined.

Lemma main_material_shape : np_shape (material_of main_material) = [9; 9].
Proof. vm_compute. reflexivity. Qed.

Lemma construction_converts_in_place_witness :
  np_shape (material_of main_material) = [9; 9]
  ∧ (∀ ints,
       Forall2 (Forall2 (λ o z, int_ o = Ok z)) (material_of main_material)
         ints →
       SudokuSolver_init (InMaterial (material_of main_material))
       = (s ← place_clues ints (Sudoku_init SudokuSolver_config);
          Ok (SudokuSolver_of s),
          InMaterial (material_of ints)))
  ∧ (Exists (Exists (λ o, ∀ z, int_ o ≠ Ok z)) (material_of main_material) →
     ∃ e m', SudokuSolver_init (InMaterial (material_of main_material))
             = (Raise e, InMaterial m')).
Proof.
  split; [exact main_material_shape|].
  exact (construction_converts_in_place (material_of main_material)
           main_material_shape).
Defined.

(** * Further properties of the code *)

(** ** Validation of the parameters *)

(** X1: [validateParameters] returns for a size of at most 100 that is a
    perfect square, with no partition size or with the square root of the
    size as the partition size, and then it returns the size and the square
    root; all other arguments raise. *)
Theorem validateParameters_Ok_iff (size0 : Z) (partition_size0 : option Z)
    (r : Z * Z) :
  validateParameters size0 partition_size0 = Ok r
  ↔ valid_parameters size0 partition_size0 ∧ r = (size0, Z.sqrt size0).
Proof.
  split.
  - intros Hr. destruct (decide (valid_parameters size0 partition_size0))
      as [Hv|Hv].
    + rewrite (validateParameters_valid _ _ Hv) in Hr. split; congruence.
    + destruct (validateParameters_invalid _ _ Hv) as (e & He). congruence.
  - intros [Hv ->]. by apply validateParameters_valid.
Qed.

(** X2: a negative size is not turned down by the [ValueError] of the
    validation: the test of the square root raises an [AttributeError] (the
    root is a complex number), or an [OverflowError] for a size that does not
    fit a float. *)
Theorem validateParameters_negative (size0 : Z) (partition_size0 : option Z) :
  size0 < 0 →
  validateParameters size0 partition_size0
  = Raise (AttributeError
             [ArgStr "'complex' object has no attribute 'is_integer'"])
  ∨ validateParameters size0 partition_size0 = Raise OverflowError.
Proof.
  intros Hneg. unfold validateParameters, sqrt_is_integer.
  rewrite (bool_decide_eq_false_2 (size0 > 10 ^ 2)) by lia.
  rewrite (bool_decide_eq_true_2 (size0 < 0)) by done.
  destruct (bool_decide (- (2 ^ 1024 - 2 ^ 970) < size0)); [by left|by right].
Qed.

Lemma validateParameters_negative_witness :
  -4 < 0
  ∧ (validateParameters (-4) None
     = Raise (AttributeError
                [ArgStr "'complex' object has no attribute 'is_integer'"])
     ∨ validateParameters (-4) None = Raise OverflowError).
Proof.
  split; [lia|]. apply (validateParameters_negative (-4) None). lia.
Defined.

(** ** The table of the masks *)

(** X3: the masks are symmetric: the mask of the cell [(y, x)] excludes a
    value at the cell [(r, c)] exactly when the mask of [(r, c)] excludes it
    at [(y, x)]. *)
Theorem availability_masks_symmetric (size0 : Z) (partition_size0 : option Z)
    (cfg : Configuration) (y x r c v : Z) (M M' : matrix) :
  Configuration_init size0 partition_size0 = Ok cfg →
  0 ≤ y < size0 → 0 ≤ x < size0 → 0 ≤ r < size0 → 0 ≤ c < size0 →
  1 ≤ v ≤ size0 →
  masks_get (availability_masks cfg) y x v = Ok (Some M) →
  masks_get (availability_masks cfg) r c v = Ok (Some M') →
  cell M r c = cell M' y x.
Proof.
  intros Hcfg Hy Hx Hr Hc Hv HM HM'.
  apply Configuration_init_Ok in Hcfg as [_ Hbuilt].
  destruct (built_masks _ _ Hbuilt y x v Hy Hx Hv) as (M1 & HM1 & _ & Hcells).
  destruct (built_masks _ _ Hbuilt r c v Hr Hc Hv) as (M2 & HM2 & _ & Hcells').
  assert (M1 = M) as -> by congruence. assert (M2 = M') as -> by congruence.
  rewrite Hcells, Hcells' by done.
  destruct (decide (peer _ y x r c)) as [Hp|Hp].
  - by rewrite decide_True by (by apply peer_sym).
  - rewrite decide_False; [done|]. intros Hp'. by apply Hp, peer_sym.
Qed.

Lemma mask_1_2_6 :
  masks_get (availability_masks _9x9_configuration) 1 2 6
  = Ok (Some (mask_of _9x9_configuration 1 2 6)).
Proof. vm_compute. reflexivity. Qed.

Lemma mask_2_8_6 :
  masks_get (availability_masks _9x9_configuration) 2 8 6
  = Ok (Some (mask_of _9x9_configuration 2 8 6)).
Proof. vm_compute. reflexivity. Qed.

Lemma availability_masks_symmetric_witness :
  Configuration_init 9 None = Ok _9x9_configuration
  ∧ masks_get (availability_masks _9x9_configuration) 1 2 6
    = Ok (Some (mask_of _9x9_configuration 1 2 6))
  ∧ masks_get (availability_masks _9x9_configuration) 2 8 6
    = Ok (Some (mask_of _9x9_configuration 2 8 6))
  ∧ cell (mask_of _9x9_configuration 1 2 6) 2 8
    = cell (mask_of _9x9_configuration 2 8 6) 1 2.
Proof.
  split; [exact Configuration_9_init|]. split; [exact mask_1_2_6|].
  split; [exact mask_2_8_6|].
  apply (availability_masks_symmetric 9 None _9x9_configuration 1 2 2 8 6
           _ _ Configuration_9_init); try lia.
  - exact mask_1_2_6.
  - exact mask_2_8_6.
Defined.

(** ** The operations of a sudoku, continued *)

(** X4: on the sudoku that [Sudoku.__init__] makes for a configuration with
    a size below 16, nothing is placed and every number of the grid can be
    placed on every cell. *)
Theorem empty_sudoku_accepts_all (size0 : Z) (partition_size0 : option Z)
    (cfg : Configuration) (y x v : Z) :
  Configuration_init size0 partition_size0 = Ok cfg → size0 < 16 →
  0 ≤ y < size0 → 0 ≤ x < size0 → 1 ≤ v ≤ size0 →
  canPlace (Sudoku_init cfg) y x v = Ok true
  ∧ cell (displayable (Sudoku_init cfg)) y x = 0
  ∧ placed_numbers (Sudoku_init cfg) = 0.
Proof.
  intros Hcfg H16 Hy Hx Hv.
  apply Configuration_init_Ok in Hcfg as [_ Hbuilt].
  pose proof (Sudoku_init_consistent size0 cfg Hbuilt H16) as Hcons.
  assert (Hzero : cell (displayable (Sudoku_init cfg)) y x = 0).
  { cbn [displayable Sudoku_init]. rewrite (built_size _ _ Hbuilt).
    by apply cell_zeros. }
  split; [|done].
  rewrite (canPlace_ok size0 _ (cons_shaped _ _ Hcons)) by (done || lia).
  f_equal. apply andb_true_iff. split.
  - apply (cons_avail _ _ Hcons); [done..|]. intros r' c' Hr' Hc' _.
    cbn [displayable Sudoku_init]. rewrite (built_size _ _ Hbuilt).
    rewrite cell_zeros by done. lia.
  - by apply (cons_free _ _ Hcons).
Qed.

Lemma empty_sudoku_accepts_all_witness :
  Configuration_init 9 None = Ok _9x9_configuration ∧ 9 < 16
  ∧ canPlace (Sudoku_init _9x9_configuration) 4 4 7 = Ok true
  ∧ cell (displayable (Sudoku_init _9x9_configuration)) 4 4 = 0
  ∧ placed_numbers (Sudoku_init _9x9_configuration) = 0.
Proof.
  split; [exact Configuration_9_init|]. split; [lia|].
  apply (empty_sudoku_accepts_all 9 None _9x9_configuration 4 4 7
           Configuration_9_init); lia.
Defined.

Lemma getitem_negative {A : Type} (l : list A) (i : Z) :
  - Z.of_nat (length l) ≤ i < 0 →
  getitem l i = getitem l (i + Z.of_nat (length l)).
Proof.
  intros Hi. unfold getitem, norm_index.
  rewrite (bool_decide_eq_true_2 (i < 0)) by lia.
  rewrite (bool_decide_eq_false_2 (i + Z.of_nat (length l) < 0)) by lia.
  done.
Qed.

Lemma getitem_out_of_range {A : Type} (l : list A) (i : Z) :
  i < - Z.of_nat (length l) ∨ Z.of_nat (length l) ≤ i →
  getitem l i = Raise IndexError.
Proof.
  intros Hi. unfold getitem, norm_index.
  destruct (bool_decide (i < 0)) eqn:Hneg.
  - apply bool_decide_eq_true in Hneg.
    rewrite bool_decide_eq_false_2 by lia. done.
  - apply bool_decide_eq_false in Hneg.
    rewrite bool_decide_eq_false_2 by lia. done.
Qed.

(** X5: the row index of [canPlace] is a Python index: a negative index of
    at least [-n] addresses the row counted from the end, without an error,
    and an index outside of [-n..n-1] raises [IndexError]. *)
Theorem canPlace_row_index (n : Z) (s : Sudoku) (y x number : Z) :
  well_shaped n s →
  (- n ≤ y < 0 → canPlace s y x number = canPlace s (y + n) x number)
  ∧ (y < - n ∨ n ≤ y → canPlace s y x number = Raise IndexError).
Proof.
  intros Hs. destruct (ws_board _ _ Hs) as [Hlen _].
  pose proof (built_size_range _ _ (ws_config _ _ Hs)) as Hn.
  split.
  - intros Hy. unfold canPlace, getitem2.
    rewrite (getitem_negative (placability_board s) y) by lia.
    rewrite Hlen, Z2Nat.id by lia. done.
  - intros Hy. unfold canPlace, getitem2.
    rewrite (getitem_out_of_range (placability_board s) y) by lia. done.
Qed.

Lemma canPlace_row_index_witness :
  well_shaped 9 (Sudoku_init _9x9_configuration)
  ∧ (- 9 ≤ -1 < 0 →
     canPlace (Sudoku_init _9x9_configuration) (-1) 0 5
     = canPlace (Sudoku_init _9x9_configuration) (-1 + 9) 0 5)
  ∧ (9 < - 9 ∨ 9 ≤ 9 →
     canPlace (Sudoku_init _9x9_configuration) 9 0 5 = Raise IndexError).
Proof.
  split; [exact empty_sudoku_shaped|]. split.
  - apply (canPlace_row_index 9 (Sudoku_init _9x9_configuration) (-1) 0 5
             empty_sudoku_shaped).
  - apply (canPlace_row_index 9 (Sudoku_init _9x9_configuration) 9 0 5
             empty_sudoku_shaped).
Defined.

(** X6: after [place] put a value on a cell of the grid (side below 16), no
    number can be placed on that cell, the value can be placed on no peer of
    the cell, and [canPlace] answers as before for every other cell and
    number. *)
Theorem place_excludes (n : Z) (s s' : Sudoku) (y x v : Z) :
  well_shaped n s → n < 16 →
  0 ≤ y < n → 0 ≤ x < n → 1 ≤ v ≤ n →
  place s y x v = Ok s' →
  (∀ w, 0 ≤ w ≤ n → canPlace s' y x w = Ok false)
  ∧ (∀ r c, 0 ≤ r < n → 0 ≤ c < n →
       peer (partition_size (config s)) y x r c →
       canPlace s' r c v = Ok false)
  ∧ (∀ r c w, 0 ≤ r < n → 0 ≤ c < n → 1 ≤ w ≤ n →
       (r, c) ≠ (y, x) →
       ¬ (peer (partition_size (config s)) y x r c ∧ w = v) →
       canPlace s' r c w = canPlace s r c w).
Proof.
  intros Hs H16 Hy Hx Hv Hplace.
  destruct (place_ok n s Hs y x v Hy Hx Hv)
    as (s1 & Hplace1 & Hs' & _ & _ & _ & Hbits).
  assert (s1 = s') as -> by congruence. split_and!.
  - intros w Hw. rewrite (canPlace_ok n s' Hs') by done. f_equal.
    rewrite (Hbits y x 0) by lia.
    rewrite (bool_decide_eq_true_2 (y = y ∧ x = x ∧ 0 = 0)) by done.
    by rewrite !andb_false_r.
  - intros r c Hr Hc Hpeer. rewrite (canPlace_ok n s' Hs') by (done || lia).
    f_equal. rewrite (Hbits r c v) by lia.
    rewrite (bool_decide_eq_true_2 (peer _ y x r c ∧ v = v)) by done.
    by rewrite !andb_false_r.
  - intros r c w Hr Hc Hw Hne Hnot.
    rewrite (canPlace_ok n s' Hs'), (canPlace_ok n s Hs) by (done || lia).
    f_equal. rewrite (Hbits r c w), (Hbits r c 0) by lia.
    rewrite (bool_decide_eq_false_2 (peer _ y x r c ∧ w = v)) by done.
    rewrite (bool_decide_eq_false_2 (r = y ∧ c = x ∧ w = 0)) by lia.
    rewrite (bool_decide_eq_false_2 (peer _ y x r c ∧ 0 = v)) by lia.
    rewrite (bool_decide_eq_false_2 (r = y ∧ c = x ∧ 0 = 0))
      by (intros (-> & -> & _); done).
    assert ((w <? 16) = true) as -> by (apply Z.ltb_lt; lia).
    cbn. by rewrite !andb_true_r.
Qed.

Lemma first_five_placed :
  place (Sudoku_init _9x9_configuration) 0 0 5
  = Ok (result_value (Sudoku_init _9x9_configuration)
          (place (Sudoku_init _9x9_configuration) 0 0 5)).
Proof. vm_compute. reflexivity. Qed.

Lemma place_excludes_witness :
  well_shaped 9 (Sudoku_init _9x9_configuration) ∧ 9 < 16
  ∧ place (Sudoku_init _9x9_configuration) 0 0 5
    = Ok (result_value (Sudoku_init _9x9_configuration)
            (place (Sudoku_init _9x9_configuration) 0 0 5))
  ∧ ∀ w, 0 ≤ w ≤ 9 →
      canPlace (result_value (Sudoku_init _9x9_configuration)
                  (place (Sudoku_init _9x9_configuration) 0 0 5)) 0 0 w
      = Ok false.
Proof.
  split; [exact empty_sudoku_shaped|]. split; [lia|].
  split; [exact first_five_placed|].
  apply (place_excludes 9 (Sudoku_init _9x9_configuration) _ 0 0 5
           empty_sudoku_shaped); [lia..|exact first_five_placed].
Defined.

Lemma empty_sudoku_consistent : consistent 9 (Sudoku_init _9x9_configuration).
Proof. apply Sudoku_init_consistent; [apply Configuration_9_built|lia]. Qed.

Lemma empty_sudoku_canPlace :
  canPlace (Sudoku_init _9x9_configuration) 0 0 5 = Ok true.
Proof. vm_compute. reflexivity. Qed.

(** X7: a placement that [canPlace] accepts keeps the sudoku consistent: the
    words of the board still say exactly which values the peers of each cell
    display, no value is twice in a row, a column or a block, and
    [placed_numbers] counts the cells that hold a number. *)
Theorem legal_placement_keeps_consistency (n : Z) (s : Sudoku) (y x v : Z) :
  consistent n s → 0 ≤ y < n → 0 ≤ x < n → 1 ≤ v ≤ n →
  canPlace s y x v = Ok true →
  ∃ s', place s y x v = Ok s' ∧ consistent n s'
        ∧ cell (displayable s') y x = v.
Proof.
  intros Hs Hy Hx Hv Hcan.
  destruct (place_consistent n s y x v Hs Hy Hx Hv Hcan)
    as (s' & Hplace & Hs' & _ & _ & Hdisp).
  exists s'. split; [done|]. split; [done|].
  rewrite Hdisp by done. by rewrite bool_decide_eq_true_2.
Qed.

Lemma legal_placement_keeps_consistency_witness :
  consistent 9 (Sudoku_init _9x9_configuration)
  ∧ canPlace (Sudoku_init _9x9_configuration) 0 0 5 = Ok true
  ∧ ∃ s', place (Sudoku_init _9x9_configuration) 0 0 5 = Ok s'
          ∧ consistent 9 s' ∧ cell (displayable s') 0 0 = 5.
Proof.
  split; [exact empty_sudoku_consistent|].
  split; [exact empty_sudoku_canPlace|].
  apply (legal_placement_keeps_consistency 9 (Sudoku_init _9x9_configuration)
           0 0 5 empty_sudoku_consistent); [lia..|exact empty_sudoku_canPlace].
Defined.

(** X8: on a consistent sudoku [isSolved] holds exactly when the displayed
    grid is a solution: fully filled, with every value once in every row,
    column and block. *)
Theorem isSolved_iff_solution (n : Z) (s : Sudoku) :
  consistent n s →
  isSolved s = true
  ↔ solution n (partition_size (config s)) (displayable s).
Proof.
  intros Hs. split; [by apply consistent_solved|].
  intros (_ & Hfilled & _). unfold isSolved. apply bool_decide_eq_true_2.
  pose proof (cons_shaped _ _ Hs) as Hshaped.
  pose proof (built_size_range _ _ (ws_config _ _ Hshaped)) as Hn.
  rewrite (cons_count _ _ Hs), (built_size _ _ (ws_config _ _ Hshaped)).
  unfold filled_cells. rewrite filter_id.
  - rewrite length_all_cells by lia. lia.
  - intros [r c] [Hr Hc]%elem_of_all_cells. cbn.
    specialize (Hfilled r c Hr Hc). lia.
Qed.

Lemma main_board_consistent : consistent 9 main_board.
Proof.
  apply (solve_sound 82 main_solver main_board).
  - exact (SudokuSolver_init_consistent
             (InMaterial (material_of main_material)) main_solver I
             main_solver_init).
  - exact main_solver_solve.
Qed.

Lemma isSolved_iff_solution_witness :
  consistent 9 main_board
  ∧ (isSolved main_board = true
     ↔ solution 9 (partition_size (config main_board))
         (displayable main_board)).
Proof.
  split; [exact main_board_consistent|].
  exact (isSolved_iff_solution 9 main_board main_board_consistent).
Defined.

(** X9: for every sudoku of a built configuration and every cell of the
    grid, [unplace] returns the sudoku as it is when the cell holds a number
    (its free bit is clear), and raises [AttributeError] when the cell is
    free: it never changes a sudoku. *)
Theorem unplace_never_changes (n : Z) (s : Sudoku) (y x number : Z) :
  well_shaped n s → 0 ≤ y < n → 0 ≤ x < n →
  (bit (placability_board s) y x 0 = false →
   unplace s y x number = Ok s)
  ∧ (bit (placability_board s) y x 0 = true →
     ∃ args, unplace s y x number = Raise (AttributeError args)).
Proof.
  intros Hs Hy Hx. rewrite (unplace_behaviour n s y x number Hs Hy Hx).
  split; intros ->; [done|by eexists].
Qed.

Lemma unplace_never_changes_witness :
  well_shaped 9 (Sudoku_init _9x9_configuration)
  ∧ (bit (placability_board (Sudoku_init _9x9_configuration)) 3 4 0 = false →
     unplace (Sudoku_init _9x9_configuration) 3 4 7
     = Ok (Sudoku_init _9x9_configuration))
  ∧ (bit (placability_board (Sudoku_init _9x9_configuration)) 3 4 0 = true →
     ∃ args, unplace (Sudoku_init _9x9_configuration) 3 4 7
             = Raise (AttributeError args)).
Proof.
  split; [exact empty_sudoku_shaped|].
  apply (unplace_never_changes 9 (Sudoku_init _9x9_configuration) 3 4 7
           empty_sudoku_shaped); lia.
Defined.

(** ** The input material, continued *)

(** X10: material that is not a list of nine rows of nine entries is turned
    down with a [ValueError] before any entry is converted: the caller's
    array is left as it was. *)
Theorem construction_rejects_shape (m : list (list pyobj)) :
  ¬ (length m = 9%nat ∧ Forall (λ row, length row = 9%nat) m) →
  ∃ msg, SudokuSolver_init (InMaterial m)
         = (Raise (ValueError msg), InMaterial m).
Proof.
  intros Hshape. cbn [SudokuSolver_init]. unfold verifyInput.
  rewrite solver_config_size. rewrite bool_decide_eq_true_2.
  - by eexists.
  - intros Hnp. apply Hshape. by apply (np_shape_square m 9) in Hnp.
Qed.

Lemma construction_rejects_shape_witness :
  ¬ (length [[PyInt 1; PyInt 2]; [PyInt 3]] = 9%nat
     ∧ Forall (λ row, length row = 9%nat) [[PyInt 1; PyInt 2]; [PyInt 3]])
  ∧ ∃ msg, SudokuSolver_init (InMaterial [[PyInt 1; PyInt 2]; [PyInt 3]])
           = (Raise (ValueError msg),
              InMaterial [[PyInt 1; PyInt 2]; [PyInt 3]]).
Proof.
  assert (H : ¬ (length [[PyInt 1; PyInt 2]; [PyInt 3]] = 9%nat
                 ∧ Forall (λ row, length row = 9%nat)
                     [[PyInt 1; PyInt 2]; [PyInt 3]])).
  { intros [Hlen _]. discriminate Hlen. }
  split; [exact H|].
  exact (construction_rejects_shape [[PyInt 1; PyInt 2]; [PyInt 3]] H).
Defined.

(** The state of the clue loop after the clues [pre]: the sudoku is
    consistent and displays the clues visited so far. *)
Lemma clue_step_kept (ints : matrix) (pre post : list (Z * Z * Z))
    (y x v : Z) (s s' : Sudoku) :
  square 9 ints → clues ints = pre ++ (y, x, v) :: post →
  consistent 9 s →
  (∀ r c, 0 ≤ r < 9 → 0 ≤ c < 9 →
     cell (displayable s) r c
     = if decide ((r, c, cell ints r c) ∈ pre) then shown (cell ints r c)
       else 0) →
  (if bool_decide (v ∉ [1; 2; 3; 4; 5; 6; 7; 8; 9]) then Ok s
   else
     ok ← canPlace s y x v;
     if ok : bool then place s y x v
     else
       Raise (AttributeError
                [ArgStr "the laws of sudokus does not recognize this input material as valid!";
                 ArgMaterial ints])) = Ok s' →
  consistent 9 s'
  ∧ ∀ r c, 0 ≤ r < 9 → 0 ≤ c < 9 →
      cell (displayable s') r c
      = if decide ((r, c, cell ints r c) ∈ pre ++ [(y, x, v)])
        then shown (cell ints r c) else 0.
Proof.
  intros Hsquare Hsplit Hcons Hcells Hstep.
  assert (Hin : (y, x, v) ∈ clues ints).
  { rewrite Hsplit, elem_of_app, elem_of_cons. auto. }
  apply (elem_of_clues 9) in Hin as (Hy & Hx & ->); [|done].
  assert (Hfresh : (y, x, cell ints y x) ∉ pre).
  { pose proof (NoDup_all_cells 9) as Hnd.
    apply (NoDup_fmap_2_strong
             (λ yx, (yx.1, yx.2, cell ints yx.1 yx.2))) in Hnd.
    - rewrite <- (clues_all_cells 9 ints Hsquare), Hsplit in Hnd.
      apply NoDup_app in Hnd as (_ & Hnd & _). intros Hpre.
      apply (Hnd _ Hpre). left.
    - intros [r c] [r' c'] _ _ [= -> -> _]. done. }
  assert (Hmember : ∀ r c,
            (r, c, cell ints r c) ∈ pre ++ [(y, x, cell ints y x)]
            ↔ (r, c, cell ints r c) ∈ pre ∨ (r = y ∧ c = x)).
  { intros r c. rewrite elem_of_app, list_elem_of_singleton. split.
    - intros [?|[= -> ->]]; auto.
    - intros [?|[-> ->]]; auto. }
  case_bool_decide as Hnum.
  - injection Hstep as <-. split; [done|]. intros r c Hr Hc.
    rewrite Hcells by done.
    destruct (decide (_ ∈ pre)) as [Hpre|Hpre].
    + by rewrite decide_True by (apply Hmember; auto).
    + destruct (decide (r = y ∧ c = x)) as [[-> ->]|Hne].
      * rewrite decide_True by (apply Hmember; auto).
        unfold shown. by rewrite decide_False.
      * rewrite decide_False; [done|]. rewrite Hmember. tauto.
  - inv_bind Hstep. destruct a; [|done].
    assert (Hv : 1 ≤ cell ints y x ≤ 9) by (by apply is_clue_range).
    destruct (place_consistent 9 s y x _ Hcons Hy Hx Hv Ha)
      as (s1 & Hplace & Hcons' & _ & _ & Hdisp).
    assert (s1 = s') as -> by congruence. split; [done|].
    intros r c Hr Hc. rewrite Hdisp, Hcells by done.
    destruct (decide (r = y ∧ c = x)) as [[-> ->]|Hne].
    + rewrite bool_decide_eq_true_2 by done.
      rewrite decide_True by (apply Hmember; auto).
      unfold shown. by rewrite decide_True.
    + rewrite bool_decide_eq_false_2 by done.
      destruct (decide (_ ∈ pre)) as [Hpre|Hpre].
      * by rewrite decide_True by (apply Hmember; auto).
      * rewrite decide_False; [done|]. rewrite Hmember. tauto.
Qed.

Lemma clue_loop_start (ints : matrix) :
  consistent 9 (Sudoku_init SudokuSolver_config)
  ∧ ∀ r c, 0 ≤ r < 9 → 0 ≤ c < 9 →
      cell (displayable (Sudoku_init SudokuSolver_config)) r c
      = if decide ((r, c, cell ints r c) ∈ @nil (Z * Z * Z))
        then shown (cell ints r c) else 0.
Proof.
  split.
  - apply Sudoku_init_consistent; [apply solver_config_built|lia].
  - intros r c Hr Hc. rewrite decide_False by (by intros ?%elem_of_nil).
    cbn [displayable Sudoku_init]. rewrite solver_config_size.
    by apply cell_zeros.
Qed.

(** The sudoku that the clue loop returns displays the clues. *)
Lemma place_clues_displays (ints : matrix) (s : Sudoku) :
  square 9 ints →
  place_clues ints (Sudoku_init SudokuSolver_config) = Ok s →
  consistent 9 s
  ∧ ∀ r c, 0 ≤ r < 9 → 0 ≤ c < 9 →
      cell (displayable s) r c = shown (cell ints r c).
Proof.
  intros Hsquare Hrun. unfold place_clues in Hrun.
  apply (for_each_partial
           (λ pre s, consistent 9 s
                     ∧ ∀ r c, 0 ≤ r < 9 → 0 ≤ c < 9 →
                         cell (displayable s) r c
                         = if decide ((r, c, cell ints r c) ∈ pre)
                           then shown (cell ints r c) else 0))
    in Hrun.
  - destruct Hrun as [Hcons Hcells]. split; [done|]. intros r c Hr Hc.
    rewrite Hcells by done. rewrite decide_True; [done|].
    by apply (elem_of_clues 9).
  - apply clue_loop_start.
  - intros pre [[y x] v] post s1 s2 Hsplit [Hcons Hcells] Hstep.
    by apply (clue_step_kept ints pre post y x v s1 s2).
Qed.

(** Without a conflict the clue loop does not raise. *)
Lemma place_clues_no_conflict (ints : matrix) :
  square 9 ints → no_conflict ints →
  ∃ s, place_clues ints (Sudoku_init SudokuSolver_config) = Ok s.
Proof.
  intros Hsquare Hvalid. unfold place_clues.
  edestruct (for_each_total
    (λ pre s, consistent 9 s
              ∧ ∀ r c, 0 ≤ r < 9 → 0 ≤ c < 9 →
                  cell (displayable s) r c
                  = if decide ((r, c, cell ints r c) ∈ pre)
                    then shown (cell ints r c) else 0))
    as (s & Hs & _); [apply (clue_loop_start ints)| |by exists s].
  intros pre [[y x] v] post s Hsplit [Hcons Hcells].
  assert (Hstep : ∃ s',
    (if bool_decide (v ∉ [1; 2; 3; 4; 5; 6; 7; 8; 9]) then Ok s
     else
       ok ← canPlace s y x v;
       if ok : bool then place s y x v
       else
         Raise (AttributeError
                  [ArgStr "the laws of sudokus does not recognize this input material as valid!";
                   ArgMaterial ints])) = Ok s').
  { assert (Hin : (y, x, v) ∈ clues ints).
    { rewrite Hsplit, elem_of_app, elem_of_cons. auto. }
    apply (elem_of_clues 9) in Hin as (Hy & Hx & ->); [|done].
    case_bool_decide as Hnum; [by eexists|].
    assert (Hv : 1 ≤ cell ints y x ≤ 9) by (by apply is_clue_range).
    assert (Hfresh : (y, x, cell ints y x) ∉ pre).
    { pose proof (NoDup_all_cells 9) as Hnd.
      apply (NoDup_fmap_2_strong
               (λ yx, (yx.1, yx.2, cell ints yx.1 yx.2))) in Hnd.
      - rewrite <- (clues_all_cells 9 ints Hsquare), Hsplit in Hnd.
        apply NoDup_app in Hnd as (_ & Hnd & _). intros Hpre.
        apply (Hnd _ Hpre). left.
      - intros [r c] [r' c'] _ _ [= -> -> _]. done. }
    assert (Hcan : canPlace s y x (cell ints y x) = Ok true).
    { rewrite (canPlace_ok 9 s (cons_shaped _ _ Hcons)) by (done || lia).
      f_equal. apply andb_true_iff. split.
      - apply (cons_avail _ _ Hcons); [done..|].
        intros r' c' Hr' Hc' Hpeer. rewrite Hcells by done.
        destruct (decide _) as [Hpre|_]; [|lia].
        rewrite (consistent_partition_size s Hcons) in Hpeer.
        unfold shown. destruct (decide (is_clue _)) as [Hclue|_]; [|lia].
        intros Heq. symmetry in Heq. revert Heq.
        apply (Hvalid y x r' c'); try done. intros [= -> ->]. done.
      - apply (cons_free _ _ Hcons); [done..|]. rewrite Hcells by done.
        by rewrite decide_False. }
    rewrite Hcan. run.
    destruct (place_consistent 9 s y x _ Hcons Hy Hx Hv Hcan)
      as (s' & Hplace & _). by exists s'. }
  destruct Hstep as (s' & Hstep). exists s'. split; [exact Hstep|].
  by apply (clue_step_kept ints pre post y x v s s').
Qed.

(** X11: the construction from a 9x9 grid of integers succeeds exactly when
    no entry of 1..9 is repeated in its row, column or block; the sudoku it
    makes displays the entries of 1..9 and is empty elsewhere. *)
Theorem construction_succeeds_iff (ints : matrix) :
  square 9 ints →
  ((∃ solver, (SudokuSolver_init (InMaterial (material_of ints))).1
              = Ok solver)
   ↔ no_conflict ints)
  ∧ ∀ solver,
      (SudokuSolver_init (InMaterial (material_of ints))).1 = Ok solver →
      ∀ r c, 0 ≤ r < 9 → 0 ≤ c < 9 →
        cell (displayable (sudoku solver)) r c = shown (cell ints r c).
Proof.
  intros Hsquare. cbn [SudokuSolver_init]. unfold material_of.
  rewrite (verifyInput_ints ints Hsquare). cbn [fst].
  assert (Hshown : ∀ solver,
    (s ← place_clues ints (Sudoku_init SudokuSolver_config);
     Ok (SudokuSolver_of s)) = Ok solver →
    consistent 9 (sudoku solver)
    ∧ ∀ r c, 0 ≤ r < 9 → 0 ≤ c < 9 →
        cell (displayable (sudoku solver)) r c = shown (cell ints r c)).
  { intros solver Hinit. inv_bind Hinit. injection Hinit as <-.
    by apply place_clues_displays. }
  split; [|intros solver Hinit; by apply Hshown].
  split.
  - intros (solver & Hinit). destruct (Hshown solver Hinit) as [Hcons Hcells].
    intros r c r' c' Hr Hc Hr' Hc' Hpeer Hne Hclue Heq.
    apply (cons_valid _ _ Hcons r c r' c'); try done.
    + by rewrite (consistent_partition_size _ Hcons).
    + rewrite Hcells by done. unfold shown. rewrite decide_True by done.
      apply is_clue_range in Hclue. lia.
    + rewrite !Hcells by done. by rewrite Heq.
  - intros Hvalid.
    destruct (place_clues_no_conflict ints Hsquare Hvalid) as (s & ->).
    by eexists.
Qed.

Lemma main_material_square : square 9 main_material.
Proof. split; [done|]. by repeat constructor. Qed.

Lemma construction_succeeds_iff_witness :
  square 9 main_material
  ∧ ((∃ solver,
        (SudokuSolver_init (InMaterial (material_of main_material))).1
        = Ok solver)
     ↔ no_conflict main_material)
  ∧ ∀ solver,
      (SudokuSolver_init (InMaterial (material_of main_material))).1
      = Ok solver →
      ∀ r c, 0 ≤ r < 9 → 0 ≤ c < 9 →
        cell (displayable (sudoku solver)) r c
        = shown (cell main_material r c).
Proof.
  split; [exact main_material_square|].
  exact (construction_succeeds_iff main_material main_material_square).
Defined.

(** * The search *)

(** ** The clues stay *)

Lemma extends_refl (m : matrix) : extends m m.
Proof. by intros r c _ _ _. Qed.

Lemma extends_place (m : matrix) (s s' : Sudoku) (y x v : Z) :
  consistent 9 s → extends m (displayable s) →
  0 ≤ y < 9 → 0 ≤ x < 9 → 1 ≤ v ≤ 9 →
  canPlace s y x v = Ok true → place s y x v = Ok s' →
  consistent 9 s' ∧ extends m (displayable s').
Proof.
  intros Hcons Hext Hy Hx Hv Hcan Hplace.
  destruct (place_consistent 9 s y x v Hcons Hy Hx Hv Hcan)
    as (s1 & Hplace1 & Hcons' & _ & _ & Hdisp).
  assert (s1 = s') as -> by congruence. split; [done|].
  intros r c Hr Hc Hshown. rewrite Hdisp by done.
  case_bool_decide as Hyx; [|by apply Hext].
  destruct Hyx as [-> ->]. exfalso.
  rewrite (canPlace_ok 9 s (cons_shaped _ _ Hcons)) in Hcan by (done || lia).
  injection Hcan as Hcan. apply andb_true_iff in Hcan as [_ Hfree].
  apply (cons_free _ _ Hcons) in Hfree; [|done..].
  specialize (Hext y x Hy Hx Hshown). congruence.
Qed.

Lemma solve_extends (m : matrix) (fuel : nat) (self : SudokuSolver)
    (b : Sudoku) :
  consistent 9 (sudoku self) → extends m (displayable (sudoku self)) →
  solve fuel self = Ok (Solved b) →
  consistent 9 b ∧ extends m (displayable b).
Proof.
  set (Inv := λ s, consistent 9 s ∧ extends m (displayable s)).
  assert (Inv_shaped : ∀ s, Inv s → well_shaped 9 s).
  { intros s [Hs _]. apply Hs. }
  assert (Inv_place : ∀ s y x v s', Inv s → 0 ≤ y < 9 → 0 ≤ x < 9 →
            1 ≤ v ≤ 9 → canPlace s y x v = Ok true →
            place s y x v = Ok s' → Inv s').
  { intros s y x v s' [Hs Hext] Hy Hx Hv Hcan Hplace.
    by apply (extends_place m s s' y x v). }
  revert self. induction fuel as [|fuel IH]; intros self Hcons Hext; [done|].
  cbn [solve]. intros Hsolve. inv_bind Hsolve. destruct a as [valid self1].
  unfold placeTrivials in Ha.
  apply (placeTrivials_loop_sound Inv Inv_shaped Inv_place) in Ha
    as [Hself1 Hguesses]; [|done..].
  destruct valid; simpl in Hsolve; [|done].
  destruct (isSolved (sudoku self1)) eqn:Hsolved.
  - injection Hsolve as <-. done.
  - eapply (try_guesses_sound Inv Inv_place);
      [exact Hself1|by apply Hguesses| |exact Hsolve].
    intros new [Hnew Hnewext] Hrec.
    by apply (IH (SudokuSolver_of new)).
Qed.

(** X12: the board that [solve] returns with success keeps every number of
    the board it was given. *)
Theorem solve_keeps_clues (fuel : nat) (self : SudokuSolver) (b : Sudoku) :
  consistent 9 (sudoku self) → solve fuel self = Ok (Solved b) →
  ∀ r c, 0 ≤ r < 9 → 0 ≤ c < 9 →
    cell (displayable (sudoku self)) r c ≠ 0 →
    cell (displayable b) r c = cell (displayable (sudoku self)) r c.
Proof.
  intros Hcons Hsolve.
  by apply (solve_extends (displayable (sudoku self)) fuel self b Hcons
              (extends_refl _) Hsolve).
Qed.

Lemma main_solver_consistent : consistent 9 (sudoku main_solver).
Proof.
  exact (SudokuSolver_init_consistent
           (InMaterial (material_of main_material)) main_solver I
           main_solver_init).
Qed.

Lemma solve_keeps_clues_witness :
  consistent 9 (sudoku main_solver)
  ∧ solve 82 main_solver = Ok (Solved main_board)
  ∧ ∀ r c, 0 ≤ r < 9 → 0 ≤ c < 9 →
      cell (displayable (sudoku main_solver)) r c ≠ 0 →
      cell (displayable main_board) r c
      = cell (displayable (sudoku main_solver)) r c.
Proof.
  split; [exact main_solver_consistent|]. split; [exact main_solver_solve|].
  exact (solve_keeps_clues 82 main_solver main_board main_solver_consistent
           main_solver_solve).
Defined.

(** ** What a scan establishes *)

Lemma numbers_cell_can_hold_acc (s : Sudoku) (y x : Z) (numbers : list Z)
    (acc : list (Z * Z * Z)) :
  well_shaped 9 s → 0 ≤ y < 9 → 0 ≤ x < 9 →
  (∀ v, v ∈ numbers → 0 ≤ v ≤ 9) →
  for_each numbers (λ number held,
    ok ← canPlace s y x number;
    Ok (if ok : bool then held ++ [(y, x, number)] else held)) acc
  = Ok (acc ++ ((λ v, (y, x, v))
                <$> filter (λ v, canPlace s y x v = Ok true) numbers)).
Proof.
  intros Hs Hy Hx. revert acc.
  induction numbers as [|v numbers IH]; intros acc Hnumbers.
  { simpl. by rewrite app_nil_r. }
  assert (Hv : 0 ≤ v ≤ 9) by (apply Hnumbers; left).
  cbn [for_each]. rewrite filter_cons.
  pose proof (canPlace_ok 9 s Hs y x v Hy Hx Hv) as Hcan.
  destruct (bit _ y x v && bit _ y x 0); rewrite Hcan; run.
  - rewrite decide_True by done. rewrite IH by (intros; apply Hnumbers; by right).
    by rewrite <- app_assoc.
  - rewrite decide_False by done. apply IH. intros; apply Hnumbers; by right.
Qed.

Lemma numbers_cell_can_hold_exact (s : Sudoku) (y x : Z) :
  well_shaped 9 s → 0 ≤ y < 9 → 0 ≤ x < 9 →
  numbers_cell_can_hold s y x (range 1 10)
  = Ok ((λ v, (y, x, v)) <$> candidates s y x).
Proof.
  intros Hs Hy Hx. unfold numbers_cell_can_hold.
  rewrite (numbers_cell_can_hold_acc s y x (range 1 10) []); [done..|].
  intros v Hv%elem_of_range. lia.
Qed.

Lemma elem_of_candidates (s : Sudoku) (y x v : Z) :
  v ∈ candidates s y x ↔ 1 ≤ v ≤ 9 ∧ canPlace s y x v = Ok true.
Proof.
  unfold candidates. rewrite list_elem_of_filter, elem_of_range. split.
  - intros [? ?]. split; [lia|done].
  - intros [? ?]. split; [done|lia].
Qed.

Lemma NoDup_enumerate {A : Type} (l : list A) : NoDup (enumerate l).
Proof.
  unfold enumerate. apply (NoDup_fmap_1 fst). rewrite fst_zip.
  - apply NoDup_seqZ.
  - rewrite length_seqZ. lia.
Qed.

Lemma NoDup_np_where (m : matrix) (b : Z) : NoDup (np_where m b).
Proof.
  unfold np_where. apply NoDup_bind; [| |apply NoDup_enumerate].
  - intros [y1 row1] [y2 row2] [y x] [_ H1]%elem_of_enumerate
      [_ H2]%elem_of_enumerate Hin1 Hin2.
    apply list_elem_of_bind in Hin1 as ([x1 w1] & Hin1 & _).
    apply list_elem_of_bind in Hin2 as ([x2 w2] & Hin2 & _).
    destruct (bool_decide (Z.land w1 b ≠ 0)); [|by apply elem_of_nil in Hin1].
    destruct (bool_decide (Z.land w2 b ≠ 0)); [|by apply elem_of_nil in Hin2].
    apply list_elem_of_singleton in Hin1, Hin2. congruence.
  - intros [y row] _. apply NoDup_bind; [| |apply NoDup_enumerate].
    + intros [x1 w1] [x2 w2] [y' x] [_ H1]%elem_of_enumerate
        [_ H2]%elem_of_enumerate Hin1 Hin2.
      destruct (bool_decide (Z.land w1 b ≠ 0)); [|by apply elem_of_nil in Hin1].
      destruct (bool_decide (Z.land w2 b ≠ 0)); [|by apply elem_of_nil in Hin2].
      apply list_elem_of_singleton in Hin1, Hin2. congruence.
    + intros [x w] _. case_bool_decide; [apply NoDup_singleton|apply NoDup_nil_2].
Qed.

Section scan_facts.
(** A second pass over the scan, for every property [Inv] of sudokus that is
    kept when the only number a cell takes is placed on it. *)
Variable Inv : Sudoku → Prop.
Hypothesis Inv_shaped : ∀ s, Inv s → well_shaped 9 s.
Hypothesis Inv_forced :
  ∀ s y x v s', Inv s → 0 ≤ y < 9 → 0 ≤ x < 9 →
    candidates s y x = [v] → place s y x v = Ok s' → Inv s'.
Hypothesis Inv_bound : ∀ s, Inv s → placed_numbers s ≤ 81.

Lemma considerEachCell_loop_facts (cells : list (Z * Z))
    (self : SudokuSolver) :
  Inv (sudoku self) →
  (∀ y x, (y, x) ∈ cells → 0 ≤ y < 9 ∧ 0 ≤ x < 9) →
  ∃ valid self',
    considerEachCell_loop cells self = Ok (valid, self')
    ∧ Inv (sudoku self')
    ∧ placed_numbers (sudoku self) ≤ placed_numbers (sudoku self')
    ∧ (trivial_found self' = true →
         trivial_found self = true
         ∨ placed_numbers (sudoku self) < placed_numbers (sudoku self'))
    ∧ (trivial_found self' = false →
         trivial_found self = false ∧ sudoku self' = sudoku self
         ∧ (valid = true →
            scanned cells (sudoku self) (best_guesses self)
              (best_guesses self')))
    ∧ (NoDup cells → (∀ y x, (y, x) ∈ cells → free (sudoku self) y x) →
       live Inv → valid = true).
Proof.
  revert self. induction cells as [|[y x] cells IH]; intros self HInv Hcells.
  { exists true, self. split_and!; [done|done|lia|by auto| |done].
    intros Hf. split_and!; [done|done|]. intros _.
    split_and!; [by intros ? ? ?%elem_of_nil|done|by left]. }
  destruct (Hcells y x ltac:(left)) as [Hy Hx].
  assert (Hcells' : ∀ y x, (y, x) ∈ cells → 0 ≤ y < 9 ∧ 0 ≤ x < 9).
  { intros y' x' H. apply Hcells. by right. }
  pose proof (Inv_shaped _ HInv) as Hshaped.
  cbn [considerEachCell_loop]. rewrite solver_config_size.
  replace (9 + 1) with 10 by done.
  rewrite (numbers_cell_can_hold_exact (sudoku self) y x) by done. run.
  remember ((λ v, (y, x, v)) <$> candidates (sudoku self) y x) as held
    eqn:Hheld.
  assert (Hlen : length held = length (candidates (sudoku self) y x)).
  { by rewrite Hheld, length_fmap. }
  destruct held as [|[[y0 x0] v0] [|e2 rest]].
  - exists false, self. split_and!; [done|done|lia|by auto|done|].
    intros _ Hfree Hlive. exfalso.
    apply (Hlive (sudoku self) y x); [done..|apply Hfree; left|].
    by apply nil_length_inv.
  - destruct (candidates (sudoku self) y x) as [|v [|v2 rest]] eqn:Hcand;
      [done| |done].
    injection Hheld as -> -> ->.
    destruct (place_ok 9 (sudoku self) Hshaped y x v)
      as (s' & Hplace & _ & _ & Hplaced & _ & Hbits); [done|done| |].
    { assert (Hv : v ∈ candidates (sudoku self) y x) by (rewrite Hcand; left).
      apply elem_of_candidates in Hv. lia. }
    rewrite Hplace. run.
    match goal with |- context [considerEachCell_loop cells ?self1] =>
      destruct (IH self1)
        as (valid & self' & Hloop & HInv' & Hle & Htrue & Hfalse & Hvalid)
    end.
    { cbn [sudoku]. by apply (Inv_forced (sudoku self) y x v). }
    { done. }
    cbn [sudoku trivial_found best_guesses] in *.
    exists valid, self'. split_and!; [done|done|lia|intros _; right; lia| |].
    + intros Hf. by apply Hfalse in Hf as [Hf _].
    + intros [Hnotin Hnd]%NoDup_cons Hfree Hlive.
      apply Hvalid; [done| |done]. intros y1 x1 Hin. unfold free.
      destruct (Hcells' y1 x1 Hin) as [Hy1 Hx1].
      rewrite Hbits by (done || lia).
      rewrite (Hfree y1 x1) by (by right).
      assert (Hv : v ∈ candidates (sudoku self) y x) by (rewrite Hcand; left).
      apply elem_of_candidates in Hv.
      rewrite (bool_decide_eq_false_2 (_ ∧ 0 = v)) by lia.
      rewrite (bool_decide_eq_false_2 (y1 = y ∧ x1 = x ∧ 0 = 0)); [done|].
      intros (-> & -> & _). done.
  - set (held := _ :: e2 :: rest) in *.
    assert (Hguesses : Some <$> held = guesses_of (sudoku self) y x).
    { unfold guesses_of. by rewrite Hheld, <- list_fmap_compose. }
    assert (Htwo : (2 ≤ length held)%nat) by (simpl; lia).
    case_bool_decide as Hshorter.
    + match goal with |- context [considerEachCell_loop cells ?self1] =>
        destruct (IH self1)
          as (valid & self' & Hloop & HInv' & Hle & Htrue & Hfalse & Hvalid)
      end; [done..|].
      cbn [sudoku trivial_found best_guesses] in *.
      exists valid, self'. split_and!; [done|done|done|done| |].
      * intros Hf. apply Hfalse in Hf as (Hf & Hsudoku & Hscan).
        split_and!; [done|done|]. intros Hv.
        destruct (Hscan Hv) as (Hcs & Hbest & Hfrom).
        rewrite length_fmap in Hbest. split_and!.
        -- intros y1 x1 [[= -> ->]|Hin]%elem_of_cons; [lia|by apply Hcs].
        -- lia.
        -- right. destruct Hfrom as [->|(y1 & x1 & Hin & -> & Hlt)].
           ++ exists y, x. rewrite length_fmap. split_and!; [left|done|lia].
           ++ exists y1, x1. rewrite length_fmap in Hlt.
              split_and!; [by right|done|lia].
      * intros [_ Hnd]%NoDup_cons Hfree Hlive.
        apply Hvalid; [done| |done]. intros y1 x1 Hin. apply Hfree. by right.
    + destruct (IH self)
        as (valid & self' & Hloop & HInv' & Hle & Htrue & Hfalse & Hvalid);
        [done..|].
      exists valid, self'. split_and!; [done|done|done|done| |].
      * intros Hf. apply Hfalse in Hf as (Hf & Hsudoku & Hscan).
        split_and!; [done|done|]. intros Hv.
        destruct (Hscan Hv) as (Hcs & Hbest & Hfrom). split_and!.
        -- intros y1 x1 [[= -> ->]|Hin]%elem_of_cons; [lia|by apply Hcs].
        -- done.
        -- destruct Hfrom as [->|(y1 & x1 & Hin & -> & Hlt)]; [by left|].
           right. exists y1, x1. split_and!; [by right|done|done].
      * intros [_ Hnd]%NoDup_cons Hfree Hlive.
        apply Hvalid; [done| |done]. intros y1 x1 Hin. apply Hfree. by right.
Qed.

Lemma considerEachCell_facts (self : SudokuSolver) :
  Inv (sudoku self) →
  ∃ valid self',
    considerEachCell self = Ok (valid, self')
    ∧ Inv (sudoku self')
    ∧ placed_numbers (sudoku self) ≤ placed_numbers (sudoku self')
    ∧ (trivial_found self' = true →
         trivial_found self = true
         ∨ placed_numbers (sudoku self) < placed_numbers (sudoku self'))
    ∧ (trivial_found self' = false → valid = true →
         best_guesses self = replicate 9 None →
         sudoku self' = sudoku self
         ∧ settled (sudoku self') (best_guesses self'))
    ∧ (live Inv → valid = true).
Proof.
  intros HInv. pose proof (Inv_shaped _ HInv) as Hshaped.
  unfold considerEachCell. rewrite solver_config_free_bit.
  assert (Hwhere : ∀ y x,
            (y, x) ∈ np_where (placability_board (sudoku self)) 1
            ↔ 0 ≤ y < 9 ∧ 0 ≤ x < 9 ∧ free (sudoku self) y x).
  { intros y x. rewrite (elem_of_np_where 9) by apply Hshaped.
    unfold free, bit. by rewrite land_1_testbit. }
  destruct (considerEachCell_loop_facts
              (np_where (placability_board (sudoku self)) 1) self HInv)
    as (valid & self' & Hloop & HInv' & Hle & Htrue & Hfalse & Hvalid).
  { intros y x Hin%Hwhere. tauto. }
  exists valid, self'. split_and!; [done..| |].
  - intros Hf Hv Hbest. destruct (Hfalse Hf) as (_ & Hsudoku & Hscan).
    split; [done|]. destruct (Hscan Hv) as (Hcs & Hlen & Hfrom).
    rewrite Hsudoku, Hbest in *. split_and!.
    + intros y x Hy Hx Hfree. apply Hcs, Hwhere. done.
    + by rewrite length_replicate in Hlen.
    + destruct Hfrom as [->|(y & x & Hin%Hwhere & -> & Hlt)]; [by left|].
      rewrite length_replicate in Hlt. right. exists y, x. tauto.
  - intros Hlive. apply Hvalid; [apply NoDup_np_where| |done].
    intros y x Hin%Hwhere. tauto.
Qed.

Lemma placeTrivials_loop_facts (fuel : nat) (self : SudokuSolver) :
  Inv (sudoku self) →
  (trivial_found self = true →
   81 - placed_numbers (sudoku self) < Z.of_nat fuel) →
  (trivial_found self = false →
   settled (sudoku self) (best_guesses self)) →
  ∃ valid self',
    placeTrivials_loop fuel self = Ok (valid, self')
    ∧ Inv (sudoku self')
    ∧ placed_numbers (sudoku self) ≤ placed_numbers (sudoku self')
    ∧ (valid = true → settled (sudoku self') (best_guesses self'))
    ∧ (live Inv → valid = true).
Proof.
  revert self. induction fuel as [|fuel IH]; intros self HInv Hfuel Hsettled.
  - pose proof (Inv_bound _ HInv). cbn [placeTrivials_loop].
    destruct (trivial_found self); [lia|].
    exists true, self. split_and!; [done|done|lia|auto|done].
  - cbn [placeTrivials_loop]. destruct (trivial_found self) eqn:Hfound.
    2:{ exists true, self. split_and!; [done|done|lia|auto|done]. }
    rewrite solver_config_size. change (Z.to_nat 9) with 9%nat.
    match goal with |- context [considerEachCell ?self1] =>
      destruct (considerEachCell_facts self1)
        as (valid1 & self2 & -> & HInv2 & Hle & Htrue & Hfalse & Hvalid)
    end; [done|]. run.
    cbn [sudoku trivial_found best_guesses] in *.
    destruct valid1; cbn [negb].
    + destruct (IH self2) as (valid & self' & -> & HInv' & Hle' & Hs' & Hv');
        [done| | |].
      * intros Hf. destruct (Htrue Hf) as [?|Hlt]; [done|].
        specialize (Hfuel eq_refl). lia.
      * intros Hf. by apply Hfalse.
      * exists valid, self'. split_and!; [done|done|lia|done|done].
    + exists false, self2. split_and!; [done|done|lia|done|done].
Qed.

Lemma placeTrivials_facts (fuel : nat) (self : SudokuSolver) :
  Inv (sudoku self) →
  81 - placed_numbers (sudoku self) < Z.of_nat fuel →
  ∃ valid self',
    placeTrivials fuel self = Ok (valid, self')
    ∧ Inv (sudoku self')
    ∧ placed_numbers (sudoku self) ≤ placed_numbers (sudoku self')
    ∧ (valid = true → settled (sudoku self') (best_guesses self'))
    ∧ (live Inv → valid = true).
Proof.
  intros HInv Hfuel. unfold placeTrivials.
  by apply (placeTrivials_loop_facts fuel
              {| sudoku := sudoku self; trivial_found := true;
                 best_guesses := best_guesses self |}).
Qed.

Lemma placeTrivials_facts_Ok (fuel : nat) (self self' : SudokuSolver)
    (valid : bool) :
  Inv (sudoku self) → 0 ≤ placed_numbers (sudoku self) →
  placeTrivials fuel self = Ok (valid, self') →
  Inv (sudoku self')
  ∧ placed_numbers (sudoku self) ≤ placed_numbers (sudoku self')
  ∧ (valid = true → settled (sudoku self') (best_guesses self'))
  ∧ (live Inv → valid = true).
Proof.
  intros HInv Hplaced Hrun.
  destruct (placeTrivials_facts (fuel `max` 82) self HInv)
    as (valid1 & self1 & Hbig & Hfacts); [lia|].
  unfold placeTrivials in *.
  rewrite (placeTrivials_loop_mono fuel (fuel `max` 82)) in Hbig; [|lia|].
  2:{ by rewrite Hrun. }
  rewrite Hrun in Hbig. by injection Hbig as <- <-.
Qed.
End scan_facts.

(** ** Consistent sudokus in the scan *)

Lemma copy_same (s : Sudoku) : copy s = s.
Proof. by destruct s. Qed.

Lemma consistent_placed_bound (s : Sudoku) :
  consistent 9 s → 0 ≤ placed_numbers s ≤ 81.
Proof.
  intros Hs. rewrite (cons_count _ _ Hs). unfold filled_cells.
  pose proof (length_filter (λ yx, cell (displayable s) yx.1 yx.2 ≠ 0)
                (all_cells 9)) as Hle.
  rewrite length_all_cells in Hle by lia. lia.
Qed.

Lemma candidate_bits (s : Sudoku) (y x v : Z) :
  well_shaped 9 s → 0 ≤ y < 9 → 0 ≤ x < 9 →
  v ∈ candidates s y x
  ↔ 1 ≤ v ≤ 9 ∧ bit (placability_board s) y x v = true ∧ free s y x.
Proof.
  intros Hs Hy Hx. rewrite elem_of_candidates. unfold free. split.
  - intros [Hv Hcan]. rewrite (canPlace_ok 9 s Hs) in Hcan by (done || lia).
    injection Hcan as Hcan. apply andb_true_iff in Hcan. tauto.
  - intros (Hv & Hbit & Hfree). split; [done|].
    rewrite (canPlace_ok 9 s Hs) by (done || lia). by rewrite Hbit, Hfree.
Qed.

Lemma consistent_forced (s : Sudoku) (y x v : Z) (s' : Sudoku) :
  consistent 9 s → 0 ≤ y < 9 → 0 ≤ x < 9 →
  candidates s y x = [v] → place s y x v = Ok s' → consistent 9 s'.
Proof.
  intros Hs Hy Hx Hcand Hplace.
  assert (Hv : v ∈ candidates s y x) by (rewrite Hcand; left).
  apply elem_of_candidates in Hv as [Hv Hcan].
  by apply (consistent_place s y x v s').
Qed.

Lemma consistent_bound (s : Sudoku) : consistent 9 s → placed_numbers s ≤ 81.
Proof. intros Hs. apply (consistent_placed_bound s Hs). Qed.

(** A free cell with a peer that shows a number takes at most eight
    numbers. *)
Lemma blocked_candidates (s : Sudoku) (y x r c : Z) :
  consistent 9 s → 0 ≤ y < 9 → 0 ≤ x < 9 → 0 ≤ r < 9 → 0 ≤ c < 9 →
  peer 3 y x r c → cell (displayable s) r c ≠ 0 →
  (length (candidates s y x) ≤ 8)%nat.
Proof.
  intros Hs Hy Hx Hr Hc Hpeer Hshown.
  pose proof (cons_values _ _ Hs r c Hr Hc) as Hw.
  set (w := cell (displayable s) r c) in *.
  assert (Hnot : ¬ canPlace s y x w = Ok true).
  { intros Hcan.
    assert (Hin : w ∈ candidates s y x).
    { apply elem_of_candidates. split; [lia|done]. }
    apply (candidate_bits s y x w (cons_shaped _ _ Hs) Hy Hx) in Hin
      as (_ & Hbit & _).
    assert (Hvw : 1 ≤ w ≤ 9) by lia.
    pose proof (proj1 (cons_avail _ _ Hs y x w Hy Hx Hvw) Hbit) as Hall.
    apply (Hall r c Hr Hc); [|done]. by rewrite (consistent_partition_size s Hs). }
  pose proof (length_filter_lt (λ v, canPlace s y x v = Ok true)
                (range 1 10) w) as Hlt.
  rewrite length_range in Hlt. unfold candidates.
  assert (w ∈ range 1 10) by (apply elem_of_range; lia).
  specialize (Hlt ltac:(done) Hnot). lia.
Qed.

Lemma exists_not_filter {A : Type} (P : A → Prop) `{!∀ x, Decision (P x)}
    (l : list A) :
  length (filter P l) ≠ length l → ∃ a, a ∈ l ∧ ¬ P a.
Proof.
  induction l as [|a l IH]; [done|]. rewrite filter_cons.
  destruct (decide (P a)) as [Ha|Ha].
  - simpl. intros Hne. destruct IH as (b & Hb & Hnb); [lia|].
    exists b. split; [by right|done].
  - intros _. exists a. split; [left|done].
Qed.

(** A consistent sudoku that shows a number and is not full has a free cell
    that takes at most eight numbers. *)
Lemma constrained_cell (s : Sudoku) :
  consistent 9 s → 1 ≤ placed_numbers s → isSolved s = false →
  ∃ y x, 0 ≤ y < 9 ∧ 0 ≤ x < 9 ∧ free s y x
         ∧ (length (candidates s y x) ≤ 8)%nat.
Proof.
  intros Hs Hplaced Hunsolved.
  pose proof (cons_count _ _ Hs) as Hcount.
  assert (Hfilled : ∃ r c, 0 ≤ r < 9 ∧ 0 ≤ c < 9
                           ∧ cell (displayable s) r c ≠ 0).
  { destruct (filled_cells 9 (displayable s)) as [|[r c] l] eqn:Hcells.
    { simpl in Hcount. lia. }
    assert (Hin : (r, c) ∈ filled_cells 9 (displayable s))
      by (rewrite Hcells; left).
    apply list_elem_of_filter in Hin as [Hrc Hin%elem_of_all_cells].
    exists r, c. tauto. }
  assert (Hfree : ∃ r c, 0 ≤ r < 9 ∧ 0 ≤ c < 9
                         ∧ cell (displayable s) r c = 0).
  { unfold isSolved in Hunsolved. apply bool_decide_eq_false in Hunsolved.
    rewrite (built_size _ _ (ws_config _ _ (cons_shaped _ _ Hs)))
      in Hunsolved.
    destruct (exists_not_filter (λ yx, cell (displayable s) yx.1 yx.2 ≠ 0)
                (all_cells 9)) as ([r c] & Hin%elem_of_all_cells & Hzero).
    { fold (filled_cells 9 (displayable s)).
      rewrite length_all_cells by lia. lia. }
    exists r, c. simpl in Hzero.
    destruct (decide (cell (displayable s) r c = 0)); tauto. }
  destruct Hfilled as (r & c & Hr & Hc & Hrc).
  destruct Hfree as (r' & c' & Hr' & Hc' & Hrc').
  destruct (decide (cell (displayable s) r c' = 0)) as [Hmid|Hmid].
  - exists r, c'. split; [done|]. split; [done|]. split.
    + by apply (cons_free _ _ Hs).
    + apply (blocked_candidates s r c' r c); [done..| |done]. by left.
  - exists r', c'. split; [done|]. split; [done|]. split.
    + by apply (cons_free _ _ Hs).
    + apply (blocked_candidates s r' c' r c'); [done..| |done].
      right. by left.
Qed.

(** ** The state in which [placeTrivials] returns True *)

(** X13: when [placeTrivials] returns True on a consistent sudoku, the
    sudoku it leaves is consistent and keeps every number that was shown,
    every free cell takes at least two numbers, and [best_guesses] holds
    either the placements of all the numbers that one free cell takes, a
    cell which no free cell undercuts in the count of numbers, or the nine
    placeholders. *)
Theorem placeTrivials_settles (fuel : nat) (self self' : SudokuSolver) :
  consistent 9 (sudoku self) →
  placeTrivials fuel self = Ok (true, self') →
  (consistent 9 (sudoku self')
   ∧ extends (displayable (sudoku self)) (displayable (sudoku self')))
  ∧ settled (sudoku self') (best_guesses self').
Proof.
  intros Hs Hrun.
  set (Inv := λ s, consistent 9 s
                   ∧ extends (displayable (sudoku self)) (displayable s)).
  assert (Inv_shaped : ∀ s, Inv s → well_shaped 9 s).
  { intros s [Hcons _]. apply Hcons. }
  assert (Inv_forced : ∀ s y x v s', Inv s → 0 ≤ y < 9 → 0 ≤ x < 9 →
            candidates s y x = [v] → place s y x v = Ok s' → Inv s').
  { intros s y x v s' [Hcons Hext] Hy Hx Hcand Hplace.
    assert (Hv : v ∈ candidates s y x) by (rewrite Hcand; left).
    apply elem_of_candidates in Hv as [Hv Hcan].
    by apply (extends_place _ s s' y x v). }
  assert (Inv_bound : ∀ s, Inv s → placed_numbers s ≤ 81).
  { intros s [Hcons _]. by apply consistent_bound. }
  destruct (placeTrivials_facts_Ok Inv Inv_shaped Inv_forced Inv_bound
              fuel self self' true)
    as (HInv & _ & Hsettled & _); [|apply (consistent_placed_bound _ Hs)|done|].
  { split; [done|apply extends_refl]. }
  split; [done|]. by apply Hsettled.
Qed.

(** ** What [solve] returns *)

Lemma filter_keep_all {A : Type} (P : A → Prop) `{!∀ x, Decision (P x)}
    (l : list A) :
  (∀ a, a ∈ l → P a) → filter P l = l.
Proof.
  induction l as [|a l IH]; intros Hall; [done|].
  rewrite filter_cons, decide_True by (apply Hall; left).
  rewrite IH; [done|]. intros b Hb. apply Hall. by right.
Qed.

(** On a consistent sudoku that shows nothing every cell is free and takes
    every number. *)
Lemma empty_candidates (s : Sudoku) (y x : Z) :
  consistent 9 s → placed_numbers s = 0 → 0 ≤ y < 9 → 0 ≤ x < 9 →
  free s y x ∧ candidates s y x = range 1 10.
Proof.
  intros Hs Hplaced Hy Hx.
  assert (Hzero : ∀ r c, 0 ≤ r < 9 → 0 ≤ c < 9 →
            cell (displayable s) r c = 0).
  { intros r c Hr Hc.
    destruct (decide (cell (displayable s) r c = 0)) as [|Hne]; [done|].
    assert (Hin : (r, c) ∈ filled_cells 9 (displayable s)).
    { apply list_elem_of_filter. split; [done|by apply elem_of_all_cells]. }
    rewrite (cons_count _ _ Hs) in Hplaced.
    assert (Hnil : filled_cells 9 (displayable s) = [])
      by (apply nil_length_inv; lia).
    rewrite Hnil in Hin. by apply elem_of_nil in Hin. }
  assert (Hfree : free s y x) by (by apply (cons_free _ _ Hs), Hzero).
  split; [done|]. apply filter_keep_all. intros v Hv%elem_of_range.
  apply elem_of_candidates.
  apply (candidate_bits s y x v (cons_shaped _ _ Hs) Hy Hx).
  split; [lia|]. split; [|done].
  apply (cons_avail _ _ Hs y x v Hy Hx); [lia|].
  intros r c Hr Hc _. rewrite Hzero by done. lia.
Qed.

Lemma try_guesses_returns (solve_new : Sudoku → result outcome)
    (self : SudokuSolver) (y x : Z) (cands : list Z) :
  consistent 9 (sudoku self) → 0 ≤ y < 9 → 0 ≤ x < 9 →
  (∀ v, v ∈ cands → v ∈ candidates (sudoku self) y x) →
  (∀ new, consistent 9 new →
     placed_numbers new = placed_numbers (sudoku self) + 1 →
     ∃ o, solve_new new = Ok o) →
  ∃ o, try_guesses solve_new self ((λ v, Some (y, x, v)) <$> cands) = Ok o.
Proof.
  intros Hs Hy Hx Hcands Hrec.
  induction cands as [|v cands IH]; [by eexists|].
  destruct (proj1 (elem_of_candidates _ y x v) (Hcands v ltac:(left)))
    as [Hv Hcan].
  destruct (place_consistent 9 (sudoku self) y x v Hs Hy Hx Hv Hcan)
    as (new & Hplace & Hnew & _ & Hplaced & _).
  cbn [fmap list_fmap try_guesses makeGuess]. rewrite copy_same, Hplace. run.
  destruct (Hrec new Hnew Hplaced) as [o ->]. run.
  destruct o as [b|msg]; [by eexists|].
  apply IH. intros w Hw. apply Hcands. by right.
Qed.

(** On a consistent sudoku that shows a number, [solve] returns. *)
Lemma solve_returns (fuel : nat) (self : SudokuSolver) :
  consistent 9 (sudoku self) → 1 ≤ placed_numbers (sudoku self) →
  81 - placed_numbers (sudoku self) < Z.of_nat fuel →
  ∃ o, solve fuel self = Ok o.
Proof.
  revert self. induction fuel as [|fuel IH]; intros self Hs Hplaced Hfuel.
  { pose proof (consistent_placed_bound _ Hs). lia. }
  cbn [solve].
  destruct (placeTrivials_facts (consistent 9) consistent_shaped
              consistent_forced consistent_bound (S fuel) self Hs Hfuel)
    as (valid & self1 & -> & Hs1 & Hle & Hsettled & _). run.
  destruct valid; cbn [negb]; [|by eexists].
  destruct (isSolved (sudoku self1)) eqn:Hsolved; [by eexists|].
  destruct (Hsettled eq_refl) as (Hcells & _ & Hbest).
  destruct Hbest as [Hbest|(y & x & Hy & Hx & Hfree & -> & _)].
  - destruct (constrained_cell (sudoku self1) Hs1 ltac:(lia) Hsolved)
      as (y & x & Hy & Hx & Hfree & Hlen).
    destruct (Hcells y x Hy Hx Hfree) as [_ Hmin].
    rewrite Hbest, length_replicate in Hmin. lia.
  - apply try_guesses_returns; [done..|].
    intros new Hnew Hnewplaced. apply (IH (SudokuSolver_of new)); cbn; [done|lia|lia].
Qed.

(** On a consistent sudoku that shows nothing, [solve] raises when it
    unpacks the first guess. *)
Lemma solve_empty (fuel : nat) (self : SudokuSolver) :
  consistent 9 (sudoku self) → placed_numbers (sudoku self) = 0 →
  81 < Z.of_nat fuel →
  solve fuel self
  = Raise (TypeError
             "place() argument after * must be an iterable, not NoneType").
Proof.
  intros Hs Hplaced Hfuel. destruct fuel as [|fuel]; [lia|]. cbn [solve].
  set (Inv := λ s, consistent 9 s ∧ placed_numbers s = 0).
  assert (Inv_shaped : ∀ s, Inv s → well_shaped 9 s).
  { intros s [Hcons _]. apply Hcons. }
  assert (Inv_forced : ∀ s y x v s', Inv s → 0 ≤ y < 9 → 0 ≤ x < 9 →
            candidates s y x = [v] → place s y x v = Ok s' → Inv s').
  { intros s y x v s' [Hcons Hzero] Hy Hx Hcand Hplace.
    destruct (empty_candidates s y x Hcons Hzero Hy Hx) as [_ Hall].
    rewrite Hall in Hcand. done. }
  assert (Inv_bound : ∀ s, Inv s → placed_numbers s ≤ 81).
  { intros s [Hcons _]. by apply consistent_bound. }
  assert (Hlive : live Inv).
  { intros s y x [Hcons Hzero] Hy Hx _.
    destruct (empty_candidates s y x Hcons Hzero Hy Hx) as [_ ->]. done. }
  destruct (placeTrivials_facts Inv Inv_shaped Inv_forced Inv_bound
              (S fuel) self)
    as (valid & self1 & -> & [Hs1 Hzero1] & _ & Hsettled & Hvalid);
    [done|lia|].
  rewrite (Hvalid Hlive) in *. run. cbn [negb].
  assert (Hunsolved : isSolved (sudoku self1) = false).
  { unfold isSolved. apply bool_decide_eq_false.
    rewrite (built_size _ _ (ws_config _ _ (cons_shaped _ _ Hs1))). lia. }
  rewrite Hunsolved.
  destruct (Hsettled eq_refl) as (_ & _ & Hbest).
  destruct Hbest as [->|(y & x & Hy & Hx & _ & -> & Hlt)]; [done|].
  destruct (empty_candidates (sudoku self1) y x Hs1 Hzero1 Hy Hx)
    as [_ Hall].
  unfold guesses_of in Hlt. rewrite length_fmap, Hall, length_range in Hlt.
  lia.
Qed.

(** ** Completeness of the search *)

Section completeness.
Variable grid : matrix.
Hypothesis grid_solution : solution 9 3 grid.

(** The number that a solution gives a free cell is one that the cell
    takes. *)
Lemma solution_value_candidate (s : Sudoku) (y x : Z) :
  completes grid s → 0 ≤ y < 9 → 0 ≤ x < 9 → free s y x →
  cell grid y x ∈ candidates s y x.
Proof.
  intros [Hs Hext] Hy Hx Hfree.
  pose proof (proj1 (proj2 grid_solution) y x Hy Hx) as Hv.
  apply (candidate_bits s y x _ (cons_shaped _ _ Hs) Hy Hx).
  split; [done|]. split; [|done].
  apply (cons_avail _ _ Hs y x _ Hy Hx Hv). intros r c Hr Hc Hpeer Heq.
  rewrite (consistent_partition_size s Hs) in Hpeer.
  assert (Hshown : cell (displayable s) r c ≠ 0) by lia.
  pose proof (Hext r c Hr Hc Hshown) as Hg.
  apply (solution_distinct_peers 9 3 grid y x r c); try done.
  - intros [= -> ->]. apply (cons_free _ _ Hs) in Hfree; [|done..].
    congruence.
  - congruence.
Qed.

Lemma completes_place (s : Sudoku) (y x : Z) (s' : Sudoku) :
  completes grid s → 0 ≤ y < 9 → 0 ≤ x < 9 → free s y x →
  place s y x (cell grid y x) = Ok s' → completes grid s'.
Proof.
  intros Hc Hy Hx Hfree Hplace.
  pose proof (solution_value_candidate s y x Hc Hy Hx Hfree) as Hin.
  apply elem_of_candidates in Hin as [Hv Hcan]. destruct Hc as [Hs Hext].
  destruct (place_consistent 9 s y x _ Hs Hy Hx Hv Hcan)
    as (s1 & Hplace1 & Hs1 & _ & _ & Hdisp).
  assert (s1 = s') as -> by congruence. split; [done|].
  intros r c Hr Hc Hshown. rewrite Hdisp in * by done.
  case_bool_decide as Hyx; [|by apply Hext].
  by destruct Hyx as [-> ->].
Qed.

Lemma completes_forced (s : Sudoku) (y x v : Z) (s' : Sudoku) :
  completes grid s → 0 ≤ y < 9 → 0 ≤ x < 9 →
  candidates s y x = [v] → place s y x v = Ok s' → completes grid s'.
Proof.
  intros Hc Hy Hx Hcand Hplace.
  assert (Hfree : free s y x).
  { assert (Hv : v ∈ candidates s y x) by (rewrite Hcand; left).
    apply (candidate_bits s y x v) in Hv; [tauto|apply Hc|done..]. }
  pose proof (solution_value_candidate s y x Hc Hy Hx Hfree) as Hin.
  rewrite Hcand in Hin. apply list_elem_of_singleton in Hin.
  rewrite <- Hin in Hplace. by apply (completes_place s y x s').
Qed.

Lemma completes_shaped (s : Sudoku) : completes grid s → well_shaped 9 s.
Proof. intros [Hs _]. apply Hs. Qed.

Lemma completes_bound (s : Sudoku) : completes grid s → placed_numbers s ≤ 81.
Proof. intros [Hs _]. by apply consistent_bound. Qed.

Lemma completes_live : live (completes grid).
Proof.
  intros s y x Hc Hy Hx Hfree Hnil.
  pose proof (solution_value_candidate s y x Hc Hy Hx Hfree) as Hin.
  rewrite Hnil in Hin. by apply elem_of_nil in Hin.
Qed.

Lemma try_guesses_complete (solve_new : Sudoku → result outcome)
    (self : SudokuSolver) (y x : Z) (cands : list Z) (msg : string) :
  completes grid (sudoku self) → 0 ≤ y < 9 → 0 ≤ x < 9 →
  free (sudoku self) y x →
  (∀ v, v ∈ cands → v ∈ candidates (sudoku self) y x) →
  cell grid y x ∈ cands →
  (∀ new msg', completes grid new → solve_new new ≠ Ok (Unsolvable msg')) →
  try_guesses solve_new self ((λ v, Some (y, x, v)) <$> cands)
  ≠ Ok (Unsolvable msg).
Proof.
  intros Hc Hy Hx Hfree Hcands Hin Hrec.
  induction cands as [|v cands IH]; [by apply elem_of_nil in Hin|].
  destruct (proj1 (elem_of_candidates _ y x v) (Hcands v ltac:(left)))
    as [Hv Hcan].
  destruct (place_consistent 9 (sudoku self) y x v (proj1 Hc) Hy Hx Hv Hcan)
    as (new & Hplace & _).
  cbn [fmap list_fmap try_guesses makeGuess]. rewrite copy_same, Hplace. run.
  destruct (solve_new new) as [[b|msg']| |] eqn:Hnew; run; [done| |done..].
  apply elem_of_cons in Hin as [Hin|Hin].
  - exfalso. apply (Hrec new msg'); [|done]. rewrite <- Hin in Hplace.
    by apply (completes_place (sudoku self) y x new).
  - apply IH; [|done]. intros w Hw. apply Hcands. by right.
Qed.

Lemma solve_complete (fuel : nat) (self : SudokuSolver) (msg : string) :
  completes grid (sudoku self) → solve fuel self ≠ Ok (Unsolvable msg).
Proof.
  revert self msg. induction fuel as [|fuel IH]; intros self msg Hc; [done|].
  cbn [solve].
  destruct (placeTrivials (S fuel) self) as [[valid self1]| |] eqn:Hrun;
    run; [|done..].
  destruct (placeTrivials_facts_Ok (completes grid) completes_shaped
              completes_forced completes_bound (S fuel) self self1 valid Hc)
    as (Hc1 & _ & Hsettled & Hvalid); [|done|].
  { apply (consistent_placed_bound _ (proj1 Hc)). }
  rewrite (Hvalid completes_live) in *. cbn [negb].
  destruct (isSolved (sudoku self1)); [done|].
  destruct (Hsettled eq_refl) as (_ & _ & Hbest).
  destruct Hbest as [->|(y & x & Hy & Hx & Hfree & -> & _)]; [done|].
  apply try_guesses_complete; [done..| |].
  - by apply solution_value_candidate.
  - intros new msg' Hnew. by apply (IH (SudokuSolver_of new)).
Qed.
End completeness.

(** * Further properties of the search *)

Lemma main_solver_placed : placed_numbers (sudoku main_solver) = 23.
Proof. vm_compute. reflexivity. Qed.

Lemma main_solver_propagated :
  placeTrivials 82 main_solver = Ok (true, main_propagated).
Proof. vm_compute. reflexivity. Qed.

Lemma placeTrivials_settles_witness :
  consistent 9 (sudoku main_solver)
  ∧ placeTrivials 82 main_solver = Ok (true, main_propagated)
  ∧ (consistent 9 (sudoku main_propagated)
     ∧ extends (displayable (sudoku main_solver))
         (displayable (sudoku main_propagated)))
  ∧ settled (sudoku main_propagated) (best_guesses main_propagated).
Proof.
  split; [exact main_solver_consistent|].
  split; [exact main_solver_propagated|].
  exact (placeTrivials_settles 82 main_solver main_propagated
           main_solver_consistent main_solver_propagated).
Defined.

(** X14: on a consistent sudoku [solve] terminates: with a bound above the
    number of the cells that show nothing the bound is not reached, and every
    larger bound gives the same outcome. *)
Theorem solve_terminates (fuel fuel' : nat) (self : SudokuSolver) :
  consistent 9 (sudoku self) →
  81 - placed_numbers (sudoku self) < Z.of_nat fuel → (fuel ≤ fuel')%nat →
  solve fuel self ≠ OutOfFuel ∧ solve fuel' self = solve fuel self.
Proof.
  intros Hs Hfuel Hle.
  assert (Hfin : solve fuel self ≠ OutOfFuel).
  { pose proof (consistent_placed_bound _ Hs) as Hplaced.
    destruct (decide (placed_numbers (sudoku self) = 0)) as [Hzero|Hpos].
    - rewrite (solve_empty fuel self Hs Hzero) by lia. done.
    - destruct (solve_returns fuel self Hs ltac:(lia) Hfuel) as [o ->].
      done. }
  split; [done|]. by apply solve_mono.
Qed.

Lemma solve_terminates_witness :
  consistent 9 (sudoku main_solver)
  ∧ 81 - placed_numbers (sudoku main_solver) < Z.of_nat 82
  ∧ (82 ≤ 100)%nat
  ∧ solve 82 main_solver ≠ OutOfFuel
  ∧ solve 100 main_solver = solve 82 main_solver.
Proof.
  assert (H1 : 81 - placed_numbers (sudoku main_solver) < Z.of_nat 82)
    by (rewrite main_solver_placed; lia).
  assert (H2 : (82 ≤ 100)%nat) by lia.
  split; [exact main_solver_consistent|]. split; [exact H1|].
  split; [exact H2|].
  exact (solve_terminates 82 100 main_solver main_solver_consistent H1 H2).
Defined.

(** X15: on a consistent sudoku that shows at least one number [solve]
    raises nothing: it returns the solved sudoku or the message of
    failure. *)
Theorem solve_returns_normally (fuel : nat) (self : SudokuSolver) :
  consistent 9 (sudoku self) → 1 ≤ placed_numbers (sudoku self) →
  81 - placed_numbers (sudoku self) < Z.of_nat fuel →
  (∃ b, solve fuel self = Ok (Solved b))
  ∨ (∃ msg, solve fuel self = Ok (Unsolvable msg)).
Proof.
  intros Hs Hplaced Hfuel.
  destruct (solve_returns fuel self Hs Hplaced Hfuel) as [[b|msg] ->];
    [left|right]; by eexists.
Qed.

Lemma solve_returns_normally_witness :
  consistent 9 (sudoku main_solver)
  ∧ 1 ≤ placed_numbers (sudoku main_solver)
  ∧ 81 - placed_numbers (sudoku main_solver) < Z.of_nat 82
  ∧ ((∃ b, solve 82 main_solver = Ok (Solved b))
     ∨ (∃ msg, solve 82 main_solver = Ok (Unsolvable msg))).
Proof.
  assert (H1 : 1 ≤ placed_numbers (sudoku main_solver))
    by (rewrite main_solver_placed; lia).
  assert (H2 : 81 - placed_numbers (sudoku main_solver) < Z.of_nat 82)
    by (rewrite main_solver_placed; lia).
  split; [exact main_solver_consistent|]. split; [exact H1|].
  split; [exact H2|].
  exact (solve_returns_normally 82 main_solver main_solver_consistent H1 H2).
Defined.

(** X16: on every consistent sudoku that shows no number [solve] raises the
    [TypeError] of unpacking the placeholder [None]: the scan finds nine
    numbers for every cell, none of which is fewer than the nine
    placeholders. *)
Theorem solve_empty_board_raises (fuel : nat) (self : SudokuSolver) :
  consistent 9 (sudoku self) → placed_numbers (sudoku self) = 0 →
  81 < Z.of_nat fuel →
  solve fuel self
  = Raise (TypeError
             "place() argument after * must be an iterable, not NoneType").
Proof. apply solve_empty. Qed.

Lemma empty_solver_init :
  (SudokuSolver_init (InMaterial (material_of (zeros 9 9)))).1
  = Ok empty_solver.
Proof. vm_compute. reflexivity. Qed.

Lemma empty_solver_consistent : consistent 9 (sudoku empty_solver).
Proof.
  exact (SudokuSolver_init_consistent (InMaterial (material_of (zeros 9 9)))
           empty_solver I empty_solver_init).
Qed.

Lemma empty_solver_placed : placed_numbers (sudoku empty_solver) = 0.
Proof. vm_compute. reflexivity. Qed.

Lemma solve_empty_board_raises_witness :
  consistent 9 (sudoku empty_solver)
  ∧ placed_numbers (sudoku empty_solver) = 0
  ∧ 81 < Z.of_nat 82
  ∧ solve 82 empty_solver
    = Raise (TypeError
               "place() argument after * must be an iterable, not NoneType").
Proof.
  assert (H1 : 81 < Z.of_nat 82) by lia.
  split; [exact empty_solver_consistent|].
  split; [exact empty_solver_placed|]. split; [exact H1|].
  exact (solve_empty_board_raises 82 empty_solver empty_solver_consistent
           empty_solver_placed H1).
Defined.

(** X17: [solve] answers with failure only for a sudoku that has no
    solution: when it returns False with a message on a consistent sudoku, no
    solved grid shows all the numbers that the sudoku shows. *)
Theorem solve_failure_is_final (fuel : nat) (self : SudokuSolver)
    (msg : string) :
  consistent 9 (sudoku self) → solve fuel self = Ok (Unsolvable msg) →
  ¬ ∃ grid, solution 9 3 grid ∧ extends (displayable (sudoku self)) grid.
Proof.
  intros Hs Hsolve (grid & Hgrid & Hext).
  by apply (solve_complete grid Hgrid fuel self msg).
Qed.

Lemma dead_end_consistent : consistent 9 (sudoku dead_end_solver).
Proof.
  exact (SudokuSolver_init_consistent (InMaterial (material_of dead_end))
           dead_end_solver I dead_end_solver_init).
Qed.

Lemma dead_end_solve :
  solve 82 dead_end_solver = Ok (Unsolvable "the sudoku could not be solved").
Proof. vm_compute. reflexivity. Qed.

Lemma solve_failure_is_final_witness :
  consistent 9 (sudoku dead_end_solver)
  ∧ solve 82 dead_end_solver
    = Ok (Unsolvable "the sudoku could not be solved")
  ∧ ¬ ∃ grid, solution 9 3 grid
              ∧ extends (displayable (sudoku dead_end_solver)) grid.
Proof.
  split; [exact dead_end_consistent|]. split; [exact dead_end_solve|].
  exact (solve_failure_is_final 82 dead_end_solver _ dead_end_consistent
           dead_end_solve).
Defined.

(** X18: on a consistent sudoku that shows at least one number [solve]
    decides solvability: it returns True with a sudoku exactly when some
    solved grid shows all the numbers that the given sudoku shows. *)
Theorem solve_succeeds_iff_solvable (fuel : nat) (self : SudokuSolver) :
  consistent 9 (sudoku self) → 1 ≤ placed_numbers (sudoku self) →
  81 - placed_numbers (sudoku self) < Z.of_nat fuel →
  (∃ b, solve fuel self = Ok (Solved b))
  ↔ ∃ grid, solution 9 3 grid ∧ extends (displayable (sudoku self)) grid.
Proof.
  intros Hs Hplaced Hfuel. split.
  - intros [b Hsolve]. exists (displayable b).
    destruct (solve_sound fuel self b Hs Hsolve) as [Hb Hsolved].
    destruct (solve_extends (displayable (sudoku self)) fuel self b Hs
                (extends_refl _) Hsolve) as [_ Hext].
    split; [|done]. rewrite <- (consistent_partition_size b Hb).
    by apply consistent_solved.
  - intros (grid & Hgrid & Hext).
    destruct (solve_returns fuel self Hs Hplaced Hfuel) as [[b|msg] Hsolve];
      [by exists b|].
    by destruct (solve_complete grid Hgrid fuel self msg).
Qed.

Lemma solve_succeeds_iff_solvable_witness :
  consistent 9 (sudoku main_solver)
  ∧ 1 ≤ placed_numbers (sudoku main_solver)
  ∧ 81 - placed_numbers (sudoku main_solver) < Z.of_nat 82
  ∧ ((∃ b, solve 82 main_solver = Ok (Solved b))
     ↔ ∃ grid, solution 9 3 grid
               ∧ extends (displayable (sudoku main_solver)) grid).
Proof.
  assert (H1 : 1 ≤ placed_numbers (sudoku main_solver))
    by (rewrite main_solver_placed; lia).
  assert (H2 : 81 - placed_numbers (sudoku main_solver) < Z.of_nat 82)
    by (rewrite main_solver_placed; lia).
  split; [exact main_solver_consistent|]. split; [exact H1|].
  split; [exact H2|].
  exact (solve_succeeds_iff_solvable 82 main_solver main_solver_consistent
           H1 H2).
Defined.

(** * The conversion of the input, continued *)

Lemma verifyInput_row_fail (pre post : list pyobj) (o : pyobj)
    (zs : list Z) (e : Exception) :
  Forall2 (λ o z, int_ o = Ok z) pre zs → int_ o = Raise e →
  verifyInput_row (pre ++ o :: post)
  = (Raise e, (PyInt <$> zs) ++ o :: post).
Proof.
  intros Hpre Ho. induction Hpre as [|o' z pre zs Hz _ IH]; simpl.
  - by rewrite Ho.
  - by rewrite Hz, IH.
Qed.

Lemma verifyInput_rows_fail (before after : list (list pyobj))
    (row row' : list pyobj) (ints : matrix) (e : Exception) :
  Forall2 (Forall2 (λ o z, int_ o = Ok z)) before ints →
  verifyInput_row row = (Raise e, row') →
  verifyInput_rows (before ++ row :: after)
  = (Raise e, material_of ints ++ row' :: after).
Proof.
  intros Hbefore Hrow. induction Hbefore as [|r zs before ints Hzs _ IH]; simpl.
  - by rewrite Hrow.
  - rewrite (proj2 (verifyInput_row_Ok r zs (PyInt <$> zs))) by done.
    by rewrite IH.
Qed.

(** X19: when an entry of material of the right shape cannot be converted,
    the construction raises what [int] raises for the first such entry in
    row-major order, and leaves the caller's array half converted: the
    entries before that one hold their integers, that entry and all after
    it are as they were. *)
Theorem construction_stops_at_first_failure
    (before after : list (list pyobj)) (pre post : list pyobj) (o : pyobj)
    (ints : matrix) (zs : list Z) (e : Exception) :
  np_shape (before ++ (pre ++ o :: post) :: after) = [9; 9] →
  Forall2 (Forall2 (λ o z, int_ o = Ok z)) before ints →
  Forall2 (λ o z, int_ o = Ok z) pre zs →
  int_ o = Raise e →
  SudokuSolver_init (InMaterial (before ++ (pre ++ o :: post) :: after))
  = (Raise e,
     InMaterial (material_of ints ++ ((PyInt <$> zs) ++ o :: post) :: after)).
Proof.
  intros Hshape Hbefore Hpre Ho. cbn [SudokuSolver_init]. unfold verifyInput.
  rewrite solver_config_size, bool_decide_eq_false_2 by auto.
  rewrite (verifyInput_rows_fail before after (pre ++ o :: post)
             ((PyInt <$> zs) ++ o :: post) ints e); [done|done|].
  by apply verifyInput_row_fail.
Qed.

Lemma construction_stops_at_first_failure_witness :
  np_shape (bad_material_before
            ++ (bad_material_pre ++ bad_entry :: bad_material_post)
               :: bad_material_after) = [9; 9]
  ∧ Forall2 (Forall2 (λ o z, int_ o = Ok z)) bad_material_before
      [replicate 9 0]
  ∧ Forall2 (λ o z, int_ o = Ok z) bad_material_pre [1; 2]
  ∧ int_ bad_entry
    = Raise (ValueError "invalid literal for int() with base 10: 'x'")
  ∧ SudokuSolver_init
      (InMaterial (bad_material_before
                   ++ (bad_material_pre ++ bad_entry :: bad_material_post)
                      :: bad_material_after))
    = (Raise (ValueError "invalid literal for int() with base 10: 'x'"),
       InMaterial (material_of [replicate 9 0]
                   ++ ((PyInt <$> [1; 2]) ++ bad_entry :: bad_material_post)
                      :: bad_material_after)).
Proof.
  assert (H1 : np_shape (bad_material_before
                         ++ (bad_material_pre
                             ++ bad_entry :: bad_material_post)
                            :: bad_material_after) = [9; 9])
    by (vm_compute; reflexivity).
  assert (H2 : Forall2 (Forall2 (λ o z, int_ o = Ok z)) bad_material_before
                 [replicate 9 0]) by (repeat constructor).
  assert (H3 : Forall2 (λ o z, int_ o = Ok z) bad_material_pre [1; 2])
    by (repeat constructor).
  assert (H4 : int_ bad_entry
               = Raise (ValueError
                          "invalid literal for int() with base 10: 'x'"))
    by reflexivity.
  split; [exact H1|]. split; [exact H2|]. split; [exact H3|].
  split; [exact H4|].
  exact (construction_stops_at_first_failure bad_material_before
           bad_material_after bad_material_pre bad_material_post bad_entry
           [replicate 9 0] [1; 2] _ H1 H2 H3 H4).
Defined.
